(** * rxjs-reactive-web: binding engine, MVU loop and hash router

    A shallow embedding of the TypeScript sources:
    - [Js]       the JavaScript values and string primitives the code uses;
    - [Rx]       the stream operators the sources pipe together
                 (scan, startWith, map, distinctUntilChanged, shareReplay);
    - [Router]   [parseRoute] and [createHashRoute$];
    - [Mvu]      the reducer loop of [runMVU];
    - [Dom], [Engine], [Bind], [Template]
                 the binding engine over an explicit page/subscription store;
    - [Plan]     the writes a [bind] call makes, as data;
    - [Fixture], [Scenario], [OrderScenario], [Tests]
                 a small document and the declarations of the examples;
    - [HashLinks], [RouterApp]
                 [bindHashLinks] and the router application;
    - [Routes], [Cold], [Events], [Errors], [Menu]
                 notions the further properties are stated with.

    Definitions first, theorems afterwards. *)

From stdpp Require Import base list strings gmap.
From Stdlib Require Import Ascii String ZArith Lia DecimalString.

Local Open Scope string_scope.
Local Open Scope list_scope.

(* ===================================================================== *)
(** ** JavaScript strings *)
(* ===================================================================== *)

Module Js.

(** [s || d] on strings: the empty string is falsy. *)
Definition or_else (s d : string) : string :=
  match s with
  | EmptyString => d
  | _ => s
  end.

(** [s.startsWith(c)] for a one-character prefix. *)
Definition startsWithChar (c : ascii) (s : string) : bool :=
  match s with
  | EmptyString => false
  | String a _ => Ascii.eqb a c
  end.

(** [s.startsWith(p)] *)
Fixpoint startsWith (p s : string) : bool :=
  match p with
  | EmptyString => true
  | String a p' =>
      match s with
      | EmptyString => false
      | String b s' => Ascii.eqb a b && startsWith p' s'
      end
  end.

(** [s.slice(1)] *)
Definition slice1 (s : string) : string :=
  match s with
  | EmptyString => EmptyString
  | String _ r => r
  end.

(** [s.split(c)] for a one-character separator: never the empty list,
    an empty piece between adjacent separators and at either end. *)
Fixpoint split (c : ascii) (s : string) : list string :=
  match s with
  | EmptyString => [EmptyString]
  | String a r =>
      if Ascii.eqb a c then EmptyString :: split c r
      else match split c r with
           | [] => [String a EmptyString]
           | p :: ps => String a p :: ps
           end
  end.

(** [s.split(c, n)]: the first [n] pieces of the full split. *)
Definition split_limit (c : ascii) (n : nat) (s : string) : list string :=
  take n (split c s).

(** [seg.length > 0] *)
Definition nonempty (s : string) : bool :=
  match s with
  | EmptyString => false
  | _ => true
  end.

(** Occurrence of a character in a string. *)
Fixpoint contains (c : ascii) (s : string) : bool :=
  match s with
  | EmptyString => false
  | String a r => Ascii.eqb a c || contains c r
  end.

(** String concatenation and [arr.join(sep)]. *)
Definition join (sep : string) (xs : list string) : string :=
  String.concat sep xs.

(** The values the streams carry. An array is an object: it has an
    identity besides its items. *)
Inductive Value :=
| VUndefined
| VNull
| VBool (b : bool)
| VNum (n : Z)
| VStr (s : string)
| VArr (ref : nat) (items : list string).

(** [a === b] *)
Definition strict_eq (a b : Value) : bool :=
  match a, b with
  | VUndefined, VUndefined => true
  | VNull, VNull => true
  | VBool x, VBool y => Bool.eqb x y
  | VNum x, VNum y => Z.eqb x y
  | VStr x, VStr y => String.eqb x y
  | VArr r _, VArr r' _ => Nat.eqb r r'
  | _, _ => false
  end.

(** [v == null] *)
Definition nullish (v : Value) : bool :=
  match v with
  | VUndefined | VNull => true
  | _ => false
  end.

(** [Boolean(v)] *)
Definition truthy (v : Value) : bool :=
  match v with
  | VUndefined | VNull => false
  | VBool b => b
  | VNum n => negb (Z.eqb n 0)
  | VStr s => nonempty s
  | VArr _ _ => true
  end.

Definition number_to_string (n : Z) : string :=
  NilZero.string_of_int (Z.to_int n).

(** [String(v)] *)
Definition to_string (v : Value) : string :=
  match v with
  | VUndefined => "undefined"
  | VNull => "null"
  | VBool true => "true"
  | VBool false => "false"
  | VNum n => number_to_string n
  | VStr s => s
  | VArr _ items => join "," items
  end.

(** [v?.toString() ?? ''] and [v == null ? '' : String(v)] *)
Definition text_of (v : Value) : string :=
  if nullish v then "" else to_string v.

(** The values [to_string] prints as JavaScript does: a number is
    printed digit by digit only while it is a safe integer, beyond
    [2^53 - 1] JavaScript rounds the digits and from [1e21] on it uses
    the exponent form. *)
Definition printsExactly (v : Value) : bool :=
  match v with
  | VNum n => (Z.abs n <=? 2 ^ 53 - 1)%Z
  | _ => true
  end.

End Js.

(* ===================================================================== *)
(** ** Stream operators as transducers *)
(* ===================================================================== *)

Module Rx.

(** A cold pipeline over a hot source of [A]: subscribing to it creates
    a private state and may emit synchronously; afterwards every source
    notification is fed through. *)
Record Pipe (A B : Type) := MkPipe {
  PSt : Type;
  connect : PSt * list B;
  feed : PSt -> A -> PSt * list B
}.
Arguments MkPipe {A B} PSt connect feed.
Arguments PSt {A B} _.
Arguments connect {A B} _.
Arguments feed {A B} _ _ _.

(** Feed several notifications in order, collecting the output. *)
Fixpoint feed_all {A B} (p : Pipe A B) (s : PSt p) (xs : list A)
  : PSt p * list B :=
  match xs with
  | [] => (s, [])
  | x :: xs' =>
      let '(s1, out1) := feed p s x in
      let '(s2, out2) := feed_all p s1 xs' in
      (s2, out1 ++ out2)
  end.

(** A Subject or [fromEvent]: nothing at subscription, every
    notification passed on. *)
Definition source (A : Type) : Pipe A A :=
  MkPipe unit (tt, []) (fun _ a => (tt, [a])).

(** [map(f)] *)
Definition map {A B C} (f : B -> C) (p : Pipe A B) : Pipe A C :=
  MkPipe (PSt p)
    (let '(s, bs) := connect p in (s, List.map f bs))
    (fun s a => let '(s', bs) := feed p s a in (s', List.map f bs)).

(** The accumulator of [scan(f, seed)] run over a batch. *)
Fixpoint scan_run {B C} (f : C -> B -> C) (acc : C) (bs : list B)
  : C * list C :=
  match bs with
  | [] => (acc, [])
  | b :: bs' =>
      let acc1 := f acc b in
      let '(acc2, out) := scan_run f acc1 bs' in
      (acc2, acc1 :: out)
  end.

(** [scan(f, seed)]: emits every new accumulator, the seed itself is
    not emitted. *)
Definition scan {A B C} (f : C -> B -> C) (seed : C) (p : Pipe A B)
  : Pipe A C :=
  MkPipe (PSt p * C)%type
    (let '(s, bs) := connect p in
     let '(acc, out) := scan_run f seed bs in ((s, acc), out))
    (fun st a =>
       let '(s', bs) := feed p (fst st) a in
       let '(acc, out) := scan_run f (snd st) bs in ((s', acc), out)).

(** [startWith(v)]: [v] first, then the source. *)
Definition startWith {A B} (v : B) (p : Pipe A B) : Pipe A B :=
  MkPipe (PSt p)
    (let '(s, bs) := connect p in (s, v :: bs))
    (feed p).

(** The filter of [distinctUntilChanged(same)] run over a batch;
    [last] is the previously passed value, if any. *)
Fixpoint distinct_run {B} (same : B -> B -> bool) (last : option B)
    (bs : list B) : option B * list B :=
  match bs with
  | [] => (last, [])
  | b :: bs' =>
      match last with
      | Some l =>
          if same l b then distinct_run same last bs'
          else let '(last', out) := distinct_run same (Some b) bs' in
               (last', b :: out)
      | None =>
          let '(last', out) := distinct_run same (Some b) bs' in
          (last', b :: out)
      end
  end.

(** [distinctUntilChanged(same)] *)
Definition distinctUntilChanged {A B} (same : B -> B -> bool)
    (p : Pipe A B) : Pipe A B :=
  MkPipe (PSt p * option B)%type
    (let '(s, bs) := connect p in
     let '(last, out) := distinct_run same None bs in ((s, last), out))
    (fun st a =>
       let '(s', bs) := feed p (fst st) a in
       let '(last, out) := distinct_run same (snd st) bs in
       ((s', last), out)).

(** *** [shareReplay({ bufferSize: 1, refCount: true })]

    One upstream subscription shared by all observers, the last value
    kept for late observers; when the last observer leaves, the upstream
    subscription and the buffer are dropped. *)
Section ShareReplay.
Context {A B : Type} (p : Pipe A B).

Record Shared := MkShared {
  observers : list nat;          (* in subscription order *)
  upstream : option (PSt p);     (* the source subscription, if connected *)
  buffer : option B              (* the ReplaySubject(1) buffer *)
}.

Definition idle : Shared := MkShared [] None None.

(** A delivery [(o, b)]: observer [o] receives [b]. *)
Definition broadcast (obs : list nat) (bs : list B) : list (nat * B) :=
  b ← bs; (fun o => (o, b)) <$> obs.

Definition last_or (d : option B) (bs : list B) : option B :=
  match last bs with
  | Some b => Some b
  | None => d
  end.

(** [subscribe]: the observer joins the subject (which replays its
    buffer to it), then the source is connected if it is not. *)
Definition subscribe (o : nat) (sh : Shared) : Shared * list (nat * B) :=
  let obs := observers sh ++ [o] in
  let replay := match buffer sh with
                | Some b => [(o, b)]
                | None => []
                end in
  match upstream sh with
  | Some s => (MkShared obs (Some s) (buffer sh), replay)
  | None =>
      let '(s, bs) := connect p in
      (MkShared obs (Some s) (last_or (buffer sh) bs),
       replay ++ broadcast obs bs)
  end.

(** A source notification while connected; without a connection the
    pipeline has no subscription on the source and nothing happens. *)
Definition next (a : A) (sh : Shared) : Shared * list (nat * B) :=
  match upstream sh with
  | Some s =>
      let '(s', bs) := feed p s a in
      (MkShared (observers sh) (Some s') (last_or (buffer sh) bs),
       broadcast (observers sh) bs)
  | None => (sh, [])
  end.

(** [unsubscribe]: the reference count drops; at zero the connection
    is reset. *)
Definition unsubscribe (o : nat) (sh : Shared) : Shared :=
  if bool_decide (o ∈ observers sh) then
    let obs := filter (fun x => x ≠ o) (observers sh) in
    match obs with
    | [] => idle
    | _ => MkShared obs (upstream sh) (buffer sh)
    end
  else sh.

Inductive Action := Subscribe (o : nat) | Unsubscribe (o : nat) | Next (a : A).

Definition step (sh : Shared) (act : Action) : Shared * list (nat * B) :=
  match act with
  | Subscribe o => subscribe o sh
  | Unsubscribe o => (unsubscribe o sh, [])
  | Next a => next a sh
  end.

(** Run a trace from a state, collecting every delivery. *)
Fixpoint run (sh : Shared) (t : list Action) : Shared * list (nat * B) :=
  match t with
  | [] => (sh, [])
  | act :: t' =>
      let '(sh1, d1) := step sh act in
      let '(sh2, d2) := run sh1 t' in
      (sh2, d1 ++ d2)
  end.

End ShareReplay.

(** No two neighbours of the list are the same. *)
Fixpoint no_repeat {B} (same : B -> B -> bool) (l : list B) : bool :=
  match l with
  | a :: t => match t with
              | b :: _ => negb (same a b) && no_repeat same t
              | [] => true
              end
  | [] => true
  end.

End Rx.

(* ===================================================================== *)
(** ** router.ts *)
(* ===================================================================== *)

Module Router.

(** The [Route] interface. *)
Record Route := MkRoute {
  hash : string;
  path : string;
  segments : list string;
  params : gmap string string
}.

Section WithSearchParams.
(** The platform's [URLSearchParams]: the (key, value) pairs of a query
    string in the order [forEach] visits them. *)
Variable URLSearchParams : string -> list (string * string).

(** [search.forEach((value, key) => { params[key] = value; })]: the own
    properties of [params] afterwards. [params] is a plain object, so
    the key [__proto__] is taken by the setter it inherits, which ignores
    a string and stores nothing. *)
Definition collect_params (kvs : list (string * string))
  : gmap string string :=
  foldl (fun acc kv =>
           if String.eqb kv.1 "__proto__" then acc
           else <[kv.1 := kv.2]> acc) ∅ kvs.

Definition parseRoute (rawHash : string) : Route :=
  let hash := Js.or_else rawHash "#/" in
  let withoutHash :=
    if Js.startsWithChar "#" hash then Js.slice1 hash else hash in
  let pieces := Js.split_limit "?" 2 withoutHash in
  let pathPartRaw := default "" (pieces !! 0%nat) in
  let queryPart := default "" (pieces !! 1%nat) in
  let pathPart := Js.or_else pathPartRaw "/" in
  let path :=
    if Js.startsWithChar "/" pathPart || bool_decide (pathPart = "")
    then Js.or_else pathPart "/"
    else String "/" pathPart in
  let segments := List.filter Js.nonempty (Js.split "/" path) in
  let params :=
    if Js.nonempty queryPart
    then collect_params (URLSearchParams queryPart)
    else ∅ in
  MkRoute hash path segments params.

(** [getRoute] of [createHashRoute$]: reads [window.location.hash]. *)
Definition getRoute (locationHash : string) : Route :=
  parseRoute (Js.or_else locationHash "#/").

(** [(a, b) => a.hash === b.hash] *)
Definition sameHash (a b : Route) : bool :=
  bool_decide (hash a = hash b).

(** The pipeline of [createHashRoute$] below [shareReplay]. A
    [hashchange] notification is represented by the value of
    [window.location.hash] when it is handled; [initial] is the value
    when [createHashRoute$] is called. *)
Definition hashRoutePipe (initial : string) : Rx.Pipe string Route :=
  Rx.distinctUntilChanged sameHash
    (Rx.startWith (getRoute initial)
       (Rx.map getRoute (Rx.source string))).

(** What a subscription to [hashRoutePipe] emits over a sequence of
    [hashchange] events. *)
Definition routeEmissions (initial : string) (changes : list string)
  : list Route :=
  let p := hashRoutePipe initial in
  let '(s, out0) := Rx.connect p in
  out0 ++ snd (Rx.feed_all p s changes).

(** [createHashRoute$()] *)
Definition createHashRoute (initial : string)
  : Rx.Shared (hashRoutePipe initial) :=
  Rx.idle (hashRoutePipe initial).
End WithSearchParams.

(** A query-string reader for the examples: [k=v] pairs separated by
    [&], no decoding. *)
Definition plainSearchParams (q : string) : list (string * string) :=
  (fun kv =>
     match Js.split "=" kv with
     | k :: v :: _ => (k, v)
     | k :: [] => (k, "")
     | [] => ("", "")
     end) <$> List.filter Js.nonempty (Js.split "&" q).

End Router.

(* ===================================================================== *)
(** ** mvu.ts *)
(* ===================================================================== *)

Module Mvu.

Section Loop.
Context {Model Msg : Type}.
Variable init : Model.
Variable update : Model -> Msg -> Model.

(** [msg$.pipe(scan(update, init), startWith(init))] *)
Definition foldPipe : Rx.Pipe Msg Model :=
  Rx.startWith init (Rx.scan update init (Rx.source Msg)).

(** [model$]: the fold behind
    [shareReplay({ bufferSize: 1, refCount: true })], as [runMVU]
    constructs it (nobody subscribed yet). *)
Definition model_stream : Rx.Shared foldPipe := Rx.idle foldPipe.

(** The messages the fold has consumed in its current connection:
    a ghost history kept beside the loop. Messages sent while nobody is
    subscribed reach no observer of [msg$]; when the last subscriber
    leaves the history starts afresh. *)
Fixpoint consumed (obs : list nat) (h : list Msg)
    (t : list (@Rx.Action Msg)) : list nat * list Msg :=
  match t with
  | [] => (obs, h)
  | Rx.Subscribe o :: t' => consumed (obs ++ [o]) h t'
  | Rx.Unsubscribe o :: t' =>
      if bool_decide (o ∈ obs) then
        match filter (fun x => x ≠ o) obs with
        | [] => consumed [] [] t'
        | obs' => consumed obs' h t'
        end
      else consumed obs h t'
  | Rx.Next m :: t' =>
      match obs with
      | [] => consumed obs h t'
      | _ => consumed obs (h ++ [m]) t'
      end
  end.

(** Every message sent on [msg$] in a trace. *)
Definition sent (t : list (@Rx.Action Msg)) : list Msg :=
  omap (fun a => match a with Rx.Next m => Some m | _ => None end) t.

(** The loop as the ghost history describes it. *)
Definition loop_of (obs : list nat) (h : list Msg) : Rx.Shared foldPipe :=
  match obs with
  | [] => Rx.idle foldPipe
  | _ => Rx.MkShared foldPipe obs (Some (tt, foldl update init h))
           (Some (foldl update init h))
  end.

End Loop.

(** The counter application. *)
Module Counter.
Record Model := MkModel { count : Z }.
Inductive Msg := Inc | Dec.

Definition init : Model := MkModel 0.

Definition update (model : Model) (msg : Msg) : Model :=
  match msg with
  | Inc => MkModel (count model + 1)
  | Dec => MkModel (count model - 1)
  end.
End Counter.

End Mvu.

(* ===================================================================== *)
(** ** The DOM the engine writes to *)
(* ===================================================================== *)

Module Dom.

Inductive Tag := TInput | TTextArea | TSelect | TButton | TOther (name : string).

(** The children of an element, which [textContent] and [innerHTML] both
    replace: [Text s] is the text node [textContent = s] leaves, [Markup s]
    the nodes parsed from [s]. The two are kept apart even where a browser
    would build the same children, so equal contents mean equal
    children. *)
Inductive Content := Text (s : string) | Markup (s : string).

(** An element. [className] reflects the [class] attribute and
    [disabled] the presence of the [disabled] attribute; [attributes]
    holds the others. *)
Record Element := MkElement {
  tag : Tag;
  content : Content;
  value : string;
  className : string;
  disabled : bool;
  attributes : gmap string string
}.

(** The first argument of [bind], which JavaScript does not force to be
    an element. *)
Inductive Node := NNull | NNotElement | NElement (id : nat).

(** [!node] *)
Definition isNull (n : Node) : bool :=
  match n with
  | NNull => true
  | _ => false
  end.

(** [node instanceof HTMLElement] (false on [null]). *)
Definition isHTMLElement (n : Node) : bool :=
  match n with
  | NElement _ => true
  | _ => false
  end.

Inductive Property :=
| PContent | PValue | PClassName | PDisabled | PAttribute (name : string).

(** One write to a node. *)
Record Mutation := MkMutation {
  target : nat;
  property : Property;
  written : string
}.

(** The elements of the document, addressed by position, and the writes
    made so far. *)
Record Page := MkPage {
  elements : list Element;
  mutations : list Mutation
}.

Definition with_content (c : Content) (e : Element) : Element :=
  MkElement (tag e) c (value e) (className e) (disabled e) (attributes e).
Definition with_value (v : string) (e : Element) : Element :=
  MkElement (tag e) (content e) v (className e) (disabled e) (attributes e).
Definition with_className (c : string) (e : Element) : Element :=
  MkElement (tag e) (content e) (value e) c (disabled e) (attributes e).
Definition with_disabled (d : bool) (e : Element) : Element :=
  MkElement (tag e) (content e) (value e) (className e) d (attributes e).
Definition with_attribute (n v : string) (e : Element) : Element :=
  MkElement (tag e) (content e) (value e) (className e) (disabled e)
    (<[n := v]> (attributes e)).
Definition without_attribute (n : string) (e : Element) : Element :=
  MkElement (tag e) (content e) (value e) (className e) (disabled e)
    (delete n (attributes e)).

(** A write: the element changes in place and the write is recorded. *)
Definition write (el : nat) (p : Property) (shown : string)
    (f : Element -> Element) (pg : Page) : Page :=
  MkPage (alter f el (elements pg))
         (mutations pg ++ [MkMutation el p shown]).

(** [el.textContent = s] *)
Definition set_textContent (el : nat) (s : string) : Page -> Page :=
  write el PContent s (with_content (Text s)).

(** [el.innerHTML = s] *)
Definition set_innerHTML (el : nat) (s : string) : Page -> Page :=
  write el PContent s (with_content (Markup s)).

(** [el.value = s] *)
Definition set_value (el : nat) (s : string) : Page -> Page :=
  write el PValue s (with_value s).

(** [el.className = s] *)
Definition set_className (el : nat) (s : string) : Page -> Page :=
  write el PClassName s (with_className s).

(** [el.disabled = b] *)
Definition set_disabled (el : nat) (b : bool) : Page -> Page :=
  write el PDisabled (if b then "true" else "false") (with_disabled b).

(** A valid attribute local name: not empty, without ASCII whitespace,
    NUL, [/], [=] or [>]. *)
Definition forbidden_in_name (a : ascii) : bool :=
  let n := nat_of_ascii a in
  bool_decide (n ∈ [0; 9; 10; 12; 13; 32; 47; 61; 62]).

Fixpoint all_allowed (s : string) : bool :=
  match s with
  | EmptyString => true
  | String a r => negb (forbidden_in_name a) && all_allowed r
  end.

Definition validAttributeName (n : string) : bool :=
  Js.nonempty n && all_allowed n.

(** [el.setAttribute(n, v)]; [None] when it throws
    [InvalidCharacterError]. *)
Definition setAttribute (el : nat) (n v : string) (pg : Page)
  : option Page :=
  if validAttributeName n then
    Some (if bool_decide (n = "class") then set_className el v pg
          else if bool_decide (n = "disabled")
               then write el PDisabled "true" (with_disabled true) pg
               else write el (PAttribute n) v (with_attribute n v) pg)
  else None.

(** [el.removeAttribute(n)] *)
Definition removeAttribute (el : nat) (n : string) (pg : Page) : Page :=
  if bool_decide (n = "class") then set_className el "" pg
  else if bool_decide (n = "disabled")
       then write el PDisabled "false" (with_disabled false) pg
       else write el (PAttribute n) "" (without_attribute n) pg.

(** [el.getAttribute(n)]; [None] is [null]. *)
Definition getAttribute (el : nat) (n : string) (pg : Page)
  : option string :=
  e ← elements pg !! el;
  if bool_decide (n = "class") then Some (className e)
  else if bool_decide (n = "disabled")
       then (if disabled e then Some "" else None)
       else attributes e !! n.

(** ['value' in el] *)
Definition hasValueProperty (t : Tag) : bool :=
  match t with
  | TInput | TTextArea | TSelect | TButton => true
  | TOther _ => false
  end.

(** [el instanceof HTMLInputElement || el instanceof HTMLTextAreaElement
    || el instanceof HTMLSelectElement] *)
Definition isFormControl (t : Tag) : bool :=
  match t with
  | TInput | TTextArea | TSelect => true
  | _ => false
  end.

Definition tagOf (el : nat) (pg : Page) : option Tag :=
  tag <$> elements pg !! el.

(** The number of writes made to one element. *)
Definition writesTo (el : nat) (pg : Page) : nat :=
  List.length (filter (fun m => target m = el) (mutations pg)).

(** The tree-query capability: [root.querySelectorAll(selector)] on the
    current document, in document order; [None] when the selector is
    not valid and the call throws. *)
Definition Query := list Element -> nat -> string -> option (list nat).

End Dom.

(* ===================================================================== *)
(** ** The runtime store: page, subjects, subscriptions, listeners *)
(* ===================================================================== *)

Module Engine.
Import Dom.

(** The [context] argument of a [BindingError]. *)
Inductive Context :=
| NoContext
| RootContext (root : Node) (selector : string)
| ErrorContext (selector : string).

Inductive Exn :=
| BindingError (message : string) (context : Context)
| SyntaxError (selector : string)
| InvalidCharacterError (name : string)
| TypeError (message : string).

Inductive Outcome (A : Type) := Ok (a : A) | Throw (e : Exn).
Arguments Ok {A} a.
Arguments Throw {A} e.

(** An apply function [(el, value) => void] acting on the page; it may
    throw. *)
Definition Handler := nat -> Js.Value -> Page -> Page * Outcome unit.

(** The streams a caller hands to the engine: a subject it feeds later
    (a [BehaviorSubject] when the store holds a current value for it),
    or [of(v1, ..., vn)]. *)
Inductive Stream := Subj (id : nat) | Of (vs : list Js.Value).

(** What a per-element subscriber assigns. *)
Inductive Assignment :=
| TextContent | ValueProp | InnerHTML | ClassNamePlain | ClassName | Disabled.

(** The observers the engine attaches to sink streams. *)
Inductive Observer :=
| DistinctTap (selector : string) (els : list nat) (h : Handler)
| Assign (el : nat) (a : Assignment).

Inductive Wiring :=
| Sink (subject : nat) (o : Observer) (last : option Js.Value)
| Source (stream : nat) (handler : nat).

(** A live subscription, and the composite [Subscription] it was added
    to. *)
Record Sub := MkSub {
  sub_id : nat;
  sub_owner : nat;
  sub_wiring : Wiring
}.

(** A native listener: [el.addEventListener(type, ...)] feeding a shared
    event stream. *)
Record Listener := MkListener {
  l_element : nat;
  l_type : string;
  l_stream : nat
}.

(** An event observable: [new Observable()] that never emits, or
    [merge(...els.map(el => fromEvent(el, type))).pipe(share())]. *)
Inductive EventObs :=
| Never
| SharedEvents (id : nat) (type : string) (els : list nat).

Inductive LogEntry :=
| Warn (msg : string)
| Error (msg : string) (e : Exn)
| Unhandled (e : Exn).

(** An invocation of a caller's event callback. *)
Record Call := MkCall { c_handler : nat; c_target : nat }.

Record World := MkWorld {
  page : Page;
  current : gmap nat Js.Value;
  subs : list Sub;
  listeners : list Listener;
  eventCache : gmap nat (gmap string EventObs);
  console : list LogEntry;
  calls : list Call;
  closed : gset nat;
  fresh : nat
}.

Definition with_page (f : Page -> Page) (w : World) : World :=
  MkWorld (f (page w)) (current w) (subs w) (listeners w) (eventCache w)
          (console w) (calls w) (closed w) (fresh w).
Definition with_current (f : gmap nat Js.Value -> gmap nat Js.Value)
    (w : World) : World :=
  MkWorld (page w) (f (current w)) (subs w) (listeners w) (eventCache w)
          (console w) (calls w) (closed w) (fresh w).
Definition with_subs (f : list Sub -> list Sub) (w : World) : World :=
  MkWorld (page w) (current w) (f (subs w)) (listeners w) (eventCache w)
          (console w) (calls w) (closed w) (fresh w).
Definition with_listeners (f : list Listener -> list Listener)
    (w : World) : World :=
  MkWorld (page w) (current w) (subs w) (f (listeners w)) (eventCache w)
          (console w) (calls w) (closed w) (fresh w).
Definition with_eventCache
    (f : gmap nat (gmap string EventObs) -> gmap nat (gmap string EventObs))
    (w : World) : World :=
  MkWorld (page w) (current w) (subs w) (listeners w) (f (eventCache w))
          (console w) (calls w) (closed w) (fresh w).
Definition log (e : LogEntry) (w : World) : World :=
  MkWorld (page w) (current w) (subs w) (listeners w) (eventCache w)
          (console w ++ [e]) (calls w) (closed w) (fresh w).
Definition record_call (c : Call) (w : World) : World :=
  MkWorld (page w) (current w) (subs w) (listeners w) (eventCache w)
          (console w) (calls w ++ [c]) (closed w) (fresh w).
Definition close (s : nat) (w : World) : World :=
  MkWorld (page w) (current w) (subs w) (listeners w) (eventCache w)
          (console w) (calls w) ({[s]} ∪ closed w) (fresh w).
Definition bump (w : World) : World :=
  MkWorld (page w) (current w) (subs w) (listeners w) (eventCache w)
          (console w) (calls w) (closed w) (S (fresh w)).

(** *** Computations that read and write the store and may throw *)

Definition M (A : Type) : Type := World -> World * Outcome A.

Definition ret {A} (a : A) : M A := fun w => (w, Ok a).
Definition throw {A} (e : Exn) : M A := fun w => (w, Throw e).
Definition bindM {A B} (m : M A) (k : A -> M B) : M B :=
  fun w => match m w with
           | (w', Ok a) => k a w'
           | (w', Throw e) => (w', Throw e)
           end.

#[global] Instance M_ret : MRet M := @ret.
#[global] Instance M_bind : MBind M := fun A B k m => bindM m k.

Definition gets {A} (f : World -> A) : M A := fun w => (w, Ok (f w)).
Definition modify (f : World -> World) : M unit := fun w => (f w, Ok tt).

(** [xs.forEach(f)] and [for (const x of xs) f(x)]: a throw ends the loop. *)
Fixpoint for_each {A} (xs : list A) (f : A -> M unit) : M unit :=
  match xs with
  | [] => ret tt
  | x :: xs' => bindM (f x) (fun _ => for_each xs' f)
  end.

(** [try { m } catch (error) { h(error) }] *)
Definition try_catch (m : M unit) (h : Exn -> M unit) : M unit :=
  fun w => match m w with
           | (w', Ok a) => (w', Ok a)
           | (w', Throw e) => h e w'
           end.

(** Run an apply function against the page of the store. *)
Definition on_page (h : Page -> Page * Outcome unit) : M unit :=
  fun w => let '(pg, r) := h (page w) in (with_page (fun _ => pg) w, r).

Definition console_warn (msg : string) : M unit := modify (log (Warn msg)).
Definition console_error (msg : string) (e : Exn) : M unit :=
  modify (log (Error msg e)).

Definition fresh_id : M nat := fun w => (bump w, Ok (fresh w)).

(** [new Subscription()] *)
Definition newSubscription : M nat := fresh_id.

(** *** Sink observers *)

(** [Array.isArray(cls) ? cls.join(' ') : (cls ?? '')] *)
Definition class_of (v : Js.Value) : string :=
  match v with
  | Js.VArr _ items => Js.join " " items
  | _ => Js.text_of v
  end.

Definition assign (a : Assignment) (el : nat) (v : Js.Value)
  : Page -> Page :=
  match a with
  | TextContent => set_textContent el (Js.text_of v)
  | ValueProp => set_value el (Js.text_of v)
  | InnerHTML => set_innerHTML el (Js.text_of v)
  | ClassNamePlain => set_className el (Js.text_of v)
  | ClassName => set_className el (class_of v)
  | Disabled => set_disabled el (Js.truthy v)
  end.

(** The callback [bindObservable] passes to [tap]. *)
Definition tap_callback (selector : string) (els : list nat) (h : Handler)
    (v : Js.Value) : M unit :=
  for_each els (fun el =>
    try_catch (on_page (h el v))
      (fun error =>
         console_error ("Error in binding handler for " +:+ selector +:+ ":")
                       error)).

(** Every element handed to the apply function in turn, whatever the
    outcome for the ones before it; the errors thrown, in order. *)
Fixpoint apply_all (h : Handler) (v : Js.Value) (els : list nat)
    (pg : Page) : Page * list Exn :=
  match els with
  | [] => (pg, [])
  | el :: rest =>
      let '(pg1, outcome) := h el v pg in
      let '(pg2, errors) := apply_all h v rest pg1 in
      (pg2, match outcome with
            | Throw e => e :: errors
            | Ok _ => errors
            end)
  end.

(** Does [distinctUntilChanged()] let [v] through? *)
Definition passes (last : option Js.Value) (v : Js.Value) : bool :=
  match last with
  | None => true
  | Some l => negb (Js.strict_eq l v)
  end.

(** One notification reaching an observer; the result is the new state
    of the distinct filter. *)
Definition sink_next (o : Observer) (last : option Js.Value)
    (v : Js.Value) : M (option Js.Value) :=
  match o with
  | DistinctTap selector els h =>
      if passes last v
      then bindM (tap_callback selector els h v) (fun _ => ret (Some v))
      else ret last
  | Assign el a =>
      bindM (modify (with_page (assign a el v))) (fun _ => ret last)
  end.

(** Notifications in order, until the observer throws. *)
Fixpoint sink_next_all (o : Observer) (last : option Js.Value)
    (vs : list Js.Value) : M (option Js.Value) :=
  match vs with
  | [] => ret last
  | v :: vs' =>
      bindM (sink_next o last v) (fun last' => sink_next_all o last' vs')
  end.

(** [stream.subscribe(observer)] followed by [owner.add(...)]. A subject
    with a current value replays it and the subscription stays; [of]
    emits its values and completes. An error raised by the observer
    ends the subscription and is reported, not thrown to the caller. *)
Definition subscribe_sink (owner : nat) (s : Stream) (o : Observer)
  : M unit :=
  fun w =>
    let '(w0, _) := fresh_id w in
    let id := fresh w in
    match s with
    | Subj subject =>
        let replay := match current w0 !! subject with
                      | Some v => [v]
                      | None => []
                      end in
        match sink_next_all o None replay w0 with
        | (w1, Ok last) =>
            (if bool_decide (owner ∈ closed w1) then w1
             else with_subs (fun l =>
                    l ++ [MkSub id owner (Sink subject o last)]) w1,
             Ok tt)
        | (w1, Throw e) => (log (Unhandled e) w1, Ok tt)
        end
    | Of vs =>
        match sink_next_all o None vs w0 with
        | (w1, Ok _) => (w1, Ok tt)
        | (w1, Throw e) => (log (Unhandled e) w1, Ok tt)
        end
    end.

(** Deliver [v] to the sink subscriptions of [subject] among [pending]
    (the observers at the time of the call), in order. *)
Fixpoint dispatch (subject : nat) (v : Js.Value) (pending : list Sub)
    (w : World) : list Sub * World :=
  match pending with
  | [] => ([], w)
  | s :: rest =>
      match sub_wiring s with
      | Sink subject' o last =>
          if bool_decide (subject' = subject) then
            match sink_next o last v w with
            | (w1, Ok last') =>
                let '(rest', w2) := dispatch subject v rest w1 in
                (MkSub (sub_id s) (sub_owner s) (Sink subject' o last')
                   :: rest', w2)
            | (w1, Throw e) =>
                dispatch subject v rest (log (Unhandled e) w1)
            end
          else
            let '(rest', w2) := dispatch subject v rest w in
            (s :: rest', w2)
      | Source _ _ =>
          let '(rest', w2) := dispatch subject v rest w in
          (s :: rest', w2)
      end
  end.

(** [subject.next(v)] *)
Definition next (subject : nat) (v : Js.Value) (w : World) : World :=
  let w0 := match current w !! subject with
            | Some _ => with_current (<[subject := v]>) w
            | None => w
            end in
  let '(subs', w1) := dispatch subject v (subs w0) w0 in
  with_subs (fun _ => subs') w1.

(** *** Event sources *)

Definition subscribed_to (stream : nat) (s : Sub) : bool :=
  match sub_wiring s with
  | Source stream' _ => bool_decide (stream' = stream)
  | Sink _ _ _ => false
  end.

(** [stream.subscribe(handler)] on an event observable, then
    [owner.add(...)]. The first subscriber of a shared stream connects
    it: every merged [fromEvent] registers its native listener. *)
Definition subscribe_source (owner : nat) (es : EventObs) (handler : nat)
  : M unit :=
  fun w =>
    let '(w0, _) := fresh_id w in
    let id := fresh w in
    match es with
    | Never => (w0, Ok tt)
    | SharedEvents stream type els =>
        let w1 :=
          if existsb (subscribed_to stream) (subs w0) then w0
          else with_listeners (fun l =>
                 l ++ ((fun el => MkListener el type stream) <$> els)) w0 in
        (with_subs (fun l => l ++ [MkSub id owner (Source stream handler)])
                   w1, Ok tt)
    end.

(** A native event of [type] on [el], at [el] itself: each listener
    registered there passes the event to the subscribers of its stream.
    For a click that bubbles on to the ancestors see [Events.click]. *)
Definition fire (type : string) (el : nat) (w : World) : World :=
  foldl (fun w l =>
           if bool_decide (l_element l = el) && String.eqb (l_type l) type
           then foldl (fun w s =>
                         match sub_wiring s with
                         | Source stream handler =>
                             if bool_decide (stream = l_stream l)
                             then record_call (MkCall handler el) w
                             else w
                         | Sink _ _ _ => w
                         end) w (subs w)
           else w) w (listeners w).

(** *** Teardown *)

(** [subscription.unsubscribe()] of a composite: once; its children
    leave the store, and a shared event stream left without subscribers
    removes its native listeners. *)
Definition unsubscribe (s : nat) (w : World) : World :=
  if bool_decide (s ∈ closed w) then w
  else
    let remaining := filter (fun x => sub_owner x ≠ s) (subs w) in
    close s
      (with_listeners
         (List.filter (fun l => existsb (subscribed_to (l_stream l)) remaining))
         (with_subs (fun _ => remaining) w)).

(** The native listeners registered on [el] for [type]. *)
Definition listenersOn (el : nat) (type : string) (w : World) : nat :=
  List.length (List.filter
    (fun l => bool_decide (l_element l = el) && String.eqb (l_type l) type)
    (listeners w)).

(** The entry [console.error] leaves for an apply function that threw. *)
Definition error_entry (selector : string) (e : Exn) : LogEntry :=
  Error ("Error in binding handler for " +:+ selector +:+ ":") e.

(** A subscription without the memory of its distinct filter. *)
Definition identity_of (s : Sub) : nat * nat * Wiring :=
  (sub_id s, sub_owner s,
   match sub_wiring s with
   | Sink subject o _ => Sink subject o None
   | Source stream handler => Source stream handler
   end).

(** Emissions, one after the other. *)
Definition emit_all (emissions : list (nat * Js.Value)) (w : World)
  : World :=
  foldl (fun w e => next e.1 e.2 w) w emissions.

(** [w'] is [w] with more subscriptions, all added to the composite
    [sub]; no composite was closed, no subject changed its value and the
    cache of event streams is as it was. *)
Definition extends (sub : nat) (w w' : World) : Prop :=
  (exists added, subs w' = subs w ++ added /\
                 Forall (fun s => sub_owner s = sub) added) /\
  closed w' = closed w /\ current w' = current w /\
  eventCache w' = eventCache w.

(** A computation that only ever extends the store. *)
Definition Grows (sub : nat) {A} (m : M A) : Prop :=
  forall w, extends sub w (m w).1.

(** A computation that completes and leaves the page and the subjects as
    they are. *)
Definition Quiet {A} (m : M A) : Prop :=
  forall w, exists a w', m w = (w', Ok a) /\
    page w' = page w /\ current w' = current w.

End Engine.

(* ===================================================================== *)
(** ** bind.ts — the binding engine ([bind], [bindTemplate]) *)
(* ===================================================================== *)

Module Bind.
Import Engine.

(** A value of a custom [data-*] table: an Observable or anything else. *)
Inductive Slot := IsObservable (s : Stream) | NotObservable.

(** [BindingObject]. A table lists its entries as [Object.entries]
    does; an absent table is the empty one. [others] are the remaining
    own keys of the object with their tables. *)
Record BindingObject := MkBindings {
  text : list (string * Stream);
  value : list (string * Stream);
  html : list (string * Stream);
  className : list (string * Stream);
  disabled : list (string * Stream);
  events : list (string * nat);
  others : list (string * list (string * Slot))
}.

(** [BindingResult]; [dispose] is a function of the result. *)
Record BindingResult := MkResult {
  subscription : nat;
  eventStreams : list (string * EventObs)
}.

Definition quote : string := String (ascii_of_nat 34) EmptyString.

(** [`[data-${family}="${name}"]`] *)
Definition dataSelector (family name : string) : string :=
  "[data-" +:+ family +:+ "=" +:+ quote +:+ name +:+ quote +:+ "]".

(** [events$[name]] on an object whose keys keep their insertion order:
    the own entries. The members the object inherits, which the lookup
    of the code finds as well, are the names of [Events.inherited]. *)
Fixpoint lookupKey {A} (k : string) (l : list (string * A)) : option A :=
  match l with
  | [] => None
  | (k', a) :: l' => if String.eqb k' k then Some a else lookupKey k l'
  end.

(** [events$[name] = x] *)
Fixpoint assignKey {A} (k : string) (a : A) (l : list (string * A))
  : list (string * A) :=
  match l with
  | [] => [(k, a)]
  | (k', a') :: l' =>
      if String.eqb k' k then (k', a) :: l' else (k', a') :: assignKey k a l'
  end.

(** [defaultHandlers] *)
Definition defaultHandlers_text : Handler :=
  fun el v pg => (Dom.set_textContent el (Js.text_of v) pg, Ok tt).

Definition defaultHandlers_value : Handler :=
  fun el v pg =>
    match Dom.tagOf el pg with
    | Some t =>
        if Dom.hasValueProperty t
        then (Dom.set_value el (Js.text_of v) pg, Ok tt)
        else (pg, Ok tt)
    | None => (pg, Ok tt)
    end.

Definition defaultHandlers_html : Handler :=
  fun el v pg => (Dom.set_innerHTML el (Js.to_string v) pg, Ok tt).

Definition defaultHandlers_className : Handler :=
  fun el v pg =>
    match v with
    | Js.VArr _ items => (Dom.set_className el (Js.join " " items) pg, Ok tt)
    | _ => (Dom.set_className el
              (if Js.truthy v then Js.to_string v else "") pg, Ok tt)
    end.

Definition defaultHandlers_disabled : Handler :=
  fun el v pg =>
    if Js.truthy v
    then match Dom.setAttribute el "disabled" "" pg with
         | Some pg' => (pg', Ok tt)
         | None => (pg, Throw (InvalidCharacterError "disabled"))
         end
    else (Dom.removeAttribute el "disabled" pg, Ok tt).

(** The handler of the value section of [bind]. *)
Definition valueHandler : Handler :=
  fun el v pg =>
    match Dom.tagOf el pg with
    | Some t =>
        if Dom.isFormControl t
        then (Dom.set_value el (Js.text_of v) pg, Ok tt)
        else (pg, Ok tt)
    | None => (pg, Ok tt)
    end.

(** The handler of the custom attribute section of [bind]:
    [el.setAttribute(key, String(val))]. *)
Definition attributeHandler (key : string) : Handler :=
  fun el v pg =>
    match Dom.setAttribute el key (Js.to_string v) pg with
    | Some pg' => (pg', Ok tt)
    | None => (pg, Throw (InvalidCharacterError key))
    end.

(** The [data-on] scan of [bind]: the elements of each name, names in
    the order they first occur. *)
Definition collectSources (pg : Dom.Page) (onEls : list nat)
  : list (string * list nat) :=
  foldl (fun events el =>
           match Dom.getAttribute el "data-on" pg with
           | Some name =>
               if Js.nonempty name then
                 match lookupKey name events with
                 | None => assignKey name [el] events
                 | Some merged => assignKey name (merged ++ [el]) events
                 end
               else events
           | None => events
           end) [] onEls.

(** [events$[name] = stream.pipe(share())] for every entry. *)
Fixpoint shareAll (raw : list (string * list nat))
  : M (list (string * EventObs)) :=
  match raw with
  | [] => ret []
  | (name, els) :: raw' =>
      id ← fresh_id;
      rest ← shareAll raw';
      ret ((name, SharedEvents id "click" els) :: rest)
  end.

Inductive Kind := KText | KValue | KHtml | KClassName | KDisabled | KCustom.

#[global] Instance Kind_eq_dec : EqDecision Kind.
Proof. solve_decision. Defined.

(** The selector a key of a table of kind [k] is looked up with. *)
Definition resolved (k : Kind) (key : string) : string :=
  match k with
  | KText | KValue | KCustom => key
  | KHtml => dataSelector "html" key
  | KClassName => dataSelector "class" key
  | KDisabled => dataSelector "disabled" key
  end.

(** A declaration with one more entry, first in its table; a custom
    entry comes in a table of its own under the key [data-attr]. *)
Definition withEntry (k : Kind) (attr key : string) (stream : Stream)
    (b : BindingObject) : BindingObject :=
  match k with
  | KText =>
      MkBindings ((key, stream) :: text b) (value b) (html b) (className b)
                 (disabled b) (events b) (others b)
  | KValue =>
      MkBindings (text b) ((key, stream) :: value b) (html b) (className b)
                 (disabled b) (events b) (others b)
  | KHtml =>
      MkBindings (text b) (value b) ((key, stream) :: html b) (className b)
                 (disabled b) (events b) (others b)
  | KClassName =>
      MkBindings (text b) (value b) (html b) ((key, stream) :: className b)
                 (disabled b) (events b) (others b)
  | KDisabled =>
      MkBindings (text b) (value b) (html b) (className b)
                 ((key, stream) :: disabled b) (events b) (others b)
  | KCustom =>
      MkBindings (text b) (value b) (html b) (className b) (disabled b)
                 (events b)
                 (("data-" +:+ attr, [(key, IsObservable stream)])
                    :: others b)
  end.

Section WithQuery.
Variable querySelectorAll : Dom.Query.

Definition qAll (root : Dom.Node) (selector : string) : M (list nat) :=
  if negb (Dom.isHTMLElement root) then
    throw (BindingError "Invalid root element" (RootContext root selector))
  else
    match root with
    | Dom.NElement r =>
        fun w =>
          match querySelectorAll (Dom.elements (page w)) r selector with
          | Some elements =>
              (if bool_decide (List.length elements = 0)
               then log (Warn ("No elements found for selector: "
                               +:+ selector)) w
               else w,
               Ok elements)
          | None =>
              (w, Throw (BindingError ("Invalid selector: " +:+ selector)
                                      (ErrorContext selector)))
          end
    | _ => throw (BindingError "Invalid root element"
                               (RootContext root selector))
    end.

Section Binding.
(** The locals of one [bind] call. *)
Variable root : Dom.Node.
Variable sub : nat.

Definition bindObservable (selector : string) (stream : Stream)
    (handler : Handler) : M unit :=
  elements ← qAll root selector;
  if bool_decide (List.length elements = 0) then ret tt
  else subscribe_sink sub stream (DistinctTap selector elements handler).

(** The loops of the html, className and disabled sections: one
    subscription per element found under [[data-family="name"]]. *)
Definition bindEach (family : string) (a : Assignment)
    (table : list (string * Stream)) : M unit :=
  for_each table (fun entry =>
    els ← qAll root (dataSelector family entry.1);
    if bool_decide (List.length els = 0) then ret tt
    else for_each els (fun el =>
           subscribe_sink sub entry.2 (Assign el a))).

Definition bindText (bindings : BindingObject) : M unit :=
  for_each (text bindings) (fun entry =>
    bindObservable entry.1 entry.2
      (fun el v => defaultHandlers_text el v)).

Definition bindValue (bindings : BindingObject) : M unit :=
  for_each (value bindings) (fun entry =>
    bindObservable entry.1 entry.2 valueHandler).

Definition bindHtml (bindings : BindingObject) : M unit :=
  bindEach "html" InnerHTML (html bindings).

Definition bindClassName (bindings : BindingObject) : M unit :=
  bindEach "class" ClassName (className bindings).

Definition bindDisabled (bindings : BindingObject) : M unit :=
  bindEach "disabled" Disabled (disabled bindings).

Definition bindCustom (bindings : BindingObject) : M unit :=
  for_each (others bindings) (fun other =>
    if Js.startsWith "data-" other.1 then
      for_each other.2 (fun entry =>
        match entry.2 with
        | IsObservable stream =>
            bindObservable entry.1 stream (attributeHandler other.1)
        | NotObservable => ret tt
        end)
    else ret tt).

(** The event section: [events$] built from [[data-on]], then the
    callbacks of [bindings.events]. *)
Definition bindEvents (bindings : BindingObject)
  : M (list (string * EventObs)) :=
  onEls ← qAll root "[data-on]";
  pg ← gets page;
  events_ ← shareAll (collectSources pg onEls);
  _ ← for_each (events bindings) (fun entry =>
        match lookupKey entry.1 events_ with
        | Some stream => subscribe_source sub stream entry.2
        | None => ret tt
        end);
  ret events_.

Definition sinkSection (bindings : BindingObject) (k : Kind) : M unit :=
  match k with
  | KText => bindText bindings
  | KValue => bindValue bindings
  | KHtml => bindHtml bindings
  | KClassName => bindClassName bindings
  | KDisabled => bindDisabled bindings
  | KCustom => bindCustom bindings
  end.

(** Helper to create or get a cached event stream. The cache is a
    [WeakMap] keyed by the root element. *)
Definition getOrCreateEventStream (eventName selector : string)
  : M EventObs :=
  match root with
  | Dom.NElement r =>
      let cacheKey := eventName +:+ ":" +:+ selector in
      elementMap ← (fun w =>
        match eventCache w !! r with
        | Some m => (w, Ok m)
        | None => (with_eventCache (<[r := ∅]>) w, Ok ∅)
        end);
      match elementMap !! cacheKey with
      | Some cached => ret cached
      | None =>
          elements ← qAll root selector;
          if bool_decide (List.length elements = 0) then ret Never
          else
            id ← fresh_id;
            let eventStream := SharedEvents id eventName elements in
            _ ← modify (with_eventCache (fun c =>
                   <[r := <[cacheKey := eventStream]>
                            (default ∅ (c !! r))]> c));
            ret eventStream
      end
  | _ => throw (TypeError "Invalid value used as weak map key")
  end.
End Binding.

Definition bind (root : Dom.Node) (bindings : BindingObject)
  : M BindingResult :=
  if Dom.isNull root || negb (Dom.isHTMLElement root) then
    throw (BindingError "Root element must be a valid HTMLElement" NoContext)
  else
    sub ← newSubscription;
    _ ← bindText root sub bindings;
    _ ← bindValue root sub bindings;
    _ ← bindHtml root sub bindings;
    _ ← bindClassName root sub bindings;
    _ ← bindDisabled root sub bindings;
    events_ ← bindEvents root sub bindings;
    _ ← bindCustom root sub bindings;
    ret (MkResult sub events_).

(** [bind] with its sink sections taken in another order: [before]
    the event section and [after] it. *)
Definition bindIn (before after : list Kind) (root : Dom.Node)
    (bindings : BindingObject) : M BindingResult :=
  if Dom.isNull root || negb (Dom.isHTMLElement root) then
    throw (BindingError "Root element must be a valid HTMLElement" NoContext)
  else
    sub ← newSubscription;
    _ ← for_each before (sinkSection root sub bindings);
    events_ ← bindEvents root sub bindings;
    _ ← for_each after (sinkSection root sub bindings);
    ret (MkResult sub events_).

(** [bindTemplate]: a wrapper around [bind]. *)
Definition bindTemplate (root : Dom.Node) (bindings : BindingObject)
  : M BindingResult :=
  bind root bindings.
End WithQuery.

(** [result.dispose()]; [cleanupFns] is the array [bind] creates and
    never fills. *)
Definition dispose (result : BindingResult) (w : World) : World :=
  let cleanupFns : list (World -> World) := [] in
  let w1 := unsubscribe (subscription result) w in
  foldl (fun w fn => fn w) w1 cleanupFns.

End Bind.

(* ===================================================================== *)
(** ** The writes a sink section makes while it is set up *)
(* ===================================================================== *)

Module Plan.
Import Engine.

(** The part of an element a write replaces. *)
Inductive Field := FContent | FValue | FClassName | FDisabled | FAttributes.

#[global] Instance Field_eq_dec : EqDecision Field.
Proof. solve_decision. Defined.

(** A write to one element, as data. [SValue true] is the guarded
    assignment of the value section: form controls only. *)
Inductive Setter :=
| SContent (c : Dom.Content)
| SValue (guarded : bool) (s : string)
| SClassName (s : string)
| SDisabled (b : bool)
| SAttribute (n v : string).

Definition apply_setter (s : Setter) (e : Dom.Element) : Dom.Element :=
  match s with
  | SContent c => Dom.with_content c e
  | SValue guarded v =>
      if guarded && negb (Dom.isFormControl (Dom.tag e)) then e
      else Dom.with_value v e
  | SClassName c => Dom.with_className c e
  | SDisabled d => Dom.with_disabled d e
  | SAttribute n v => Dom.with_attribute n v e
  end.

Definition field_of (s : Setter) : Field :=
  match s with
  | SContent _ => FContent
  | SValue _ _ => FValue
  | SClassName _ => FClassName
  | SDisabled _ => FDisabled
  | SAttribute _ _ => FAttributes
  end.

(** Writes in order, on the elements of a document. *)
Definition perform (ws : list (nat * Setter)) (els : list Dom.Element)
  : list Dom.Element :=
  foldl (fun els w => alter (apply_setter w.2) w.1 els) els ws.

(** What the apply functions of [bind] write for a value; [None] when
    the call throws before writing. *)
Definition textSetter (v : Js.Value) : option Setter :=
  Some (SContent (Dom.Text (Js.text_of v))).

Definition valueSetter (v : Js.Value) : option Setter :=
  Some (SValue true (Js.text_of v)).

Definition attributeSetter (key : string) (v : Js.Value) : option Setter :=
  if Dom.validAttributeName key then
    Some (if bool_decide (key = "class") then SClassName (Js.to_string v)
          else if bool_decide (key = "disabled") then SDisabled true
               else SAttribute key (Js.to_string v))
  else None.

Definition assignSetter (a : Assignment) (v : Js.Value) : Setter :=
  match a with
  | TextContent => SContent (Dom.Text (Js.text_of v))
  | ValueProp => SValue false (Js.text_of v)
  | InnerHTML => SContent (Dom.Markup (Js.text_of v))
  | ClassNamePlain => SClassName (Js.text_of v)
  | ClassName => SClassName (class_of v)
  | Disabled => SDisabled (Js.truthy v)
  end.

(** The values a stream delivers while it is being subscribed to. *)
Definition initial (cur : gmap nat Js.Value) (s : Stream) : list Js.Value :=
  match s with
  | Subj subject => match cur !! subject with
                    | Some v => [v]
                    | None => []
                    end
  | Of vs => vs
  end.

(** One value through a [tap] over [els]. *)
Definition writes_for (setter : Js.Value -> option Setter) (els : list nat)
    (v : Js.Value) : list (nat * Setter) :=
  match setter v with
  | Some s => (fun el => (el, s)) <$> els
  | None => []
  end.

(** The writes of a subscription made by [bindObservable]. *)
Fixpoint tap_plan (setter : Js.Value -> option Setter) (els : list nat)
    (last : option Js.Value) (vs : list Js.Value) : list (nat * Setter) :=
  match vs with
  | [] => []
  | v :: vs' =>
      if passes last v
      then writes_for setter els v ++ tap_plan setter els (Some v) vs'
      else tap_plan setter els last vs'
  end.

(** The writes of the per-element subscriptions of one entry. *)
Definition each_plan (a : Assignment) (els : list nat) (vs : list Js.Value)
  : list (nat * Setter) :=
  el ← els; (fun v => (el, assignSetter a v)) <$> vs.

(** The writes of a piece of [bind] as far as its selectors are
    accepted, and whether all of them are: a rejected selector makes
    [qAll] throw, and nothing after it runs. *)
Record Steps := MkSteps {
  writes : list (nat * Setter);
  completes : bool
}.

Definition finished : Steps := MkSteps [] true.

Definition rejected : Steps := MkSteps [] false.

(** One piece after the other. *)
Definition and_then (p q : Steps) : Steps :=
  if completes p then MkSteps (writes p ++ writes q) (completes q) else p.

(** The writes [entry] makes on the elements a selector finds. *)
Definition on_targets (found : option (list nat))
    (entry : list nat -> list (nat * Setter)) : Steps :=
  match found with
  | Some els => MkSteps (entry els) true
  | None => rejected
  end.

Section Sections.
(** The element set of every selector, and the subjects' values. *)
Variable targets : string -> option (list nat).
Variable cur : gmap nat Js.Value.

(** The writes of a table. *)
Fixpoint table_plan (entry : list nat -> Stream -> list (nat * Setter))
    (resolve : string -> string) (table : list (string * Stream)) : Steps :=
  match table with
  | [] => finished
  | item :: rest =>
      and_then
        (on_targets (targets (resolve item.1)) (fun els => entry els item.2))
        (table_plan entry resolve rest)
  end.

Fixpoint slots_plan (key : string) (table : list (string * Bind.Slot))
  : Steps :=
  match table with
  | [] => finished
  | item :: rest =>
      match item.2 with
      | Bind.IsObservable stream =>
          and_then
            (on_targets (targets item.1) (fun els =>
               tap_plan (attributeSetter key) els None (initial cur stream)))
            (slots_plan key rest)
      | Bind.NotObservable => slots_plan key rest
      end
  end.

Fixpoint others_plan (others : list (string * list (string * Bind.Slot)))
  : Steps :=
  match others with
  | [] => finished
  | other :: rest =>
      if Js.startsWith "data-" other.1 then
        and_then (slots_plan other.1 other.2) (others_plan rest)
      else others_plan rest
  end.

Definition section_plan (b : Bind.BindingObject) (k : Bind.Kind) : Steps :=
  match k with
  | Bind.KText =>
      table_plan (fun els s => tap_plan textSetter els None (initial cur s))
        (Bind.resolved Bind.KText) (Bind.text b)
  | Bind.KValue =>
      table_plan (fun els s => tap_plan valueSetter els None (initial cur s))
        (Bind.resolved Bind.KValue) (Bind.value b)
  | Bind.KHtml =>
      table_plan (fun els s => each_plan InnerHTML els (initial cur s))
        (Bind.resolved Bind.KHtml) (Bind.html b)
  | Bind.KClassName =>
      table_plan (fun els s => each_plan ClassName els (initial cur s))
        (Bind.resolved Bind.KClassName) (Bind.className b)
  | Bind.KDisabled =>
      table_plan (fun els s => each_plan Disabled els (initial cur s))
        (Bind.resolved Bind.KDisabled) (Bind.disabled b)
  | Bind.KCustom => others_plan (Bind.others b)
  end.

(** The writes of several sections, one after the other. *)
Fixpoint sections_plan (b : Bind.BindingObject) (ks : list Bind.Kind)
  : Steps :=
  match ks with
  | [] => finished
  | k :: ks' => and_then (section_plan b k) (sections_plan b ks')
  end.
End Sections.

(** The selectors a sink section looks up. *)
Definition section_selectors (b : Bind.BindingObject) (k : Bind.Kind)
  : list string :=
  match k with
  | Bind.KText => Bind.resolved Bind.KText <$> (Bind.text b).*1
  | Bind.KValue => Bind.resolved Bind.KValue <$> (Bind.value b).*1
  | Bind.KHtml => Bind.resolved Bind.KHtml <$> (Bind.html b).*1
  | Bind.KClassName => Bind.resolved Bind.KClassName <$> (Bind.className b).*1
  | Bind.KDisabled => Bind.resolved Bind.KDisabled <$> (Bind.disabled b).*1
  | Bind.KCustom =>
      other ← Bind.others b;
      if Js.startsWith "data-" other.1 then
        omap (fun entry : string * Bind.Slot =>
                match entry.2 with
                | Bind.IsObservable _ => Some entry.1
                | Bind.NotObservable => None
                end) other.2
      else []
  end.

(** Every selector a [bind] call looks up: those of the keys of its sink
    tables and the one of the [data-on] scan. *)
Definition selectors (b : Bind.BindingObject) : list string :=
  "[data-on]"
    :: (k ← [Bind.KText; Bind.KValue; Bind.KHtml; Bind.KClassName;
             Bind.KDisabled; Bind.KCustom];
        section_selectors b k).

(** No element is the target of both a text entry and an html entry. *)
Definition content_disjoint (targets : string -> option (list nat))
    (b : Bind.BindingObject) : Prop :=
  forall tkey hkey tels hels el,
    tkey ∈ (Bind.text b).*1 -> hkey ∈ (Bind.html b).*1 ->
    targets tkey = Some tels ->
    targets (Bind.dataSelector "html" hkey) = Some hels ->
    el ∈ tels -> el ∉ hels.

(** No [select] element is the target of a value entry. What a
    [select] shows after [el.value = s] depends on its options, which
    text and html sinks replace and which the page does not hold. *)
Definition no_select_value (els : list Dom.Element)
    (targets : string -> option (list nat)) (b : Bind.BindingObject) : Prop :=
  forall key found el e,
    key ∈ (Bind.value b).*1 -> targets key = Some found -> el ∈ found ->
    els !! el = Some e -> Dom.tag e <> Dom.TSelect.

(** The field the writes of a kind go to. *)
Definition kind_field (k : Bind.Kind) : Field :=
  match k with
  | Bind.KText | Bind.KHtml => FContent
  | Bind.KValue => FValue
  | Bind.KClassName => FClassName
  | Bind.KDisabled => FDisabled
  | Bind.KCustom => FAttributes
  end.

(** Two writes that cannot interfere: different elements or different
    fields. *)
Definition independent (w1 w2 : nat * Setter) : Prop :=
  w1.1 <> w2.1 \/ field_of w1.2 <> field_of w2.2.

(** An apply function whose effect on the elements is the write
    [setter] names. *)
Definition HandlerWrites (h : Handler) (setter : Js.Value -> option Setter)
  : Prop :=
  forall el v pg,
    Dom.elements (h el v pg).1
    = perform (writes_for setter [el] v) (Dom.elements pg).

(** Every selector of [used] finds in the document [els] the elements
    [targets] gives for it. *)
Definition agrees (querySelectorAll : Dom.Query) (r : nat)
    (targets : string -> option (list nat)) (used : list string)
    (els : list Dom.Element) : Prop :=
  forall selector, selector ∈ used ->
    querySelectorAll els r selector = targets selector.

(** [m] makes exactly the writes of the plan, and completes or throws as
    the plan says, provided the document is [good] before each of the
    writes and after the last. *)
Definition Runs (good : list Dom.Element -> Prop) (cur : gmap nat Js.Value)
    (m : M unit) (plan : Steps) : Prop :=
  forall w, current w = cur ->
    (forall ws1 ws2, writes plan = ws1 ++ ws2 ->
       good (perform ws1 (Dom.elements (page w)))) ->
    exists w' out, m w = (w', out) /\
      Dom.elements (page w') = perform (writes plan) (Dom.elements (page w)) /\
      current w' = cur /\
      if completes plan then out = Ok tt else exists e, out = Throw e.

End Plan.

(* ===================================================================== *)
(** ** bind.ts — the convention-based [bindTemplate] *)
(* ===================================================================== *)

Module Template.
Import Engine.

Record BindingObject := MkBindings {
  text : list (string * Stream);
  value : list (string * Stream);
  html : list (string * Stream);
  className : list (string * Stream);
  disabled : list (string * Stream);
  events : list (string * nat)
}.

Record BindingResult := MkResult {
  subscription : nat;
  eventStreams : list (string * EventObs)
}.

Section WithQuery.
Variable querySelectorAll : Dom.Query.

(** [Array.from(root.querySelectorAll(selector))] *)
Definition qAll (root : nat) (selector : string) : M (list nat) :=
  fun w =>
    match querySelectorAll (Dom.elements (page w)) root selector with
    | Some els => (w, Ok els)
    | None => (w, Throw (SyntaxError selector))
    end.

(** The loop every sink section repeats: one subscription per element
    found under [[data-family="name"]]. *)
Definition bindEach (root sub : nat) (family : string) (a : Assignment)
    (table : list (string * Stream)) : M unit :=
  for_each table (fun entry =>
    els ← qAll root (Bind.dataSelector family entry.1);
    if bool_decide (List.length els = 0) then ret tt
    else for_each els (fun el =>
           subscribe_sink sub entry.2 (Assign el a))).

Definition bindTemplate (root : nat) (bindings : BindingObject)
  : M BindingResult :=
  sub ← newSubscription;
  _ ← bindEach root sub "text" TextContent (text bindings);
  _ ← bindEach root sub "value" ValueProp (value bindings);
  _ ← bindEach root sub "html" InnerHTML (html bindings);
  _ ← bindEach root sub "class" ClassNamePlain (className bindings);
  _ ← bindEach root sub "disabled" Disabled (disabled bindings);
  onEls ← qAll root "[data-on]";
  pg ← gets page;
  events_ ← Bind.shareAll (Bind.collectSources pg onEls);
  _ ← for_each (events bindings) (fun entry =>
        match Bind.lookupKey entry.1 events_ with
        | Some stream => subscribe_source sub stream entry.2
        | None => ret tt
        end);
  ret (MkResult sub events_).
End WithQuery.
End Template.

(* ===================================================================== *)
(** ** A document for the examples *)
(* ===================================================================== *)

Module Fixture.
Import Engine.

(** The selectors of the examples: [[name]], [[name="value"]] and
    [.class]; anything else is rejected as a syntax error. Every element
    but the root itself lies under the root. *)
Inductive Selector :=
| HasAttribute (name : string)
| AttributeIs (name value : string)
| HasClass (name : string).

Fixpoint dropLast (s : string) : string :=
  match s with
  | EmptyString => EmptyString
  | String a EmptyString => EmptyString
  | String a r => String a (dropLast r)
  end.

Fixpoint lastChar (s : string) : option ascii :=
  match s with
  | EmptyString => None
  | String a EmptyString => Some a
  | String _ r => lastChar r
  end.

Definition unquote (s : string) : option string :=
  match s with
  | String a r =>
      if Ascii.eqb a (ascii_of_nat 34) &&
         bool_decide (lastChar r = Some (ascii_of_nat 34))
      then Some (dropLast r) else None
  | EmptyString => None
  end.

Definition parseSelector (s : string) : option Selector :=
  match s with
  | String "." cls => if Js.nonempty cls then Some (HasClass cls) else None
  | String "[" r =>
      if bool_decide (lastChar r = Some "]"%char) then
        match Js.split "=" (dropLast r) with
        | [name] => if Js.nonempty name then Some (HasAttribute name) else None
        | [name; quoted] =>
            v ← unquote quoted;
            if Js.nonempty name then Some (AttributeIs name v) else None
        | _ => None
        end
      else None
  | _ => None
  end.

Definition attributeOf (e : Dom.Element) (n : string) : option string :=
  if bool_decide (n = "class") then Some (Dom.className e)
  else if bool_decide (n = "disabled")
       then (if Dom.disabled e then Some "" else None)
       else Dom.attributes e !! n.

Definition matches (sel : Selector) (e : Dom.Element) : bool :=
  match sel with
  | HasAttribute n => bool_decide (is_Some (attributeOf e n))
  | AttributeIs n v => bool_decide (attributeOf e n = Some v)
  | HasClass c => bool_decide (c ∈ Js.split " " (Dom.className e))
  end.

Definition querySelectorAll : Dom.Query :=
  fun els root selector =>
    sel ← parseSelector selector;
    Some (fst <$> List.filter
            (fun ie => negb (Nat.eqb ie.1 root) && matches sel ie.2)
            (imap (fun i e => (i, e)) els)).

Definition element (t : Dom.Tag) (cls : string)
    (attrs : list (string * string)) : Dom.Element :=
  Dom.MkElement t (Dom.Text "") "" cls false (list_to_map attrs).

Definition world (els : list Dom.Element)
    (behaviours : list (nat * Js.Value)) : World :=
  MkWorld (Dom.MkPage els []) (list_to_map behaviours) [] [] ∅ [] [] ∅ 0.

(** Continue with the store a computation leaves. *)
Definition after {A} (m : M A) (w : World) : World := (m w).1.

Definition result {A} (m : M A) (w : World) : Outcome A := (m w).2.
End Fixture.


(* ===================================================================== *)
(** ** Scenarios *)
(* ===================================================================== *)

Module Scenario.
Import Engine Fixture.

Definition div := Dom.TOther "div".

(** [<div><div data-html="content" data-text="content"></div></div>] *)
Definition panel : World :=
  world [element div "" [];
         element div "" [("data-html", "content"); ("data-text", "content")]]
        [].

Definition htmlSink : Bind.BindingObject :=
  Bind.MkBindings [] [] [("content", Subj 0)] [] [] [] [].

Definition textSink : Bind.BindingObject :=
  Bind.MkBindings [(Bind.dataSelector "text" "content", Subj 0)]
    [] [] [] [] [] [].

Definition bound (b : Bind.BindingObject) (w : World) : World :=
  after (Bind.bind querySelectorAll (Dom.NElement 0) b) w.

(** [<div><button data-on="go"></button></div>] *)
Definition toolbar : World :=
  world [element div "" []; element Dom.TButton "" [("data-on", "go")]] [].

Definition goCallback : Bind.BindingObject :=
  Bind.MkBindings [] [] [] [] [] [("go", 7)] [].

(** [<div><div data-on="go"><button data-on="go"></button></div></div>] *)
Definition nested : World :=
  world [element div "" [];
         element div "" [("data-on", "go")];
         element Dom.TButton "" [("data-on", "go")]] [].
End Scenario.

(** Text and markup in one declaration. *)
Module OrderScenario.
Import Engine Fixture.

(** Plain text and markup for the same element of [Scenario.panel]. *)
Definition both : Bind.BindingObject :=
  Bind.MkBindings
    [(Bind.dataSelector "text" "content", Of [Js.VStr "plain"])]
    [] [("content", Of [Js.VStr "<b>rich</b>"])] [] [] [] [].

Definition sourceOrder : list Bind.Kind :=
  [Bind.KText; Bind.KValue; Bind.KHtml; Bind.KClassName; Bind.KDisabled].

Definition htmlFirst : list Bind.Kind :=
  [Bind.KHtml; Bind.KText; Bind.KValue; Bind.KClassName; Bind.KDisabled].

(** [<div><span data-text="title"></span><p data-html="body"
    data-class="body"></p><input data-value="author"></div>] *)
Definition article : World :=
  world [element Scenario.div "" [];
         element (Dom.TOther "span") "" [("data-text", "title")];
         element (Dom.TOther "p") "" [("data-html", "body");
                                      ("data-class", "body")];
         element Dom.TInput "" [("data-value", "author")]]
        [(0, Js.VStr "Hello")].

Definition separate : Bind.BindingObject :=
  Bind.MkBindings
    [(Bind.dataSelector "text" "title", Subj 0)]
    [(Bind.dataSelector "value" "author", Of [Js.VStr "Ann"])]
    [("body", Of [Js.VStr "<i>text</i>"])]
    [("body", Of [Js.VArr 0 ["lead"; "wide"]])] [] [] [].
(** [<div><div data-class="state"></div></div>], a class sink and a text
    sink addressed by the class the first one sets. *)
Definition badge : World :=
  world [element Scenario.div "" [];
         element Scenario.div "" [("data-class", "state")]] [].

Definition classAndText : Bind.BindingObject :=
  Bind.MkBindings [(".hot", Of [Js.VStr "burning"])] [] []
    [("state", Of [Js.VStr "hot"])] [] [] [].

Definition classFirst : list Bind.Kind :=
  [Bind.KClassName; Bind.KText; Bind.KValue; Bind.KHtml; Bind.KDisabled].
End OrderScenario.

(** The documents of the repository's tests. *)
Module Tests.
Import Engine Fixture.

(** [<div><div class="test">Initial</div></div>] with
    [text$ = new BehaviorSubject('Hello')]. *)
Definition container : World :=
  MkWorld
    (Dom.MkPage [element Scenario.div "" [];
                 Dom.MkElement Scenario.div (Dom.Text "Initial") "" "test"
                   false ∅] [])
    {[ 0 := Js.VStr "Hello" ]} [] [] ∅ [] [] ∅ 0.

Definition textBinding : Bind.BindingObject :=
  Bind.MkBindings [(".test", Subj 0)] [] [] [] [] [] [].

Definition textContent (el : nat) (w : World) : option Dom.Content :=
  Dom.content <$> Dom.elements (page w) !! el.

(** [<div><button data-on="click">Click me</button></div>] *)
Definition withButton : World :=
  world [element Scenario.div "" [];
         element Dom.TButton "" [("data-on", "click")]] [].

Definition clickBinding : Bind.BindingObject :=
  Bind.MkBindings [] [] [] [] [] [("click", 1)] [].
(** [<ul><li class="item">...</li> x 3</ul>] and an apply function that
    throws on the second item. *)
Definition items : World :=
  world [element (Dom.TOther "ul") "" [];
         element (Dom.TOther "li") "item" [];
         element (Dom.TOther "li") "item" [];
         element (Dom.TOther "li") "item" []] [].

Definition failsOnSecond : Handler :=
  fun el v pg =>
    if Nat.eqb el 2 then (pg, Throw (TypeError "broken node"))
    else Bind.defaultHandlers_text el v pg.

Definition itemsBound : World :=
  after (Bind.bindObservable querySelectorAll (Dom.NElement 0) 0 ".item"
           (Subj 0) failsOnSecond) items.
End Tests.

(* ===================================================================== *)
(** ** Traces of the route stream *)
(* ===================================================================== *)

Module Routes.

(** The [hashchange] notifications of a trace, each as the value of
    [window.location.hash] when it is handled. *)
Definition hashchanges (t : list (@Rx.Action string)) : list string :=
  omap (fun a => match a with Rx.Next h => Some h | _ => None end) t.

End Routes.


(* ===================================================================== *)
(** ** router.ts — [bindHashLinks] *)
(* ===================================================================== *)

Module HashLinks.

(** The fields of a [MouseEvent] the click handler reads. *)
Record MouseEvent := MkMouseEvent {
  defaultPrevented : bool;
  button : Z;
  metaKey : bool;
  ctrlKey : bool;
  shiftKey : bool;
  altKey : bool
}.

(** [ev.preventDefault()]; a click can be cancelled. *)
Definition preventDefault (ev : MouseEvent) : MouseEvent :=
  MkMouseEvent true (button ev) (metaKey ev) (ctrlKey ev) (shiftKey ev)
               (altKey ev).

(** A registered [onClick] closure: the link it was made for and the
    composite [Subscription] whose teardown removes it. *)
Record ClickListener := MkClickListener {
  cl_link : nat;
  cl_owner : nat
}.

(** The window: its document, what [window.location.hash] reads, the
    click listeners in the order they were added, and the next
    subscription identity. *)
Record Window := MkWindow {
  document : Dom.Page;
  locationHash : string;
  clickListeners : list ClickListener;
  fresh : nat
}.

Section WithPlatform.
Variable querySelectorAll : Dom.Query.
(** The URL parser run on a fragment (it percent-encodes some
    characters). *)
Variable parseFragment : string -> string.

(** [window.location.hash = v]: one leading [#] is dropped and the rest
    becomes the fragment; [location.hash] then reads [#] followed by the
    fragment, or the empty string when the fragment is empty. *)
Definition set_location_hash (v : string) (w : Window) : Window :=
  let input := if Js.startsWithChar "#" v then Js.slice1 v else v in
  let fragment := parseFragment input in
  MkWindow (document w)
           (if Js.nonempty fragment then String "#" fragment else "")
           (clickListeners w) (fresh w).

(** The guard of [onClick]: the click was handled already, is not a
    primary-button click, or has a modifier key. *)
Definition passedOn (ev : MouseEvent) : bool :=
  defaultPrevented ev || negb (Z.eqb (button ev) 0) || metaKey ev
  || ctrlKey ev || shiftKey ev || altKey ev.

(** The [onClick] closure of [link]. *)
Definition onClick (link : nat) (ev : MouseEvent) (w : Window)
  : MouseEvent * Window :=
  if passedOn ev then (ev, w)
  else
    match Dom.getAttribute link "href" (document w) with
    | None => (ev, w)
    | Some href =>
        if negb (Js.nonempty href) then (ev, w)
        else if negb (Js.startsWithChar "#" href) then (ev, w)
        else (preventDefault ev, set_location_hash href w)
    end.

(** [bindHashLinks(root)]: the identity of the subscription returned. *)
Definition bindHashLinks (root : nat) (w : Window)
  : Window * Engine.Outcome nat :=
  let sub := fresh w in
  match querySelectorAll (Dom.elements (document w)) root "a[data-link]" with
  | Some links =>
      (MkWindow (document w) (locationHash w)
         (clickListeners w ++ ((fun link => MkClickListener link sub) <$> links))
         (S (fresh w)),
       Engine.Ok sub)
  | None =>
      (MkWindow (document w) (locationHash w) (clickListeners w)
         (S (fresh w)),
       Engine.Throw (Engine.SyntaxError "a[data-link]"))
  end.

(** [sub.unsubscribe()]: every teardown added to [sub] removes its
    listener. *)
Definition unsubscribe (sub : nat) (w : Window) : Window :=
  MkWindow (document w) (locationHash w)
           (filter (fun l => cl_owner l <> sub) (clickListeners w))
           (fresh w).

(** A click event dispatched to [el]: every listener registered on [el]
    is called with the event, in registration order. *)
Definition click (el : nat) (ev : MouseEvent) (w : Window)
  : MouseEvent * Window :=
  foldl (fun st l =>
           if bool_decide (cl_link l = el) then onClick (cl_link l) st.1 st.2
           else st)
        (ev, w) (clickListeners w).
End WithPlatform.

(** The fragment parser of the examples: nothing to encode. *)
Definition plainFragment (s : string) : string := s.

End HashLinks.

(* ===================================================================== *)
(** ** router-app.ts *)
(* ===================================================================== *)

Module RouterApp.

Record Model := MkModel {
  route : Router.Route;
  count : Z
}.

Inductive Msg :=
| RouteChanged (route : Router.Route)
| Inc
| Dec.

Definition update (model : Model) (msg : Msg) : Model :=
  match msg with
  | RouteChanged r => MkModel r (count model)
  | Inc => MkModel (route model) (count model + 1)
  | Dec => MkModel (route model) (count model - 1)
  end.

Definition isCounter (route : Router.Route) : bool :=
  String.eqb (Router.path route) "/"
  || String.eqb (Router.path route) "/counter".

(** The projections [view] maps over [model$]. *)
Definition title (m : Model) : string :=
  if isCounter (route m) then "Counter Page"
  else if String.eqb (Router.path (route m)) "/about" then "About Page"
       else "Not Found".

Definition content (m : Model) : string :=
  if isCounter (route m)
  then "<p>This is the counter. Use the buttons below.</p>"
  else if String.eqb (Router.path (route m)) "/about"
       then "<p>This is the About page, rendered via data-html.</p>"
       else "<p>Sorry, route <code>" +:+ Router.hash (route m)
            +:+ "</code> not found.</p>".

Definition decDisabled (m : Model) : bool := (count m <=? 0)%Z.

(** What a message adds to the counter, and the route it carries. *)
Definition step_of (msg : Msg) : Z :=
  match msg with
  | Inc => 1
  | Dec => -1
  | RouteChanged _ => 0
  end%Z.

Definition route_of (msg : Msg) : option Router.Route :=
  match msg with
  | RouteChanged r => Some r
  | _ => None
  end.

End RouterApp.

(* ===================================================================== *)
(** ** Streams that are silent while they are bound *)
(* ===================================================================== *)

Module Cold.
Import Engine.

(** A stream that delivers nothing at subscription: a subject without a
    current value, or [of()]. *)
Definition cold (cur : gmap nat Js.Value) (s : Stream) : Prop :=
  Plan.initial cur s = [].

Definition cold_table (cur : gmap nat Js.Value) (table : list (string * Stream))
  : Prop :=
  Forall (fun entry => cold cur entry.2) table.

Definition cold_slots (cur : gmap nat Js.Value)
    (table : list (string * Bind.Slot)) : Prop :=
  Forall (fun entry => match entry.2 with
                       | Bind.IsObservable s => cold cur s
                       | Bind.NotObservable => True
                       end) table.

(** Every stream of the declaration is cold. *)
Definition cold_bindings (cur : gmap nat Js.Value) (b : Bind.BindingObject)
  : Prop :=
  cold_table cur (Bind.text b) /\ cold_table cur (Bind.value b) /\
  cold_table cur (Bind.html b) /\ cold_table cur (Bind.className b) /\
  cold_table cur (Bind.disabled b) /\
  Forall (fun other => cold_slots cur other.2) (Bind.others b).

(** A computation that leaves the page and the subjects as they are,
    whether it completes or throws. *)
Definition Still (cur : gmap nat Js.Value) {A} (m : M A) : Prop :=
  forall w, current w = cur ->
    page (m w).1 = page w /\ current (m w).1 = cur.

End Cold.

(* ===================================================================== *)
(** ** Event sources: who is called on a click *)
(* ===================================================================== *)

Module Events.
Import Engine.

(** The stream and the callback of an event subscription. *)
Definition source_of (s : Sub) : option (nat * nat) :=
  match sub_wiring s with
  | Source stream handler => Some (stream, handler)
  | Sink _ _ _ => None
  end.

(** The names a lookup [events$[name]] finds without an own entry.
    [events$] starts as [{}] and inherits the members of
    [Object.prototype]; the assignment [events$['__proto__'] = stream]
    stores nothing and makes the observable the prototype, whose members
    are then found as well. *)
Definition objectMembers : list string :=
  ["constructor"; "__proto__"; "__defineGetter__"; "__defineSetter__";
   "__lookupGetter__"; "__lookupSetter__"; "hasOwnProperty";
   "isPrototypeOf"; "propertyIsEnumerable"; "toLocaleString"; "toString";
   "valueOf"].

Definition observableMembers : list string :=
  ["source"; "operator"; "lift"; "subscribe"; "forEach"; "pipe";
   "toPromise"; "_subscribe"; "_trySubscribe"; "_isScalar"; "@@observable"].

Definition inherited (name : string) : bool :=
  bool_decide (name ∈ objectMembers ++ observableMembers).

(** The listeners of [type] on [node] are handed an event whose target
    is [target], and each passes it to the subscribers of its stream.
    With the target for [node] this is [Engine.fire]. *)
Definition deliver (type : string) (node target : nat) (w : World) : World :=
  foldl (fun w l =>
           if bool_decide (l_element l = node) && String.eqb (l_type l) type
           then foldl (fun w s =>
                         match sub_wiring s with
                         | Source stream handler =>
                             if bool_decide (stream = l_stream l)
                             then record_call (MkCall handler target) w
                             else w
                         | Sink _ _ _ => w
                         end) w (subs w)
           else w) w (listeners w).

(** A click on [el]: the event is handed to the listeners on [el] and
    then, as it bubbles, to those on each of [ancestors], the ancestors
    of [el] the event travels to, from its parent outwards. *)
Definition click (ancestors : list nat) (el : nat) (w : World) : World :=
  foldl (fun w node => deliver "click" node el w) w (el :: ancestors).

(** The callbacks an event with target [target] reaches at [node], given
    the listeners and the event subscriptions of the store: for each
    listener on [node], the subscribers of its stream in subscription
    order. *)
Definition reached (type : string) (node target : nat) (ls : list Listener)
    (sources : list (nat * nat)) : list Call :=
  l ← List.filter (fun l => bool_decide (l_element l = node)
                            && String.eqb (l_type l) type) ls;
  (fun sh => MkCall sh.2 target)
    <$> List.filter (fun sh => bool_decide (sh.1 = l_stream l)) sources.

(** The call of the callback declared under the [data-on] name of
    [node], when [node] is one of the elements of the [data-on] scan. *)
Definition called (pg : Dom.Page) (onEls : list nat)
    (callbacks : list (string * nat)) (node target : nat) : list Call :=
  if bool_decide (node ∈ onEls) then
    match Dom.getAttribute node "data-on" pg with
    | Some name =>
        if Js.nonempty name then
          match Bind.lookupKey name callbacks with
          | Some handler => [MkCall handler target]
          | None => []
          end
        else []
    | None => []
    end
  else [].

(** The store with more calls recorded. *)
Definition with_more_calls (cs : list Call) (w : World) : World :=
  MkWorld (page w) (current w) (subs w) (listeners w) (eventCache w)
          (console w) (calls w ++ cs) (closed w) (fresh w).

(** The identities of shared streams are taken from the counter of the
    store: the ones in use are below it. *)
Definition settled (w : World) : Prop :=
  Forall (fun l => l_stream l < fresh w) (listeners w) /\
  Forall (fun s => forall sh, source_of s = Some sh -> sh.1 < fresh w) (subs w).

(** Every native listener feeds a stream somebody is subscribed to. *)
Definition attended (w : World) : Prop :=
  Forall (fun l => existsb (subscribed_to (l_stream l)) (subs w) = true)
         (listeners w).

(** The shared streams [shareAll] makes, numbered from [base]. *)
Fixpoint shared_from (base : nat) (raw : list (string * list nat))
  : list (string * EventObs) :=
  match raw with
  | [] => []
  | (name, els) :: raw' =>
      (name, SharedEvents base "click" els) :: shared_from (S base) raw'
  end.

(** The listeners and the subscriptions the callbacks of a declaration
    add, given the streams of the names. *)
Definition callback_listeners (events_ : list (string * EventObs))
    (callbacks : list (string * nat)) : list Listener :=
  c ← callbacks;
  match Bind.lookupKey c.1 events_ with
  | Some (SharedEvents id type els) =>
      (fun el => MkListener el type id) <$> els
  | _ => []
  end.

Definition callback_sources (events_ : list (string * EventObs))
    (callbacks : list (string * nat)) : list (nat * nat) :=
  omap (fun c => match Bind.lookupKey c.1 events_ with
                 | Some (SharedEvents id _ _) => Some (id, c.2)
                 | _ => None
                 end) callbacks.

(** A computation that only adds native listeners, all for streams
    numbered from [base] on. *)
Definition Registers (base : nat) {A} (m : M A) : Prop :=
  forall w, base <= fresh w ->
    base <= fresh (m w).1 /\
    exists added, listeners (m w).1 = listeners w ++ added /\
                  Forall (fun l => base <= l_stream l) added.

End Events.

(* ===================================================================== *)
(** ** The errors a computation can end with *)
(* ===================================================================== *)

Module Errors.
Import Engine.



End Errors.

(* ===================================================================== *)
(** ** A page with links, for the examples *)
(* ===================================================================== *)

Module Menu.
Import HashLinks.

Definition isAnchorLink (e : Dom.Element) : bool :=
  match Dom.tag e with
  | Dom.TOther n =>
      String.eqb n "a" && bool_decide (is_Some (Dom.attributes e !! "data-link"))
  | _ => false
  end.

(** [a[data-link]] besides the selectors of [Fixture]. *)
Definition anchors : Dom.Query :=
  fun els root selector =>
    if String.eqb selector "a[data-link]" then
      Some (fst <$> List.filter
              (fun ie => negb (Nat.eqb ie.1 root) && isAnchorLink ie.2)
              (imap (fun i e => (i, e)) els))
    else Fixture.querySelectorAll els root selector.

(** [<body><a data-link href="#/about"></a>
    <a data-link href="/external"></a></body>] *)
Definition page : Window :=
  MkWindow
    (Dom.MkPage
       [Fixture.element (Dom.TOther "body") "" [];
        Fixture.element (Dom.TOther "a") ""
          [("data-link", ""); ("href", "#/about")];
        Fixture.element (Dom.TOther "a") ""
          [("data-link", ""); ("href", "/external")]] [])
    "" [] 0.

Definition plainClick : MouseEvent := MkMouseEvent false 0 false false false false.

Definition ctrlClick : MouseEvent := MkMouseEvent false 0 false true false false.

End Menu.

(* ===================================================================== *)
(** * Properties *)
(* ===================================================================== *)

(** ** Strings *)

Lemma split_not_nil c s : Js.split c s <> [].
Proof.
  destruct s as [|a r]; simpl; [discriminate|].
  destruct (Ascii.eqb a c); [discriminate|].
  destruct (Js.split c r); discriminate.
Qed.


Lemma nonempty_true s : Js.nonempty s = true <-> s <> "".
Proof. destruct s; simpl; split; congruence. Qed.


(** ** router.ts *)

Lemma append_empty_r (s : string) : s +:+ "" = s.
Proof.
  induction s as [|x s IH]; [done|].
  change (String x (s +:+ "") = String x s). by rewrite IH.
Qed.

Lemma contains_separator c s t : Js.contains c (s +:+ String c t) = true.
Proof.
  induction s as [|x s IH].
  - change (Js.contains c (String c t) = true). cbn.
    by rewrite Ascii.eqb_refl.
  - change (Js.contains c (String x (s +:+ String c t)) = true). cbn.
    rewrite IH. apply orb_true_r.
Qed.

(** The place of the first [c] in a string is determined. *)
Lemma first_separator_unique c a b a' b' :
  a +:+ String c b = a' +:+ String c b' ->
  Js.contains c a = false -> Js.contains c a' = false ->
  a = a' /\ b = b'.
Proof.
  revert a'. induction a as [|x a IH]; intros [|x' a'] H Ha Ha'.
  - by injection H as ->.
  - injection H as <- _. cbn in Ha'. by rewrite Ascii.eqb_refl in Ha'.
  - injection H as -> _. cbn in Ha. by rewrite Ascii.eqb_refl in Ha.
  - injection H as -> H. cbn in Ha, Ha'.
    apply orb_false_elim in Ha as [_ Ha], Ha' as [_ Ha'].
    by destruct (IH a' H Ha Ha') as [-> ->].
Qed.

(** A part without [c], followed by nothing or by a [c]: both pieces are
    determined. *)
Lemma up_to_separator_unique c q r q' r' :
  q +:+ r = q' +:+ r' ->
  Js.contains c q = false -> Js.contains c q' = false ->
  (r = "" \/ Js.startsWithChar c r = true) ->
  (r' = "" \/ Js.startsWithChar c r' = true) ->
  q = q' /\ r = r'.
Proof.
  intros H Hq Hq' Hr Hr'.
  assert (Hnone : forall s t u, s +:+ "" = t +:+ String c u ->
                                Js.contains c s = false -> False).
  { intros s t u E Hs. rewrite append_empty_r in E. subst s.
    by rewrite contains_separator in Hs. }
  assert (Hhead : forall s, Js.startsWithChar c s = true ->
                            exists u, s = String c u).
  { intros [|y u]; [done|]. cbn. intros ->%Ascii.eqb_eq. by exists u. }
  destruct Hr as [->|Hr], Hr' as [->|Hr'].
  - rewrite !append_empty_r in H. by subst.
  - destruct (Hhead _ Hr') as [u ->]. exfalso. by eapply Hnone.
  - destruct (Hhead _ Hr) as [u ->]. exfalso. symmetry in H. by eapply Hnone.
  - destruct (Hhead _ Hr) as [u ->], (Hhead _ Hr') as [u' ->].
    destruct (first_separator_unique _ _ _ _ _ H Hq Hq') as [-> ->]. done.
Qed.

(** A fragment is cut into a path part, a query and a rest in one way
    only. *)
Lemma fragment_cut_unique fragment p q r p' q' r' :
  (fragment = p /\ q = "" /\ r = "" \/ fragment = p +:+ "?" +:+ q +:+ r) ->
  (fragment = p' /\ q' = "" /\ r' = "" \/
   fragment = p' +:+ "?" +:+ q' +:+ r') ->
  Js.contains "?" p = false -> Js.contains "?" q = false ->
  (r = "" \/ Js.startsWithChar "?" r = true) ->
  Js.contains "?" p' = false -> Js.contains "?" q' = false ->
  (r' = "" \/ Js.startsWithChar "?" r' = true) ->
  p = p' /\ q = q' /\ r = r'.
Proof.
  intros H H' Hp Hq Hr Hp' Hq' Hr'.
  assert (Hmark : forall s t u, Js.contains "?" (s +:+ "?" +:+ t +:+ u) = true).
  { intros s t u. apply (contains_separator "?" s (t +:+ u)). }
  destruct H as [(-> & -> & ->)| ->], H' as [(E & -> & ->)|E].
  - by subst.
  - rewrite E, Hmark in Hp. discriminate.
  - rewrite <- E, Hmark in Hp'. discriminate.
  - change (p +:+ String "?" (q +:+ r) = p' +:+ String "?" (q' +:+ r')) in E.
    destruct (first_separator_unique _ _ _ _ _ E Hp Hp') as [-> E'].
    by destruct (up_to_separator_unique _ _ _ _ _ E' Hq Hq' Hr Hr') as [-> ->].
Qed.

Section RouterFacts.
Variable URLSearchParams : string -> list (string * string).

Local Abbreviation parseRoute := (Router.parseRoute URLSearchParams).
Local Abbreviation getRoute := (Router.getRoute URLSearchParams).

(** [params[key] = value] in [forEach] order: the last pair of a key
    wins, and a pair under [__proto__] leaves no entry. *)
Lemma collect_params_snoc kvs k v :
  Router.collect_params (kvs ++ [(k, v)])
  = if String.eqb k "__proto__" then Router.collect_params kvs
    else <[k := v]> (Router.collect_params kvs).
Proof. unfold Router.collect_params. by rewrite foldl_app. Qed.

Lemma collect_params_last kvs k v :
  k <> "__proto__" ->
  Router.collect_params (kvs ++ [(k, v)]) !! k = Some v.
Proof.
  intros Hk. rewrite collect_params_snoc.
  apply String.eqb_neq in Hk. rewrite Hk. apply lookup_insert_eq.
Qed.


End RouterFacts.

(** ** distinctUntilChanged *)

Lemma distinct_run_app {B} (same : B -> B -> bool) last xs ys :
  Rx.distinct_run same last (xs ++ ys)
  = let '(l1, o1) := Rx.distinct_run same last xs in
    let '(l2, o2) := Rx.distinct_run same l1 ys in
    (l2, o1 ++ o2).
Proof.
  revert last. induction xs as [|x xs IH]; intros last; simpl.
  - by destruct (Rx.distinct_run same last ys).
  - destruct last as [l|].
    + destruct (same l x).
      * apply IH.
      * rewrite IH. destruct (Rx.distinct_run same (Some x) xs) as [l1 o1].
        by destruct (Rx.distinct_run same l1 ys).
    + rewrite IH. destruct (Rx.distinct_run same (Some x) xs) as [l1 o1].
      by destruct (Rx.distinct_run same l1 ys).
Qed.

(** The filter remembers the last value it let through. *)
Lemma distinct_run_state {B} (same : B -> B -> bool) prev xs :
  (Rx.distinct_run same prev xs).1
  = match last (Rx.distinct_run same prev xs).2 with
    | Some b => Some b
    | None => prev
    end.
Proof.
  revert prev. induction xs as [|x xs IH]; intros prev; simpl; [done|].
  assert (Hx : forall l1 o1, Rx.distinct_run same (Some x) xs = (l1, o1) ->
            l1 = match last (x :: o1) with Some b => Some b | None => prev end).
  { intros l1 o1 E. specialize (IH (Some x)). rewrite E in IH. simpl in IH.
    rewrite IH, last_cons. by destruct (last o1). }
  destruct prev as [l|].
  - destruct (same l x); [apply IH|].
    destruct (Rx.distinct_run same (Some x) xs) as [l1 o1] eqn:E.
    simpl. by apply Hx.
  - destruct (Rx.distinct_run same (Some x) xs) as [l1 o1] eqn:E.
    simpl. by apply Hx.
Qed.

Lemma distinct_run_no_repeat {B} (same : B -> B -> bool) l xs :
  Rx.no_repeat same (l :: (Rx.distinct_run same (Some l) xs).2) = true.
Proof.
  revert l. induction xs as [|x xs IH]; intros l; [done|].
  simpl Rx.distinct_run. destruct (same l x) eqn:E; [apply IH|].
  specialize (IH x).
  destruct (Rx.distinct_run same (Some x) xs) as [l1 o1]. simpl in *.
  by rewrite E.
Qed.

Lemma distinct_run_fresh_no_repeat {B} (same : B -> B -> bool) xs :
  Rx.no_repeat same (Rx.distinct_run same None xs).2 = true.
Proof.
  destruct xs as [|x xs]; [done|]. simpl.
  pose proof (distinct_run_no_repeat same x xs) as H.
  by destruct (Rx.distinct_run same (Some x) xs).
Qed.

(** ** createHashRoute$ *)

Section HashRouteFacts.
Variable URLSearchParams : string -> list (string * string).

Local Abbreviation getRoute := (Router.getRoute URLSearchParams).
Local Abbreviation pipe := (Router.hashRoutePipe URLSearchParams).
Local Abbreviation routeEmissions := (Router.routeEmissions URLSearchParams).

Lemma hashRoute_feed_all initial prev changes :
  Rx.feed_all (pipe initial) (tt, prev) changes
  = ((tt, (Rx.distinct_run Router.sameHash prev (getRoute <$> changes)).1),
     (Rx.distinct_run Router.sameHash prev (getRoute <$> changes)).2).
Proof.
  revert prev. induction changes as [|h changes IH]; intros prev; [done|].
  change (getRoute <$> h :: changes)
    with ([getRoute h] ++ (getRoute <$> changes)).
  rewrite distinct_run_app.
  assert (Hfeed : Rx.feed (pipe initial) (tt, prev) h
            = ((tt, (Rx.distinct_run Router.sameHash prev [getRoute h]).1),
               (Rx.distinct_run Router.sameHash prev [getRoute h]).2)).
  { unfold Router.hashRoutePipe. simpl.
    by destruct prev as [l|]; [destruct (Router.sameHash l (getRoute h))|]. }
  cbn [Rx.feed_all]. rewrite Hfeed.
  destruct (Rx.distinct_run Router.sameHash prev [getRoute h])
    as [l1 o1] eqn:E1.
  cbn [fst snd]. rewrite IH.
  by destruct (Rx.distinct_run Router.sameHash l1 (getRoute <$> changes)).
Qed.

Lemma routeEmissions_filter initial changes :
  routeEmissions initial changes
  = (Rx.distinct_run Router.sameHash None
       (getRoute initial :: (getRoute <$> changes))).2.
Proof.
  unfold Router.routeEmissions.
  change (Rx.connect (pipe initial))
    with ((tt, Some (getRoute initial)), [getRoute initial]).
  cbv beta iota zeta.
  rewrite (hashRoute_feed_all initial (Some (getRoute initial)) changes).
  simpl.
  by destruct (Rx.distinct_run Router.sameHash (Some (getRoute initial))
                 (getRoute <$> changes)).
Qed.

(** C10: over any sequence of [hashchange] events, no two consecutive
    emissions of the route stream have the same [hash]; and an event
    extends the emissions by its route exactly when that route's hash
    differs from the hash of the last emission, so an event that leaves
    the hash unchanged emits nothing. *)
Theorem hashRoute_distinct initial changes :
  Rx.no_repeat Router.sameHash (routeEmissions initial changes) = true /\
  forall h,
    match last (routeEmissions initial changes) with
    | Some prev =>
        routeEmissions initial (changes ++ [h])
        = routeEmissions initial changes
          ++ (if bool_decide (Router.hash prev = Router.hash (getRoute h))
              then [] else [getRoute h])
    | None => False
    end.
Proof.
  split.
  - rewrite routeEmissions_filter. apply distinct_run_fresh_no_repeat.
  - intros h. rewrite !routeEmissions_filter.
    change (getRoute initial :: (getRoute <$> changes ++ [h]))
      with ((getRoute initial :: (getRoute <$> changes ++ [h]))).
    rewrite fmap_app. simpl fmap at 2.
    rewrite (app_comm_cons _ _ (getRoute initial)).
    rewrite distinct_run_app.
    pose proof (distinct_run_state Router.sameHash None
                  (getRoute initial :: (getRoute <$> changes))) as Hst.
    destruct (Rx.distinct_run Router.sameHash None
                (getRoute initial :: (getRoute <$> changes)))
      as [l1 o1] eqn:E.
    simpl in Hst.
    destruct (last o1) as [prev|] eqn:Hlast.
    + subst l1. cbn [snd]. rewrite Hlast.
      change (getRoute <$> [h]) with [getRoute h].
      cbn [Rx.distinct_run]. unfold Router.sameHash.
      destruct (bool_decide (Router.hash prev = Router.hash (getRoute h)));
        cbn [snd]; [by rewrite app_nil_r|done].
    + subst l1. simpl in E.
      destruct (Rx.distinct_run Router.sameHash (Some (getRoute initial))
                  (getRoute <$> changes)) as [l2 o2].
      inversion E; subst. rewrite last_cons in Hlast.
      by destruct (last o2).
Qed.
(** Behind [shareReplay] the replay buffer holds what the distinct filter
    let through last. *)
Lemma hashRoute_buffer initial (t : list Rx.Action) :
  match Rx.upstream _ (Rx.run (pipe initial)
                         (Router.createHashRoute URLSearchParams initial) t).1
  with
  | Some st => snd st = Rx.buffer _ (Rx.run (pipe initial)
                 (Router.createHashRoute URLSearchParams initial) t).1
  | None => True
  end.
Proof.
  assert (G : forall t sh,
    match Rx.upstream (pipe initial) sh with
    | Some st => snd st = Rx.buffer _ sh | None => True end ->
    match Rx.upstream _ (Rx.run (pipe initial) sh t).1 with
    | Some st => snd st = Rx.buffer _ (Rx.run (pipe initial) sh t).1
    | None => True end).
  { clear t. intros t. induction t as [|act t IH]; intros sh Hsh; [done|].
    cbn [Rx.run].
    destruct (Rx.step (pipe initial) sh act) as [sh1 d1] eqn:Hstep.
    specialize (IH sh1).
    destruct (Rx.run (pipe initial) sh1 t) as [sh2 d2]. cbn [fst] in *.
    apply IH. clear IH.
    destruct act as [o|o|h]; simpl in Hstep.
    - unfold Rx.subscribe in Hstep.
      destruct (Rx.upstream (pipe initial) sh) as [st|];
        by injection Hstep as <- _.
    - injection Hstep as <- _. unfold Rx.unsubscribe.
      destruct (bool_decide (o ∈ Rx.observers (pipe initial) sh)); [|done].
      by destruct (filter _ _).
    - unfold Rx.next in Hstep.
      destruct (Rx.upstream (pipe initial) sh) as [[[] prev]|] eqn:Hu;
        [|injection Hstep as <- _; by rewrite Hu].
      simpl in Hsh, Hstep. subst prev.
      destruct (Rx.buffer (pipe initial) sh) as [l|].
      + destruct (Router.sameHash l (getRoute h));
          by injection Hstep as <- _.
      + by injection Hstep as <- _. }
  by apply G.
Qed.

(** A [hashchange] that leaves the hash of the last route unchanged is
    delivered to no subscriber of [createHashRoute$()]. *)
Lemma unchanged_hash_not_delivered initial (t : list Rx.Action) h prev :
  Rx.buffer _ (Rx.run (pipe initial)
                 (Router.createHashRoute URLSearchParams initial) t).1
  = Some prev ->
  Router.hash prev = Router.hash (getRoute h) ->
  (Rx.next (pipe initial) h
     (Rx.run (pipe initial)
        (Router.createHashRoute URLSearchParams initial) t).1).2 = [].
Proof.
  intros Hbuf Hsame. pose proof (hashRoute_buffer initial t) as Hinv.
  unfold Rx.next.
  destruct (Rx.upstream _ _) as [[[] last]|]; [|done].
  simpl in Hinv. rewrite Hinv, Hbuf. simpl.
  unfold Router.sameHash. by rewrite bool_decide_eq_true_2.
Qed.
End HashRouteFacts.

(** ** runMVU: the model stream *)

Section MvuFacts.
Context {Model Msg : Type}.
Variable init : Model.
Variable update : Model -> Msg -> Model.

Local Abbreviation foldPipe := (Mvu.foldPipe init update).
Local Abbreviation loop_of := (Mvu.loop_of init update).

Lemma loop_step obs h act :
  (obs = [] -> h = []) ->
  (Rx.step foldPipe (loop_of obs h) act).1
  = loop_of (Mvu.consumed obs h [act]).1 (Mvu.consumed obs h [act]).2 /\
  ((Mvu.consumed obs h [act]).1 = [] -> (Mvu.consumed obs h [act]).2 = []).
Proof.
  intros Hh. destruct act as [o|o|m]; simpl.
  - split; [|by destruct obs].
    destruct obs as [|o' obs]; simpl.
    + by rewrite Hh.
    + done.
  - destruct obs as [|o' obs]; simpl.
    + split; [by unfold Rx.unsubscribe|done].
    + unfold Rx.unsubscribe. simpl.
      destruct (bool_decide (o ∈ o' :: obs)); simpl; [|done].
      destruct (filter (fun x => x <> o) (o' :: obs)); simpl; done.
  - destruct obs as [|o' obs]; simpl.
    + split; [done|auto].
    + split; [|done]. unfold Rx.next. simpl. by rewrite foldl_app.
Qed.

Lemma consumed_step obs (h : list Msg) act t :
  Mvu.consumed obs h (act :: t)
  = Mvu.consumed (Mvu.consumed obs h [act]).1 (Mvu.consumed obs h [act]).2 t.
Proof.
  destruct act as [o|o|m]; simpl; [done| |by destruct obs].
  destruct (bool_decide (o ∈ obs)); [|done].
  by destruct (filter (fun x => x <> o) obs).
Qed.

Lemma loop_run t : forall obs h,
  (obs = [] -> h = []) ->
  (Rx.run foldPipe (loop_of obs h) t).1
  = loop_of (Mvu.consumed obs h t).1 (Mvu.consumed obs h t).2.
Proof.
  induction t as [|act t IH]; intros obs h Hh; [done|].
  destruct (loop_step obs h act Hh) as [Hstep Hinv].
  rewrite consumed_step. rewrite <- (IH _ _ Hinv), <- Hstep.
  cbn [Rx.run].
  destruct (Rx.step foldPipe (loop_of obs h) act) as [sh1 d1].
  cbn [fst]. by destruct (Rx.run foldPipe sh1 t).
Qed.

(** What a new subscriber is handed, by the ghost history of the loop. *)
Lemma replay_of_consumed (t : list Rx.Action) (o : nat) :
  (Rx.subscribe foldPipe o
     (Rx.run foldPipe (Mvu.model_stream init update) t).1).2
  = [(o, foldl update init (Mvu.consumed [] [] t).2)].
Proof.
  change (Mvu.model_stream init update) with (loop_of [] []).
  rewrite loop_run by done.
  assert (Hinv : (Mvu.consumed [] [] t).1 = [] ->
                 (Mvu.consumed [] [] t).2 = []).
  { assert (G : forall t' obs (h : list Msg), (obs = [] -> h = []) ->
      (Mvu.consumed obs h t').1 = [] -> (Mvu.consumed obs h t').2 = []).
    { intros t'. induction t' as [|act t' IH]; intros obs h Hh; [exact Hh|].
      rewrite consumed_step. apply IH.
      destruct act as [x|x|m]; simpl.
      - by destruct obs.
      - destruct (bool_decide (x ∈ obs)); [|done].
        by destruct (filter (fun y => y <> x) obs).
      - destruct obs; simpl; [done|discriminate]. }
    by apply G. }
  destruct (Mvu.consumed [] [] t) as [obs h]. simpl in *.
  destruct obs as [|o' obs]; simpl.
  - by rewrite Hinv.
  - done.
Qed.
End MvuFacts.

Section MvuCorollaries.
Context {Model Msg : Type}.
Variable init : Model.
Variable update : Model -> Msg -> Model.

(** The binding setup, first to subscribe, sees the initial model. *)
Lemma first_subscriber_sees_init o :
  (Rx.subscribe (Mvu.foldPipe init update) o
     (Mvu.model_stream init update)).2 = [(o, init)].
Proof. apply (replay_of_consumed init update [] o). Qed.

Lemma consumed_while_connected (t : list (@Rx.Action Msg)) :
  forall o obs h,
    o ∈ obs ->
    Rx.Unsubscribe o ∉ t ->
    (Mvu.consumed obs h t).2 = h ++ Mvu.sent t.
Proof.
  induction t as [|act t IH]; intros o obs h Ho Hno.
  - simpl. by rewrite app_nil_r.
  - apply not_elem_of_cons in Hno as [Hne Hno].
    destruct act as [x|x|m]; simpl.
    + apply (IH o); [set_solver|done].
    + assert (x <> o) by congruence.
      assert (Hkeep : o ∈ filter (fun y => y <> x) obs).
      { apply list_elem_of_filter. split; [congruence|done]. }
      destruct (bool_decide (x ∈ obs)); [|by apply (IH o)].
      destruct (filter (fun y => y <> x) obs) as [|z zs] eqn:E.
      * by apply elem_of_nil in Hkeep.
      * by apply (IH o).
    + destruct obs as [|z zs]; [by apply elem_of_nil in Ho|].
      unfold Mvu.sent. simpl. fold (Mvu.sent t).
      rewrite (IH o); [|done|done]. by rewrite <- app_assoc.
Qed.

(** While the first subscriber stays, a later one receives the fold of
    every message sent so far. *)
Lemma replay_while_connected o0 o (t : list (@Rx.Action Msg)) :
  Rx.Unsubscribe o0 ∉ t ->
  (Rx.subscribe (Mvu.foldPipe init update) o
     (Rx.run (Mvu.foldPipe init update) (Mvu.model_stream init update)
        (Rx.Subscribe o0 :: t)).1).2
  = [(o, foldl update init (Mvu.sent t))].
Proof.
  intros Hno. rewrite replay_of_consumed. simpl.
  by rewrite (consumed_while_connected t o0 [o0] []); [|set_solver|].
Qed.
End MvuCorollaries.


(** ** The binding engine *)

Section EngineFacts.
Import Engine.

(** The callback given to [tap] catches what the apply function throws:
    it never throws itself, visits every element and logs each error. *)
Lemma tap_callback_total selector h v els : forall w,
  tap_callback selector els h v w
  = (MkWorld (apply_all h v els (page w)).1 (current w) (subs w)
       (listeners w) (eventCache w)
       (console w ++ (error_entry selector <$> (apply_all h v els (page w)).2))
       (calls w) (closed w) (fresh w),
     Ok tt).
Proof.
  induction els as [|el els IH]; intros w.
  - simpl. unfold ret. rewrite app_nil_r. by destruct w.
  - unfold tap_callback in *. cbn [for_each apply_all].
    unfold bindM at 1. unfold try_catch at 1. unfold on_page at 1.
    destruct (h el v (page w)) as [pg1 [[]|e]] eqn:Hh.
    + rewrite IH. simpl.
      by destruct (apply_all h v els pg1) as [pg2 errors].
    + unfold console_error, modify. rewrite IH. simpl.
      destruct (apply_all h v els pg1) as [pg2 errors]. simpl.
      by rewrite <- app_assoc.
Qed.

(** No observer of the engine throws into its stream. *)
Lemma sink_next_ok o last v w :
  exists w' last', sink_next o last v w = (w', Ok last') /\
    subs w' = subs w /\ current w' = current w /\
    listeners w' = listeners w /\ closed w' = closed w /\
    eventCache w' = eventCache w.
Proof.
  destruct o as [selector els h|el a]; simpl.
  - destruct (passes last v).
    + unfold bindM. rewrite tap_callback_total. by eexists _, _.
    + by eexists _, _.
  - by eexists _, _.
Qed.

Lemma dispatch_keeps subject v pending : forall w,
  identity_of <$> (dispatch subject v pending w).1 = identity_of <$> pending.
Proof.
  induction pending as [|s rest IH]; intros w; [done|].
  cbn [dispatch].
  destruct (sub_wiring s) as [subject' o last|stream handler] eqn:Hw.
  - destruct (bool_decide (subject' = subject)).
    + destruct (sink_next_ok o last v w) as (w1 & last' & -> & _).
      specialize (IH w1). destruct (dispatch subject v rest w1).
      cbn [fst] in *. rewrite !fmap_cons, IH. f_equal.
      unfold identity_of. simpl. by rewrite Hw.
    + specialize (IH w). destruct (dispatch subject v rest w).
      cbn [fst] in *. by rewrite !fmap_cons, IH.
  - specialize (IH w). destruct (dispatch subject v rest w).
    cbn [fst] in *. by rewrite !fmap_cons, IH.
Qed.

(** An emission ends no subscription: the same observers stay attached
    to the same subjects. *)
Lemma next_keeps_subscriptions subject v w :
  identity_of <$> subs (next subject v w) = identity_of <$> subs w.
Proof.
  unfold next.
  set (w0 := match current w !! subject with
             | Some _ => with_current <[subject:=v]> w
             | None => w
             end).
  assert (subs w0 = subs w) as <- by (subst w0; by destruct (current w !! _)).
  pose proof (dispatch_keeps subject v (subs w0) w0) as H.
  destruct (dispatch subject v (subs w0) w0) as [subs' w1]. done.
Qed.

(** C3: when an emission reaches the observer [bindObservable] attached,
    the apply function is run on every matched element in order whatever
    it did on the earlier ones, each error it throws is caught and logged
    with [console.error], the observer returns normally to its stream,
    and after the emission every subscription of the store is still
    attached. *)
Theorem apply_failure_isolated selector els h last v w subject :
  sink_next (DistinctTap selector els h) last v w
  = (if passes last v then
       (MkWorld (apply_all h v els (page w)).1 (current w) (subs w)
          (listeners w) (eventCache w)
          (console w
             ++ (error_entry selector <$> (apply_all h v els (page w)).2))
          (calls w) (closed w) (fresh w),
        Ok (Some v))
     else (w, Ok last)) /\
  identity_of <$> subs (next subject v w) = identity_of <$> subs w.
Proof.
  split.
  - simpl. destruct (passes last v); [|done]. unfold bindM.
    by rewrite tap_callback_total.
  - apply next_keeps_subscriptions.
Qed.

(** The elements after one that throws are still handed to the apply
    function, from the page the failed call left. *)
Lemma apply_all_app h v before after pg :
  apply_all h v (before ++ after) pg
  = ((apply_all h v after (apply_all h v before pg).1).1,
     (apply_all h v before pg).2
       ++ (apply_all h v after (apply_all h v before pg).1).2).
Proof.
  revert pg. induction before as [|el before IH]; intros pg.
  - simpl. by destruct (apply_all h v after pg).
  - cbn [app apply_all]. destruct (h el v pg) as [pg1 outcome].
    rewrite IH. destruct (apply_all h v before pg1) as [pg2 errors].
    cbn [fst snd]. destruct (apply_all h v after pg2) as [pg3 errors'].
    by destruct outcome.
Qed.
End EngineFacts.

Section BindFacts.
Import Engine.
Variable querySelectorAll : Dom.Query.

(** C4: given anything but an element as root, [bind] throws its
    invalid-root [BindingError] at once and leaves the store as it found
    it: no subscription, no write to the page, no listener. *)
Theorem bind_invalid_root root bindings w :
  Dom.isHTMLElement root = false ->
  Bind.bind querySelectorAll root bindings w
  = (w, Throw (BindingError "Root element must be a valid HTMLElement"
                            NoContext)).
Proof.
  intros Hroot. unfold Bind.bind. rewrite Hroot.
  by rewrite orb_true_r.
Qed.

(** The distinct filter of [bindObservable]: a value identical to the
    last one passed changes nothing at all. *)
Lemma distinct_tap_repeat selector els h l v w :
  Js.strict_eq l v = true ->
  sink_next (DistinctTap selector els h) (Some l) v w = (w, Ok (Some l)).
Proof. intros E. simpl. by rewrite E. Qed.

(** A per-element subscriber writes on every notification. *)
Lemma assign_always_writes el a last v w :
  Dom.mutations (page (sink_next (Assign el a) last v w).1)
  = Dom.mutations (page w)
    ++ [Dom.MkMutation el
          (match a with
           | TextContent | InnerHTML => Dom.PContent
           | ValueProp => Dom.PValue
           | ClassNamePlain | ClassName => Dom.PClassName
           | Disabled => Dom.PDisabled
           end)
          (match a with
           | ClassName => class_of v
           | Disabled => if Js.truthy v then "true" else "false"
           | _ => Js.text_of v
           end)].
Proof. by destruct a. Qed.
End BindFacts.

(** The witness of [bind_invalid_root]: a text node as root. *)
Lemma bind_invalid_root_witness :
  Dom.isHTMLElement Dom.NNotElement = false /\
  Bind.bind Fixture.querySelectorAll Dom.NNotElement
    (Bind.MkBindings [(".greeting", Engine.Of [Js.VStr "Hello"])]
       [] [] [] [] [] [])
    (Fixture.world [Fixture.element (Dom.TOther "p") "greeting" []] [])
  = (Fixture.world [Fixture.element (Dom.TOther "p") "greeting" []] [],
     Engine.Throw
       (Engine.BindingError "Root element must be a valid HTMLElement"
          Engine.NoContext)).
Proof.
  split; [reflexivity|].
  apply (bind_invalid_root Fixture.querySelectorAll Dom.NNotElement).
  reflexivity.
Defined.

(** C1 (failing input): an [html] sink bound by [bind] rewrites
    [innerHTML] when its stream emits the value it emitted just before;
    the same emissions through a [text] sink write once. *)
Theorem html_sink_rewrites_equal_value :
  let twice w := Engine.next 0 (Js.VStr "<b>x</b>")
                   (Engine.next 0 (Js.VStr "<b>x</b>") w) in
  Dom.writesTo 1
    (Engine.page (twice (Scenario.bound Scenario.htmlSink Scenario.panel))) = 2
  /\
  Dom.writesTo 1
    (Engine.page (twice (Scenario.bound Scenario.textSink Scenario.panel))) = 1.
Proof. split; vm_compute; reflexivity. Qed.

(** C2 (failing input): two [bind] calls on one root whose declaration
    has a callback for the event source [go] leave two native click
    listeners on the button, one per call, and the per-root cache of event
    streams is never written. *)
Theorem second_bind_registers_again :
  let once := Scenario.bound Scenario.goCallback Scenario.toolbar in
  let again := Scenario.bound Scenario.goCallback once in
  Engine.listenersOn 1 "click" once = 1 /\
  Engine.listenersOn 1 "click" again = 2 /\
  Engine.eventCache again = ∅ /\
  Engine.calls (Engine.fire "click" 1 again)
  = [Engine.MkCall 7 1; Engine.MkCall 7 1].
Proof. repeat split; vm_compute; reflexivity. Qed.

Section UnmatchedKeys.
Import Engine.
Variable querySelectorAll : Dom.Query.

Lemma qAll_found r selector w els :
  querySelectorAll (Dom.elements (page w)) r selector = Some els ->
  Bind.qAll querySelectorAll (Dom.NElement r) selector w
  = (if bool_decide (List.length els = 0)
     then log (Warn ("No elements found for selector: " +:+ selector)) w
     else w,
     Ok els).
Proof. intros H. unfold Bind.qAll. simpl. by rewrite H. Qed.

Lemma qAll_invalid r selector w :
  querySelectorAll (Dom.elements (page w)) r selector = None ->
  Bind.qAll querySelectorAll (Dom.NElement r) selector w
  = (w, Throw (BindingError ("Invalid selector: " +:+ selector)
                            (ErrorContext selector))).
Proof. intros H. unfold Bind.qAll. simpl. by rewrite H. Qed.

Lemma bindObservable_unmatched r sub selector stream handler w :
  querySelectorAll (Dom.elements (page w)) r selector = Some [] ->
  Bind.bindObservable querySelectorAll (Dom.NElement r) sub selector stream
    handler w
  = (log (Warn ("No elements found for selector: " +:+ selector)) w, Ok tt).
Proof.
  intros H. unfold Bind.bindObservable, mbind, M_bind, bindM.
  by rewrite (qAll_found _ _ _ _ H).
Qed.

Lemma bindEach_unmatched r sub family a key stream table w :
  querySelectorAll (Dom.elements (page w)) r (Bind.dataSelector family key)
  = Some [] ->
  Bind.bindEach querySelectorAll (Dom.NElement r) sub family a
    ((key, stream) :: table) w
  = Bind.bindEach querySelectorAll (Dom.NElement r) sub family a table
      (log (Warn ("No elements found for selector: "
                  +:+ Bind.dataSelector family key)) w).
Proof.
  intros H. unfold Bind.bindEach. cbn [for_each].
  unfold bindM at 1. unfold mbind, M_bind, bindM at 1. cbn [fst snd].
  by rewrite (qAll_found _ _ _ _ H).
Qed.

(** C8: an entry whose key matches no element is processed without an
    error, and all it leaves behind is the [console.warn] diagnostic of
    the lookup: the section goes on as if the entry were not declared.
    This holds for every kind of sink table. *)
Theorem unmatched_key_noop k attr key stream b r sub w :
  querySelectorAll (Dom.elements (page w)) r (Bind.resolved k key)
  = Some [] ->
  Bind.sinkSection querySelectorAll (Dom.NElement r) sub
    (Bind.withEntry k attr key stream b) k w
  = Bind.sinkSection querySelectorAll (Dom.NElement r) sub b k
      (log (Warn ("No elements found for selector: "
                  +:+ Bind.resolved k key)) w).
Proof.
  intros H. destruct k; cbn [Bind.sinkSection Bind.resolved] in *.
  - unfold Bind.bindText. cbn [Bind.withEntry Bind.text for_each].
    unfold bindM at 1. cbn [fst snd].
    by rewrite (bindObservable_unmatched _ _ _ _ _ _ H).
  - unfold Bind.bindValue. cbn [Bind.withEntry Bind.value for_each].
    unfold bindM at 1. cbn [fst snd].
    by rewrite (bindObservable_unmatched _ _ _ _ _ _ H).
  - unfold Bind.bindHtml. cbn [Bind.withEntry Bind.html].
    by apply bindEach_unmatched.
  - unfold Bind.bindClassName. cbn [Bind.withEntry Bind.className].
    by apply bindEach_unmatched.
  - unfold Bind.bindDisabled. cbn [Bind.withEntry Bind.disabled].
    by apply bindEach_unmatched.
  - unfold Bind.bindCustom. cbn [Bind.withEntry Bind.others for_each].
    unfold bindM at 1. cbn [fst snd].
    change (Js.startsWith "data-" ("data-" +:+ attr)) with true.
    cbn [for_each]. unfold bindM at 1. cbn [fst snd].
    by rewrite (bindObservable_unmatched _ _ _ _ _ _ H).
Qed.
End UnmatchedKeys.

(** The witness of [unmatched_key_noop]: a text entry for a class no
    element carries. *)
Lemma unmatched_key_noop_witness :
  Fixture.querySelectorAll
    (Dom.elements (Engine.page Scenario.panel)) 0
    (Bind.resolved Bind.KText ".missing") = Some [] /\
  Bind.sinkSection Fixture.querySelectorAll (Dom.NElement 0) 9
    (Bind.withEntry Bind.KText "" ".missing" (Engine.Of [Js.VStr "x"])
       Scenario.textSink)
    Bind.KText Scenario.panel
  = Bind.sinkSection Fixture.querySelectorAll (Dom.NElement 0) 9
      Scenario.textSink Bind.KText
      (Engine.log
         (Engine.Warn ("No elements found for selector: "
                       +:+ Bind.resolved Bind.KText ".missing"))
         Scenario.panel).
Proof.
  split; [reflexivity|].
  apply (unmatched_key_noop Fixture.querySelectorAll Bind.KText ""
           ".missing" (Engine.Of [Js.VStr "x"]) Scenario.textSink 0 9
           Scenario.panel).
  reflexivity.
Defined.

(** ** What a [bind] call adds to the store *)

Section Growth.
Import Engine.
Variable sub : nat.

Lemma extends_refl w : extends sub w w.
Proof. split; [|done]. exists []. by rewrite app_nil_r. Qed.

Lemma extends_trans w1 w2 w3 :
  extends sub w1 w2 -> extends sub w2 w3 -> extends sub w1 w3.
Proof.
  intros [(a1 & E1 & F1) (C1 & V1 & K1)] [(a2 & E2 & F2) (C2 & V2 & K2)].
  split; [|repeat split; congruence].
  exists (a1 ++ a2). split; [by rewrite E2, E1, app_assoc|].
  by apply Forall_app.
Qed.

Lemma Grows_ret {A} (a : A) : Grows sub (ret a).
Proof. intros w. apply extends_refl. Qed.

Lemma Grows_throw {A} e : Grows sub (@throw A e).
Proof. intros w. apply extends_refl. Qed.

Lemma Grows_bindM {A B} (m : M A) (k : A -> M B) :
  Grows sub m -> (forall a, Grows sub (k a)) -> Grows sub (bindM m k).
Proof.
  intros Hm Hk w. unfold bindM. specialize (Hm w).
  destruct (m w) as [w' [a|e]]; [|done].
  eapply extends_trans; [exact Hm|apply Hk].
Qed.

Lemma Grows_for_each {A} (xs : list A) (f : A -> M unit) :
  (forall x, Grows sub (f x)) -> Grows sub (for_each xs f).
Proof.
  intros Hf. induction xs as [|x xs IH]; [apply Grows_ret|].
  apply Grows_bindM; [apply Hf|by intros _].
Qed.

Lemma Grows_modify f :
  (forall w, subs (f w) = subs w /\ closed (f w) = closed w /\
             current (f w) = current w /\ eventCache (f w) = eventCache w) ->
  Grows sub (modify f).
Proof.
  intros Hf w. destruct (Hf w) as (S & C & V & K). split; [|done].
  exists []. by rewrite app_nil_r.
Qed.

Lemma Grows_gets {A} (f : World -> A) : Grows sub (gets f).
Proof. intros w. apply extends_refl. Qed.

Lemma Grows_fresh_id : Grows sub fresh_id.
Proof. intros w. split; [|done]. exists []. by rewrite app_nil_r. Qed.

Lemma sink_next_all_ok o vs : forall last w,
  exists w' last', sink_next_all o last vs w = (w', Ok last') /\
    subs w' = subs w /\ current w' = current w /\
    listeners w' = listeners w /\ closed w' = closed w /\
    eventCache w' = eventCache w.
Proof.
  induction vs as [|v vs IH]; intros last w; [by eexists _, _|].
  cbn [sink_next_all]. unfold bindM.
  destruct (sink_next_ok o last v w)
    as (w1 & l1 & -> & S1 & V1 & L1 & C1 & K1).
  destruct (IH l1 w1) as (w2 & l2 & -> & S2 & V2 & L2 & C2 & K2).
  exists w2, l2. repeat split; congruence.
Qed.

Lemma Grows_subscribe_sink stream o : Grows sub (subscribe_sink sub stream o).
Proof.
  intros w. unfold subscribe_sink. cbn [fresh_id].
  destruct stream as [subject|vs].
  - destruct (sink_next_all_ok o
                (match current (bump w) !! subject with
                 | Some v => [v] | None => [] end) None (bump w))
      as (w1 & last & -> & S1 & V1 & _ & C1 & K1).
    cbn [fst]. destruct (bool_decide (sub ∈ closed w1)).
    + split; [|done]. exists []. by rewrite app_nil_r.
    + split; [|done]. eexists. split; [simpl; by rewrite S1|].
      by apply Forall_singleton.
  - destruct (sink_next_all_ok o vs None (bump w))
      as (w1 & last & -> & S1 & V1 & _ & C1 & K1).
    split; [|done]. exists []. by rewrite app_nil_r.
Qed.

Lemma Grows_subscribe_source es handler :
  Grows sub (subscribe_source sub es handler).
Proof.
  intros w. unfold subscribe_source. cbn [fresh_id].
  destruct es as [|stream type els]; cbn [fst].
  - split; [|done]. exists []. by rewrite app_nil_r.
  - split.
    + exists [MkSub (fresh w) sub (Source stream handler)].
      split; [|by apply Forall_singleton]. simpl.
      by destruct (existsb (subscribed_to stream) (subs w)).
    + by destruct (existsb (subscribed_to stream) (subs (bump w))).
Qed.

Lemma Grows_shareAll raw : Grows sub (Bind.shareAll raw).
Proof.
  induction raw as [|[name els] raw IH]; [apply Grows_ret|].
  cbn [Bind.shareAll]. unfold mbind, M_bind.
  apply Grows_bindM; [apply Grows_fresh_id|]. intros id.
  apply Grows_bindM; [apply IH|]. intros rest. apply Grows_ret.
Qed.
End Growth.

Section BindGrowth.
Import Engine.
Variable querySelectorAll : Dom.Query.
Variable root : Dom.Node.
Variable sub : nat.

Lemma Grows_qAll selector :
  Grows sub (Bind.qAll querySelectorAll root selector).
Proof.
  intros w. unfold Bind.qAll.
  destruct root as [| |r]; simpl; try apply extends_refl.
  destruct (querySelectorAll (Dom.elements (page w)) r selector) as [els|];
    [|apply extends_refl].
  cbn [fst]. destruct (bool_decide (List.length els = 0));
    [|apply extends_refl].
  split; [|done]. exists []. by rewrite app_nil_r.
Qed.

Lemma Grows_bindObservable selector stream handler :
  Grows sub (Bind.bindObservable querySelectorAll root sub selector stream
               handler).
Proof.
  unfold Bind.bindObservable, mbind, M_bind.
  apply Grows_bindM; [apply Grows_qAll|]. intros els.
  destruct (bool_decide (List.length els = 0));
    [apply Grows_ret|apply Grows_subscribe_sink].
Qed.

Lemma Grows_bindEach family a table :
  Grows sub (Bind.bindEach querySelectorAll root sub family a table).
Proof.
  unfold Bind.bindEach. apply Grows_for_each. intros entry.
  unfold mbind, M_bind. apply Grows_bindM; [apply Grows_qAll|]. intros els.
  destruct (bool_decide (List.length els = 0)); [apply Grows_ret|].
  apply Grows_for_each. intros el. apply Grows_subscribe_sink.
Qed.

Lemma Grows_sinkSection bindings k :
  Grows sub (Bind.sinkSection querySelectorAll root sub bindings k).
Proof.
  destruct k; cbn [Bind.sinkSection].
  - apply Grows_for_each. intros entry. apply Grows_bindObservable.
  - apply Grows_for_each. intros entry. apply Grows_bindObservable.
  - apply Grows_bindEach.
  - apply Grows_bindEach.
  - apply Grows_bindEach.
  - apply Grows_for_each. intros other.
    destruct (Js.startsWith "data-" other.1); [|apply Grows_ret].
    apply Grows_for_each. intros entry.
    destruct (entry.2); [apply Grows_bindObservable|apply Grows_ret].
Qed.

Lemma Grows_bindEvents bindings :
  Grows sub (Bind.bindEvents querySelectorAll root sub bindings).
Proof.
  unfold Bind.bindEvents, mbind, M_bind.
  apply Grows_bindM; [apply Grows_qAll|]. intros onEls.
  apply Grows_bindM; [apply Grows_gets|]. intros pg.
  apply Grows_bindM; [apply Grows_shareAll|]. intros events_.
  apply Grows_bindM; [|intros _; apply Grows_ret].
  apply Grows_for_each. intros entry.
  destruct (Bind.lookupKey entry.1 events_);
    [apply Grows_subscribe_source|apply Grows_ret].
Qed.
End BindGrowth.

Section Disposal.
Import Engine.
Variable querySelectorAll : Dom.Query.

(** [bind] adds its subscriptions to the composite it creates and
    returns. *)
Lemma bind_extends root bindings w0 w1 result :
  Bind.bind querySelectorAll root bindings w0 = (w1, Ok result) ->
  Bind.subscription result = fresh w0 /\ extends (fresh w0) w0 w1.
Proof.
  unfold Bind.bind.
  destruct (Dom.isNull root || negb (Dom.isHTMLElement root)); [done|].
  unfold mbind, M_bind, newSubscription.
  unfold bindM at 1. cbn [fresh_id].
  set (sub := fresh w0).
  set (body := bindM _ _).
  assert (Hg : Grows sub body).
  { subst body.
    apply Grows_bindM; [apply (Grows_sinkSection _ _ _ _ Bind.KText)|].
    intros _.
    apply Grows_bindM; [apply (Grows_sinkSection _ _ _ _ Bind.KValue)|].
    intros _.
    apply Grows_bindM; [apply (Grows_sinkSection _ _ _ _ Bind.KHtml)|].
    intros _.
    apply Grows_bindM; [apply (Grows_sinkSection _ _ _ _ Bind.KClassName)|].
    intros _.
    apply Grows_bindM; [apply (Grows_sinkSection _ _ _ _ Bind.KDisabled)|].
    intros _.
    apply Grows_bindM; [apply Grows_bindEvents|]. intros events_.
    apply Grows_bindM; [apply (Grows_sinkSection _ _ _ _ Bind.KCustom)|].
    intros _. apply Grows_ret. }
  intros Hrun. specialize (Hg (bump w0)). rewrite Hrun in Hg.
  split; [|exact Hg].
  subst body. revert Hrun. unfold bindM, ret.
  repeat match goal with
         | |- context [match ?m ?w with _ => _ end] =>
             destruct (m w) as [? [?|?]]
         end; try discriminate.
  by intros [= _ <-].
Qed.

(** [bind] never writes the cache of event streams. *)
Lemma bind_leaves_cache root bindings w0 w1 result :
  Bind.bind querySelectorAll root bindings w0 = (w1, Ok result) ->
  eventCache w1 = eventCache w0.
Proof.
  intros Hbind. by destruct (bind_extends _ _ _ _ _ Hbind) as (_ & _ & _ & _ & ?).
Qed.

Lemma filter_keep_all {A} (P : A -> Prop) `{forall x, Decision (P x)} l :
  Forall P l -> filter P l = l.
Proof.
  induction 1 as [|x l Hx _ IH]; [done|].
  by rewrite filter_cons_True, IH.
Qed.

Lemma filter_drop_all {A} (P : A -> Prop) `{forall x, Decision (P x)} l :
  Forall (fun x => ~ P x) l -> filter P l = [].
Proof.
  induction 1 as [|x l Hx _ IH]; [done|].
  by rewrite filter_cons_False.
Qed.

Lemma next_without_subscribers subject v w :
  subs w = [] ->
  subs (next subject v w) = [] /\ page (next subject v w) = page w /\
  console (next subject v w) = console w.
Proof.
  intros Hs. unfold next.
  destruct (current w !! subject); simpl; rewrite Hs; simpl; done.
Qed.

Lemma emit_all_without_subscribers emissions : forall w,
  subs w = [] ->
  page (emit_all emissions w) = page w /\
  console (emit_all emissions w) = console w.
Proof.
  induction emissions as [|[subject v] emissions IH]; intros w Hs; [done|].
  destruct (next_without_subscribers subject v w Hs) as (S & P & C).
  unfold emit_all in *. cbn [foldl fst snd].
  destruct (IH _ S) as [-> ->]. done.
Qed.

(** C5: [dispose] detaches every subscription the [bind] call created
    and nothing else, without touching the page or logging; a second
    [dispose] changes nothing; and when these were the only
    subscriptions, no later emission on any subject writes to the page
    or logs an error. *)
Theorem dispose_detaches root bindings w0 w1 result :
  Bind.bind querySelectorAll root bindings w0 = (w1, Ok result) ->
  fresh w0 ∉ closed w0 ->
  Forall (fun s => sub_owner s <> fresh w0) (subs w0) ->
  subs (Bind.dispose result w1) = subs w0 /\
  page (Bind.dispose result w1) = page w1 /\
  console (Bind.dispose result w1) = console w1 /\
  Bind.dispose result (Bind.dispose result w1) = Bind.dispose result w1 /\
  (subs w0 = [] ->
   forall emissions,
     page (emit_all emissions (Bind.dispose result w1)) = page w1 /\
     console (emit_all emissions (Bind.dispose result w1)) = console w1).
Proof.
  intros Hbind Hopen Hothers.
  destruct (bind_extends _ _ _ _ _ Hbind)
    as [Hsub [(added & Hsubs & Hadded) [Hclosed _]]].
  unfold Bind.dispose. cbn [foldl]. rewrite Hsub.
  assert (Hrun : unsubscribe (fresh w0) w1
            = close (fresh w0)
                (with_listeners
                   (List.filter (fun l =>
                      existsb (subscribed_to (l_stream l)) (subs w0)))
                   (with_subs (fun _ => subs w0) w1))).
  { unfold unsubscribe.
    rewrite bool_decide_eq_false_2 by congruence.
    rewrite Hsubs, filter_app.
    rewrite (filter_keep_all _ (subs w0)) by done.
    rewrite (filter_drop_all _ added), app_nil_r; [done|].
    eapply Forall_impl; [exact Hadded|]. by intros s -> ?. }
  rewrite Hrun.
  split; [done|]. split; [done|]. split; [done|]. split.
  - unfold unsubscribe at 1.
    rewrite bool_decide_eq_true_2; [done|]. simpl.
    by apply elem_of_union_l, elem_of_singleton.
  - intros Hnone emissions.
    by destruct (emit_all_without_subscribers emissions
                   (close (fresh w0)
                      (with_listeners
                         (List.filter (fun l =>
                            existsb (subscribed_to (l_stream l)) (subs w0)))
                         (with_subs (fun _ => subs w0) w1))) Hnone)
      as [-> ->].
Qed.
End Disposal.

(** The witness of [dispose_detaches]: a text sink on a subject, bound on
    a store without subscriptions. *)
Lemma dispose_detaches_witness :
  let bound := Bind.bind Fixture.querySelectorAll (Dom.NElement 0)
                 Scenario.textSink Scenario.panel in
  bound = (bound.1, Engine.Ok (Bind.MkResult 0 [])) /\
  (Engine.fresh Scenario.panel ∉ Engine.closed Scenario.panel) /\
  Forall (fun s => Engine.sub_owner s <> Engine.fresh Scenario.panel)
         (Engine.subs Scenario.panel) /\
  Engine.subs (Bind.dispose (Bind.MkResult 0 []) bound.1)
  = Engine.subs Scenario.panel /\
  Bind.dispose (Bind.MkResult 0 []) (Bind.dispose (Bind.MkResult 0 []) bound.1)
  = Bind.dispose (Bind.MkResult 0 []) bound.1.
Proof.
  intros bound.
  assert (Hrun : bound = (bound.1, Engine.Ok (Bind.MkResult 0 [])))
    by reflexivity.
  assert (Hopen : Engine.fresh Scenario.panel ∉ Engine.closed Scenario.panel)
    by apply not_elem_of_empty.
  assert (Hothers :
    Forall (fun s => Engine.sub_owner s <> Engine.fresh Scenario.panel)
           (Engine.subs Scenario.panel)) by constructor.
  pose proof (dispose_detaches Fixture.querySelectorAll (Dom.NElement 0)
                Scenario.textSink Scenario.panel bound.1
                (Bind.MkResult 0 []) Hrun Hopen Hothers)
    as (Hsubs & _ & _ & Hagain & _).
  repeat split; assumption.
Defined.

(** ** The order of the sink sections *)

Section Writes.
Import Engine Plan.

Lemma alter_agree {A} (f g : A -> A) i (l : list A) :
  (forall e, l !! i = Some e -> f e = g e) -> alter f i l = alter g i l.
Proof.
  revert i. induction l as [|x l IH]; intros i H; [done|].
  destruct i as [|i]; simpl.
  - f_equal. by apply H.
  - f_equal. apply IH. intros e He. by apply H.
Qed.

Lemma alter_absent {A} (f : A -> A) i (l : list A) :
  l !! i = None -> alter f i l = l.
Proof.
  intros H. rewrite <- (list_alter_id id l i) at 2 by done.
  apply alter_agree. intros e He. congruence.
Qed.

Lemma perform_app ws1 ws2 els :
  perform (ws1 ++ ws2) els = perform ws2 (perform ws1 els).
Proof. unfold perform. by rewrite foldl_app. Qed.

Lemma writes_for_cons setter el els v :
  writes_for setter (el :: els) v
  = writes_for setter [el] v ++ writes_for setter els v.
Proof. unfold writes_for. by destruct (setter v). Qed.

Lemma writes_for_nil setter v : writes_for setter [] v = [].
Proof. unfold writes_for. by destruct (setter v). Qed.

Lemma tap_plan_nil setter last vs : tap_plan setter [] last vs = [].
Proof.
  revert last. induction vs as [|v vs IH]; intros last; [done|].
  simpl. rewrite writes_for_nil. destruct (passes last v); apply IH.
Qed.

Lemma text_handler_writes :
  HandlerWrites (fun el v => Bind.defaultHandlers_text el v) textSetter.
Proof. by intros el v pg. Qed.

Lemma value_handler_writes : HandlerWrites Bind.valueHandler valueSetter.
Proof.
  intros el v pg. unfold Bind.valueHandler, Dom.tagOf, writes_for, perform.
  simpl. destruct (Dom.elements pg !! el) as [e|] eqn:He; simpl.
  - destruct (Dom.isFormControl (Dom.tag e)) eqn:Hf; simpl.
    + apply alter_agree. intros e' He'. simpl.
      assert (e' = e) as -> by congruence. by rewrite Hf.
    + rewrite <- (list_alter_id id (Dom.elements pg) el) at 1 by done.
      apply alter_agree. intros e' He'. simpl.
      assert (e' = e) as -> by congruence. by rewrite Hf.
  - symmetry. by apply alter_absent.
Qed.

Lemma attribute_handler_writes key :
  HandlerWrites (Bind.attributeHandler key) (attributeSetter key).
Proof.
  intros el v pg.
  unfold Bind.attributeHandler, Dom.setAttribute, attributeSetter, writes_for.
  destruct (Dom.validAttributeName key); [|done].
  destruct (bool_decide (key = "class")); [done|].
  by destruct (bool_decide (key = "disabled")).
Qed.

Lemma apply_all_writes h setter v els : forall pg,
  HandlerWrites h setter ->
  Dom.elements (apply_all h v els pg).1
  = perform (writes_for setter els v) (Dom.elements pg).
Proof.
  induction els as [|el els IH]; intros pg Hh.
  - by rewrite writes_for_nil.
  - rewrite writes_for_cons, perform_app. cbn [apply_all].
    specialize (Hh el v pg) as Hel.
    destruct (h el v pg) as [pg1 outcome]. cbn [fst] in Hel.
    specialize (IH pg1 Hh).
    destruct (apply_all h v els pg1) as [pg2 errors]. cbn [fst] in *.
    by rewrite IH, Hel.
Qed.

Lemma tap_run selector els h setter vs :
  HandlerWrites h setter ->
  forall last w,
  exists w' last',
    sink_next_all (DistinctTap selector els h) last vs w = (w', Ok last') /\
    Dom.elements (page w')
    = perform (tap_plan setter els last vs) (Dom.elements (page w)) /\
    current w' = current w /\ closed w' = closed w.
Proof.
  intros Hh. induction vs as [|v vs IH]; intros last w; [by eexists _, _|].
  cbn [sink_next_all tap_plan sink_next]. unfold bindM at 1.
  destruct (passes last v).
  - unfold bindM at 1. rewrite tap_callback_total. unfold ret at 1.
    match goal with |- context [sink_next_all _ _ vs ?w1] =>
      destruct (IH (Some v) w1) as (w' & last' & -> & He & Hc & Hcl) end.
    exists w', last'. split; [done|]. split; [|done].
    rewrite He, perform_app. simpl. by rewrite (apply_all_writes h setter).
  - unfold ret at 1.
    destruct (IH last w) as (w' & last' & -> & He & Hc & Hcl).
    by exists w', last'.
Qed.

Lemma assign_run el a vs : forall last w,
  exists w',
    sink_next_all (Assign el a) last vs w = (w', Ok last) /\
    Dom.elements (page w')
    = perform ((fun v => (el, assignSetter a v)) <$> vs)
        (Dom.elements (page w)) /\
    current w' = current w /\ closed w' = closed w.
Proof.
  induction vs as [|v vs IH]; intros last w; [by eexists|].
  cbn [sink_next_all sink_next]. unfold bindM, modify, ret.
  match goal with |- context [sink_next_all _ _ vs ?w1] =>
    destruct (IH last w1) as (w' & -> & He & Hc & Hcl) end.
  exists w'. split; [done|]. split; [|done].
  rewrite He. rewrite fmap_cons.
  change ((el, assignSetter a v) :: ((fun v => (el, assignSetter a v)) <$> vs))
    with ([(el, assignSetter a v)]
            ++ ((fun v => (el, assignSetter a v)) <$> vs)).
  rewrite perform_app. f_equal. by destruct a.
Qed.
End Writes.

Section Runs.
Import Engine Plan.
Variable querySelectorAll : Dom.Query.
Variable r : nat.
Variable sub : nat.
Variable targets : string -> option (list nat).
Variable cur : gmap nat Js.Value.
(** The selectors looked up, which find what [targets] says in every
    document the run goes through. *)
Variable used : list string.

Local Abbreviation good := (agrees querySelectorAll r targets used).

Lemma Runs_ret : Runs good cur (ret tt) finished.
Proof. intros w Hc _. by exists w, (Ok tt). Qed.

Lemma Runs_seq m k p1 p2 :
  Runs good cur m p1 -> Runs good cur k p2 ->
  Runs good cur (bindM m (fun _ => k)) (and_then p1 p2).
Proof.
  intros Hm Hk w Hc Hgood. unfold and_then in *. unfold bindM.
  destruct (completes p1) eqn:E1.
  - cbn [writes completes] in *.
    destruct (Hm w Hc) as (w1 & out1 & -> & He1 & Hc1 & Ho1).
    { intros ws1 ws2 Hw. apply (Hgood ws1 (ws2 ++ writes p2)).
      by rewrite Hw, app_assoc. }
    rewrite E1 in Ho1. subst out1.
    destruct (Hk w1 Hc1) as (w2 & out2 & -> & He2 & Hc2 & Ho2).
    { intros ws1 ws2 Hw. rewrite He1, <- perform_app.
      apply (Hgood (writes p1 ++ ws1) ws2). by rewrite Hw, app_assoc. }
    exists w2, out2. split; [done|]. split; [|done].
    by rewrite He2, He1, perform_app.
  - destruct (Hm w Hc Hgood) as (w1 & out1 & -> & He1 & Hc1 & Ho1).
    rewrite E1 in Ho1. destruct Ho1 as [e ->].
    exists w1, (Throw e). rewrite E1. eauto.
Qed.

Lemma Runs_plan m p p' :
  p = p' -> Runs good cur m p -> Runs good cur m p'.
Proof. by intros ->. Qed.

Lemma Runs_subscribe_tap selector els h setter stream :
  HandlerWrites h setter ->
  Runs good cur (subscribe_sink sub stream (DistinctTap selector els h))
       (MkSteps (tap_plan setter els None (initial cur stream)) true).
Proof.
  intros Hh w Hc _. unfold subscribe_sink. cbn [fresh_id writes completes].
  destruct stream as [subject|vs]; cbn [initial].
  - change (current (bump w)) with (current w). rewrite Hc.
    destruct (tap_run selector els h setter
                (match cur !! subject with Some v => [v] | None => [] end)
                Hh None (bump w)) as (w1 & last & -> & He & Hc1 & _).
    eexists _, (Ok tt). split; [done|].
    destruct (bool_decide (sub ∈ closed w1));
      (split; [exact He|split; [rewrite <- Hc; exact Hc1|done]]).
  - destruct (tap_run selector els h setter vs Hh None (bump w))
      as (w1 & last & -> & He & Hc1 & _).
    exists w1, (Ok tt). split; [done|].
    split; [exact He|split; [rewrite <- Hc; exact Hc1|done]].
Qed.

Lemma Runs_subscribe_assign el a stream :
  Runs good cur (subscribe_sink sub stream (Assign el a))
       (MkSteps ((fun v => (el, assignSetter a v)) <$> initial cur stream)
                true).
Proof.
  intros w Hc _. unfold subscribe_sink. cbn [fresh_id writes completes].
  destruct stream as [subject|vs]; cbn [initial].
  - change (current (bump w)) with (current w). rewrite Hc.
    destruct (assign_run el a
                (match cur !! subject with Some v => [v] | None => [] end)
                None (bump w)) as (w1 & -> & He & Hc1 & _).
    eexists _, (Ok tt). split; [done|].
    destruct (bool_decide (sub ∈ closed w1));
      (split; [exact He|split; [rewrite <- Hc; exact Hc1|done]]).
  - destruct (assign_run el a vs None (bump w)) as (w1 & -> & He & Hc1 & _).
    exists w1, (Ok tt). split; [done|].
    split; [exact He|split; [rewrite <- Hc; exact Hc1|done]].
Qed.

(** A lookup and what is done with the elements found: a rejected
    selector ends the run before anything is written. *)
Lemma Runs_qAll selector (k : list nat -> M unit)
    (entry : list nat -> list (nat * Setter)) :
  selector ∈ used ->
  (forall els, Runs good cur (k els) (MkSteps (entry els) true)) ->
  Runs good cur (bindM (Bind.qAll querySelectorAll (Dom.NElement r) selector) k)
       (on_targets (targets selector) entry).
Proof.
  intros Hu Hk w Hc Hgood.
  pose proof (Hgood [] _ eq_refl selector Hu) as Hq.
  change (perform [] (Dom.elements (page w))) with (Dom.elements (page w))
    in Hq.
  unfold bindM. destruct (targets selector) as [els|] eqn:Ht.
  - rewrite (qAll_found querySelectorAll r selector w els Hq).
    cbn [on_targets] in *.
    destruct (bool_decide (List.length els = 0)).
    + exact (Hk els (log _ w) Hc Hgood).
    + exact (Hk els w Hc Hgood).
  - rewrite (qAll_invalid querySelectorAll r selector w Hq).
    exists w, (Throw (BindingError ("Invalid selector: " +:+ selector)
                        (ErrorContext selector))).
    cbn. eauto.
Qed.

Lemma Runs_bindObservable selector stream h setter :
  selector ∈ used -> HandlerWrites h setter ->
  Runs good cur
       (Bind.bindObservable querySelectorAll (Dom.NElement r) sub selector
          stream h)
       (on_targets (targets selector) (fun els =>
          tap_plan setter els None (initial cur stream))).
Proof.
  intros Hu Hh. unfold Bind.bindObservable, mbind, M_bind.
  apply Runs_qAll; [done|]. intros els.
  destruct els as [|el els].
  - cbn [List.length]. rewrite bool_decide_eq_true_2 by done.
    rewrite tap_plan_nil. apply Runs_ret.
  - cbn [List.length]. rewrite bool_decide_eq_false_2 by done.
    by apply Runs_subscribe_tap.
Qed.

Lemma Runs_each a stream els :
  Runs good cur
       (for_each els (fun el => subscribe_sink sub stream (Assign el a)))
       (MkSteps (each_plan a els (initial cur stream)) true).
Proof.
  induction els as [|el els IH]; [apply Runs_ret|].
  cbn [for_each]. eapply Runs_plan;
    [|apply Runs_seq; [apply Runs_subscribe_assign|apply IH]].
  done.
Qed.

Lemma Runs_bindEach family a table :
  (forall key, key ∈ table.*1 -> Bind.dataSelector family key ∈ used) ->
  Runs good cur
       (Bind.bindEach querySelectorAll (Dom.NElement r) sub family a table)
       (table_plan targets
          (fun els s => each_plan a els (initial cur s))
          (Bind.dataSelector family) table).
Proof.
  unfold Bind.bindEach.
  induction table as [|[key stream] table IH]; intros Hu; [apply Runs_ret|].
  cbn [for_each table_plan fst snd]. apply Runs_seq.
  - unfold mbind, M_bind. apply Runs_qAll; [apply Hu; left|]. intros els.
    destruct els as [|el els].
    + cbn [List.length]. rewrite bool_decide_eq_true_2 by done.
      apply Runs_ret.
    + cbn [List.length]. rewrite bool_decide_eq_false_2 by done.
      apply Runs_each.
  - apply IH. intros k Hk. apply Hu. by right.
Qed.

Lemma Runs_tap_table h setter table :
  (forall key, key ∈ table.*1 -> key ∈ used) ->
  HandlerWrites h setter ->
  Runs good cur
       (for_each table (fun entry =>
          Bind.bindObservable querySelectorAll (Dom.NElement r) sub
            entry.1 entry.2 h))
       (table_plan targets
          (fun els s => tap_plan setter els None (initial cur s))
          (fun key => key) table).
Proof.
  intros Hu Hh. induction table as [|[key stream] table IH]; [apply Runs_ret|].
  cbn [for_each table_plan fst snd]. apply Runs_seq.
  - apply Runs_bindObservable; [apply Hu; left|done].
  - apply IH. intros k Hk. apply Hu. by right.
Qed.

Lemma Runs_slots key table :
  (forall selector stream,
     (selector, Bind.IsObservable stream) ∈ table -> selector ∈ used) ->
  Runs good cur
       (for_each table (fun entry =>
          match entry.2 with
          | Bind.IsObservable stream =>
              Bind.bindObservable querySelectorAll (Dom.NElement r) sub
                entry.1 stream (Bind.attributeHandler key)
          | Bind.NotObservable => ret tt
          end))
       (slots_plan targets cur key table).
Proof.
  induction table as [|[selector [stream|]] table IH]; intros Hu;
    [apply Runs_ret| |].
  - cbn [for_each slots_plan fst snd]. apply Runs_seq.
    + apply Runs_bindObservable; [eapply Hu; left|].
      apply attribute_handler_writes.
    + apply IH. intros s0 st Hin. eapply Hu. right. exact Hin.
  - cbn [for_each slots_plan fst snd].
    eapply Runs_plan; [|apply Runs_seq; [apply Runs_ret|apply IH]].
    + unfold and_then, finished. cbn. by destruct (slots_plan _ _ _ table).
    + intros s0 st Hin. eapply Hu. right. exact Hin.
Qed.

Lemma Runs_others others :
  (forall key table selector stream,
     (key, table) ∈ others -> Js.startsWith "data-" key = true ->
     (selector, Bind.IsObservable stream) ∈ table -> selector ∈ used) ->
  Runs good cur
       (for_each others (fun other =>
          if Js.startsWith "data-" other.1 then
            for_each other.2 (fun entry =>
              match entry.2 with
              | Bind.IsObservable stream =>
                  Bind.bindObservable querySelectorAll (Dom.NElement r) sub
                    entry.1 stream (Bind.attributeHandler other.1)
              | Bind.NotObservable => ret tt
              end)
          else ret tt))
       (others_plan targets cur others).
Proof.
  induction others as [|[key table] others IH]; intros Hu; [apply Runs_ret|].
  cbn [for_each others_plan fst snd].
  assert (Hrest : Runs good cur
            (for_each others (fun other =>
               if Js.startsWith "data-" other.1 then
                 for_each other.2 (fun entry =>
                   match entry.2 with
                   | Bind.IsObservable stream =>
                       Bind.bindObservable querySelectorAll (Dom.NElement r)
                         sub entry.1 stream (Bind.attributeHandler other.1)
                   | Bind.NotObservable => ret tt
                   end)
               else ret tt))
            (others_plan targets cur others)).
  { apply IH. intros k t s0 st Hin. eapply Hu. right. exact Hin. }
  destruct (Js.startsWith "data-" key) eqn:Hk.
  - apply Runs_seq; [|exact Hrest].
    apply Runs_slots. intros s0 st Hin. eapply (Hu key table); [left|done|done].
  - eapply Runs_plan; [|apply Runs_seq; [apply Runs_ret|exact Hrest]].
    unfold and_then, finished. cbn. by destruct (others_plan _ _ others).
Qed.

Lemma Runs_sinkSection b k :
  (forall selector, selector ∈ section_selectors b k -> selector ∈ used) ->
  Runs good cur (Bind.sinkSection querySelectorAll (Dom.NElement r) sub b k)
       (section_plan targets cur b k).
Proof.
  intros Hu. destruct k; cbn [Bind.sinkSection section_plan].
  - apply (Runs_tap_table _ textSetter); [|apply text_handler_writes].
    intros key Hk. apply Hu. cbn. by rewrite list_fmap_id.
  - apply (Runs_tap_table _ valueSetter); [|apply value_handler_writes].
    intros key Hk. apply Hu. cbn. by rewrite list_fmap_id.
  - apply Runs_bindEach. intros key Hk. apply Hu. cbn.
    by apply list_elem_of_fmap_2.
  - apply Runs_bindEach. intros key Hk. apply Hu. cbn.
    by apply list_elem_of_fmap_2.
  - apply Runs_bindEach. intros key Hk. apply Hu. cbn.
    by apply list_elem_of_fmap_2.
  - apply Runs_others. intros key table selector stream Hin Hk Hs.
    apply Hu. cbn [section_selectors]. apply list_elem_of_bind.
    exists (key, table). split; [|done]. cbn [fst snd]. rewrite Hk.
    apply list_elem_of_omap. by exists (selector, Bind.IsObservable stream).
Qed.

Lemma Runs_sections b ks :
  (forall k selector, k ∈ ks -> selector ∈ section_selectors b k ->
     selector ∈ used) ->
  Runs good cur
       (for_each ks (Bind.sinkSection querySelectorAll (Dom.NElement r) sub b))
       (sections_plan targets cur b ks).
Proof.
  induction ks as [|k ks IH]; intros Hu; [apply Runs_ret|].
  cbn [for_each sections_plan].
  apply Runs_seq; [apply Runs_sinkSection|apply IH].
  - intros selector. apply Hu. left.
  - intros k' selector Hk. apply Hu. by right.
Qed.
End Runs.

Section Quiet.
Import Engine.

Lemma Quiet_ret {A} (a : A) : Quiet (ret a).
Proof. intros w. by exists a, w. Qed.

Lemma Quiet_bindM {A B} (m : M A) (k : A -> M B) :
  Quiet m -> (forall a, Quiet (k a)) -> Quiet (bindM m k).
Proof.
  intros Hm Hk w. unfold bindM.
  destruct (Hm w) as (a & w1 & -> & P1 & C1).
  destruct (Hk a w1) as (b & w2 & -> & P2 & C2).
  exists b, w2. repeat split; congruence.
Qed.

Lemma Quiet_for_each {A} (xs : list A) (f : A -> M unit) :
  (forall x, Quiet (f x)) -> Quiet (for_each xs f).
Proof.
  intros Hf. induction xs as [|x xs IH]; [apply Quiet_ret|].
  apply Quiet_bindM; [apply Hf|by intros _].
Qed.

Lemma Quiet_fresh_id : Quiet fresh_id.
Proof. intros w. by eexists _, _. Qed.

Lemma Quiet_gets {A} (f : World -> A) : Quiet (gets f).
Proof. intros w. by eexists _, _. Qed.

Lemma Quiet_subscribe_source owner es handler :
  Quiet (subscribe_source owner es handler).
Proof.
  intros w. unfold subscribe_source. cbn [fresh_id].
  destruct es as [|stream type els]; [by eexists _, _|].
  eexists _, _. split; [done|].
  by destruct (existsb (subscribed_to stream) (subs (bump w))).
Qed.

Lemma Quiet_shareAll raw : Quiet (Bind.shareAll raw).
Proof.
  induction raw as [|[name els] raw IH]; [apply Quiet_ret|].
  cbn [Bind.shareAll]. unfold mbind, M_bind.
  apply Quiet_bindM; [apply Quiet_fresh_id|]. intros id.
  apply Quiet_bindM; [apply IH|]. intros rest. apply Quiet_ret.
Qed.
End Quiet.

Section BindInOrder.
Import Engine Plan.
Variable querySelectorAll : Dom.Query.
Variable r : nat.
Variable targets : string -> option (list nat).
Variable cur : gmap nat Js.Value.

Lemma section_selectors_used b k selector :
  selector ∈ section_selectors b k -> selector ∈ selectors b.
Proof.
  intros H. unfold selectors. right. apply list_elem_of_bind.
  exists k. split; [done|]. destruct k; rewrite !elem_of_cons; auto 10.
Qed.

Lemma and_then_assoc p q s :
  and_then (and_then p q) s = and_then p (and_then q s).
Proof.
  unfold and_then. destruct p as [wp [|]], q as [wq [|]]; cbn; try done.
  destruct (completes s); by rewrite app_assoc.
Qed.

Lemma and_then_finished p : and_then finished p = p.
Proof. by destruct p. Qed.

Lemma sections_plan_app b ks1 ks2 :
  sections_plan targets cur b (ks1 ++ ks2)
  = and_then (sections_plan targets cur b ks1)
             (sections_plan targets cur b ks2).
Proof.
  induction ks1 as [|k ks1 IH]; cbn [app sections_plan].
  - by rewrite and_then_finished.
  - by rewrite IH, and_then_assoc.
Qed.

Lemma bindEvents_runs sub b w :
  current w = cur ->
  querySelectorAll (Dom.elements (page w)) r "[data-on]"
  = targets "[data-on]" ->
  exists w' out,
    Bind.bindEvents querySelectorAll (Dom.NElement r) sub b w = (w', out) /\
    Dom.elements (page w') = Dom.elements (page w) /\ current w' = cur /\
    match targets "[data-on]" with
    | Some _ => exists events_, out = Ok events_
    | None => exists e, out = Throw e
    end.
Proof.
  intros Hc Hq. unfold Bind.bindEvents, mbind, M_bind. unfold bindM at 1.
  destruct (targets "[data-on]") as [onEls|] eqn:Ht.
  - rewrite (qAll_found querySelectorAll r "[data-on]" w onEls Hq).
    match goal with |- context [bindM ?m ?k ?w1] =>
      assert (Hquiet : Quiet (bindM m k)); [|destruct (Hquiet w1)
        as (events_ & w' & -> & Hp & Hcur)] end.
    { apply Quiet_bindM; [apply Quiet_gets|]. intros pg.
      apply Quiet_bindM; [apply Quiet_shareAll|]. intros events_.
      apply Quiet_bindM; [|intros _; apply Quiet_ret].
      apply Quiet_for_each. intros entry.
      destruct (Bind.lookupKey entry.1 events_);
        [apply Quiet_subscribe_source|apply Quiet_ret]. }
    exists w', (Ok events_). split; [done|].
    rewrite Hp, Hcur.
    destruct (bool_decide (List.length onEls = 0)); eauto.
  - rewrite (qAll_invalid querySelectorAll r "[data-on]" w Hq).
    eexists _, _. split; [done|]. eauto.
Qed.

(** [bindIn] completes exactly when every selector it looks up is
    accepted, and then the document holds the writes of the sections in
    the order they were taken: provided every selector of the
    declaration finds what [targets] says in each document on the
    way. *)
Lemma bindIn_runs before after b w :
  current w = cur ->
  (forall ws1 ws2,
     writes (sections_plan targets cur b (before ++ after)) = ws1 ++ ws2 ->
     agrees querySelectorAll r targets (selectors b)
       (perform ws1 (Dom.elements (page w)))) ->
  exists w' out,
    Bind.bindIn querySelectorAll before after (Dom.NElement r) b w
    = (w', out) /\
    match completes (sections_plan targets cur b (before ++ after)),
          targets "[data-on]" with
    | true, Some _ =>
        exists result, out = Ok result /\
          Dom.elements (page w')
          = perform (writes (sections_plan targets cur b (before ++ after)))
              (Dom.elements (page w))
    | _, _ => exists e, out = Throw e
    end.
Proof.
  intros Hc Hgood. rewrite sections_plan_app in *.
  unfold Bind.bindIn.
  cbn [Dom.isNull Dom.isHTMLElement orb negb].
  unfold mbind, M_bind, newSubscription.
  unfold bindM at 1. cbn [fresh_id].
  unfold bindM at 1.
  assert (Hused : forall (ks : list Bind.Kind) k selector, k ∈ ks ->
            selector ∈ section_selectors b k -> selector ∈ selectors b).
  { intros ks k selector _. apply section_selectors_used. }
  pose proof (Runs_sections querySelectorAll r (fresh w) targets cur
                (selectors b) b before (Hused before) (bump w) Hc) as Hbefore.
  pose proof (fun w0 => Runs_sections querySelectorAll r (fresh w) targets cur
                (selectors b) b after (Hused after) w0) as Hafter.
  destruct (sections_plan targets cur b before) as [ws1 ok1].
  destruct (sections_plan targets cur b after) as [ws2 ok2].
  unfold and_then in *. cbn [writes completes] in *.
  destruct ok1; cbn [writes completes] in *.
  - destruct Hbefore as (w1 & out1 & -> & He1 & Hc1 & ->).
    { intros a c Hw. apply (Hgood a (c ++ ws2)). by rewrite Hw, app_assoc. }
    unfold bindM at 1.
    destruct (bindEvents_runs (fresh w) b w1 Hc1)
      as (w2 & out2 & -> & He2 & Hc2 & Ho2).
    { rewrite He1. apply (Hgood ws1 ws2 eq_refl). by left. }
    destruct (targets "[data-on]") as [onEls|].
    + destruct Ho2 as [events_ ->]. unfold bindM at 1.
      destruct (Hafter w2 Hc2) as (w3 & out3 & -> & He3 & Hc3 & Ho3).
      { intros a c Hw. rewrite He2, He1, <- perform_app.
        apply (Hgood (ws1 ++ a) c). by rewrite Hw, app_assoc. }
      destruct ok2.
      * subst out3. eexists _, _. split; [done|]. eexists. split; [done|].
        cbn [page]. by rewrite He3, He2, He1, perform_app.
      * destruct Ho3 as [e ->]. eexists _, _. split; [done|]. eauto.
    + destruct Ho2 as [e ->]. eexists _, _. split; [done|].
      destruct ok2; eauto.
  - destruct Hbefore as (w1 & out1 & -> & He1 & Hc1 & [e ->]).
    { exact Hgood. }
    eexists _, _. split; [done|]. eauto.
Qed.
End BindInOrder.

Section Commutation.
Import Engine Plan.

Lemma setter_commute s t e :
  field_of s <> field_of t ->
  apply_setter s (apply_setter t e) = apply_setter t (apply_setter s e).
Proof.
  intros Hf. destruct e as [tag content value className disabled attributes].
  destruct s as [c|g v|c|d|n v], t as [c'|g' v'|c'|d'|n' v'];
    simpl in *; try congruence;
    repeat match goal with
           | |- context [if ?c then _ else _] => destruct c; simpl
           end; reflexivity.
Qed.

Lemma write_commute (a b : nat * Setter) (els : list Dom.Element) :
  independent a b ->
  alter (apply_setter a.2) a.1 (alter (apply_setter b.2) b.1 els)
  = alter (apply_setter b.2) b.1 (alter (apply_setter a.2) a.1 els).
Proof.
  intros Hind. destruct (decide (a.1 = b.1)) as [E|N].
  - destruct Hind as [?|Hf]; [done|]. rewrite E, !list_alter_alter_eq.
    apply alter_agree. intros e _. by apply setter_commute.
  - by apply list_alter_alter_ne.
Qed.

Lemma perform_cons a ws els :
  perform (a :: ws) els = perform ws (alter (apply_setter a.2) a.1 els).
Proof. done. Qed.

Lemma perform_commute_one a ws : forall els : list Dom.Element,
  (forall b, b ∈ ws -> independent a b) ->
  perform ws (alter (apply_setter a.2) a.1 els)
  = alter (apply_setter a.2) a.1 (perform ws els).
Proof.
  induction ws as [|b ws IH]; intros els H; [done|].
  rewrite !perform_cons, <- IH by (intros c Hc; apply H; by right).
  f_equal. symmetry. apply write_commute, H. left.
Qed.

Lemma perform_commute ws1 ws2 : forall els : list Dom.Element,
  (forall a b, a ∈ ws1 -> b ∈ ws2 -> independent a b) ->
  perform ws2 (perform ws1 els) = perform ws1 (perform ws2 els).
Proof.
  induction ws1 as [|a ws1 IH]; intros els H; [done|].
  rewrite !perform_cons, IH by (intros x y Hx Hy; apply H; [by right|done]).
  f_equal. apply perform_commute_one. intros b Hb. apply H; [left|done].
Qed.

Lemma writes_for_in setter els v w :
  w ∈ writes_for setter els v -> w.1 ∈ els /\ setter v = Some w.2.
Proof.
  unfold writes_for. destruct (setter v) as [s|]; [|by intros ?%elem_of_nil].
  intros (el & -> & Hel)%list_elem_of_fmap. done.
Qed.

Lemma tap_plan_in setter els vs : forall last w,
  w ∈ tap_plan setter els last vs ->
  w.1 ∈ els /\ exists v, setter v = Some w.2.
Proof.
  induction vs as [|v vs IH]; intros last w; [by intros ?%elem_of_nil|].
  simpl. destruct (passes last v); [|apply IH].
  intros [Hw|Hw]%elem_of_app; [|by eapply IH].
  apply writes_for_in in Hw as [? ?]. eauto.
Qed.

Lemma each_plan_in a els vs w :
  w ∈ each_plan a els vs -> w.1 ∈ els /\ exists v, w.2 = assignSetter a v.
Proof.
  unfold each_plan. intros (el & Hw & Hel)%list_elem_of_bind.
  apply list_elem_of_fmap in Hw as (v & -> & _). eauto.
Qed.

Lemma startsWith_data key :
  Js.startsWith "data-" key = true -> key <> "class" /\ key <> "disabled".
Proof. intros H. split; intros ->; discriminate H. Qed.

Lemma attributeSetter_field key v s :
  Js.startsWith "data-" key = true ->
  attributeSetter key v = Some s -> field_of s = FAttributes.
Proof.
  intros [Hc Hd]%startsWith_data. unfold attributeSetter.
  destruct (Dom.validAttributeName key); [|done].
  rewrite !bool_decide_eq_false_2 by done. by intros [= <-].
Qed.
End Commutation.

Section PlanShape.
Import Engine Plan.
Variable targets : string -> option (list nat).
Variable cur : gmap nat Js.Value.

Lemma table_plan_in entry resolve table : forall w,
  w ∈ writes (table_plan targets entry resolve table) ->
  exists key stream els,
    key ∈ table.*1 /\ targets (resolve key) = Some els /\
    w ∈ entry els stream.
Proof.
  induction table as [|[key stream] table IH]; intros w.
  - by intros ?%elem_of_nil.
  - cbn [table_plan fst snd]. unfold and_then, on_targets.
    destruct (targets (resolve key)) as [els|] eqn:Ht;
      [|by intros ?%elem_of_nil].
    cbn [writes completes]. intros [Hw|Hw]%elem_of_app.
    + exists key, stream, els. split; [left|done].
    + destruct (IH w Hw) as (k & s & e & Hk & ? & ?).
      exists k, s, e. split; [by right|done].
Qed.

Lemma slots_plan_field key table : forall w,
  Js.startsWith "data-" key = true ->
  w ∈ writes (slots_plan targets cur key table) ->
  field_of w.2 = FAttributes.
Proof.
  induction table as [|[selector [stream|]] table IH]; intros w Hk.
  - by intros ?%elem_of_nil.
  - cbn [slots_plan fst snd]. unfold and_then, on_targets.
    destruct (targets selector) as [els|]; [|by intros ?%elem_of_nil].
    cbn [writes completes]. intros [Hw|Hw]%elem_of_app; [|by eapply IH].
    apply tap_plan_in in Hw as [_ [v Hv]].
    by eapply attributeSetter_field.
  - cbn [slots_plan fst snd]. by apply IH.
Qed.

Lemma others_plan_field others : forall w,
  w ∈ writes (others_plan targets cur others) ->
  field_of w.2 = FAttributes.
Proof.
  induction others as [|[key table] others IH]; intros w.
  - by intros ?%elem_of_nil.
  - cbn [others_plan fst snd].
    destruct (Js.startsWith "data-" key) eqn:Hk; [|apply IH].
    unfold and_then.
    destruct (completes (slots_plan targets cur key table)).
    + cbn [writes]. intros [Hw|Hw]%elem_of_app; [|by eapply IH].
      by eapply slots_plan_field.
    + by apply slots_plan_field.
Qed.

(** Every write of a section goes to the field of its kind. *)
Lemma section_plan_field b k w :
  w ∈ writes (section_plan targets cur b k) ->
  field_of w.2 = kind_field k.
Proof.
  destruct k; cbn [section_plan kind_field]; intros Hw.
  - destruct (table_plan_in _ _ _ _ Hw) as (? & ? & ? & _ & _ & Hin).
    apply tap_plan_in in Hin as [_ [v Hv]]. by injection Hv as <-.
  - destruct (table_plan_in _ _ _ _ Hw) as (? & ? & ? & _ & _ & Hin).
    apply tap_plan_in in Hin as [_ [v Hv]]. by injection Hv as <-.
  - destruct (table_plan_in _ _ _ _ Hw) as (? & ? & ? & _ & _ & Hin).
    apply each_plan_in in Hin as [_ [v ->]]. done.
  - destruct (table_plan_in _ _ _ _ Hw) as (? & ? & ? & _ & _ & Hin).
    apply each_plan_in in Hin as [_ [v ->]]. done.
  - destruct (table_plan_in _ _ _ _ Hw) as (? & ? & ? & _ & _ & Hin).
    apply each_plan_in in Hin as [_ [v ->]]. done.
  - by eapply others_plan_field.
Qed.

Lemma text_html_independent b a c :
  content_disjoint targets b ->
  a ∈ writes (section_plan targets cur b Bind.KText) ->
  c ∈ writes (section_plan targets cur b Bind.KHtml) ->
  a.1 <> c.1.
Proof.
  intros Hd Ha Hc. cbn [section_plan] in Ha, Hc.
  destruct (table_plan_in _ _ _ _ Ha) as (tk & ? & tels & Htk & Hte & Hin).
  destruct (table_plan_in _ _ _ _ Hc) as (hk & ? & hels & Hhk & Hhe & Hin').
  apply tap_plan_in in Hin as [Hin _].
  apply each_plan_in in Hin' as [Hin' _].
  intros E. rewrite E in Hin. by eapply Hd.
Qed.

Lemma sections_independent b x y :
  content_disjoint targets b -> x <> y ->
  forall a c,
    a ∈ writes (section_plan targets cur b x) ->
    c ∈ writes (section_plan targets cur b y) -> independent a c.
Proof.
  intros Hd Hxy a c Ha Hc.
  pose proof (section_plan_field b x a Ha) as Fa.
  pose proof (section_plan_field b y c Hc) as Fc.
  destruct (decide (kind_field x = kind_field y)) as [E|N].
  - left. destruct x, y; try done; try discriminate E.
    + by eapply text_html_independent.
    + intros E'. symmetry in E'. revert E'.
      by eapply text_html_independent.
  - right. congruence.
Qed.

(** The sections complete together, and then their writes follow one
    another. *)
Lemma sections_plan_completes b ks :
  completes (sections_plan targets cur b ks)
  = forallb (fun k => completes (section_plan targets cur b k)) ks.
Proof.
  induction ks as [|k ks IH]; [done|].
  cbn [sections_plan forallb]. unfold and_then.
  destruct (completes (section_plan targets cur b k)) eqn:E; [exact IH|].
  exact E.
Qed.

Lemma sections_plan_writes b ks :
  completes (sections_plan targets cur b ks) = true ->
  writes (sections_plan targets cur b ks)
  = k ← ks; writes (section_plan targets cur b k).
Proof.
  induction ks as [|k ks IH]; [done|].
  cbn [sections_plan mbind list_bind]. unfold and_then.
  destruct (completes (section_plan targets cur b k)) eqn:E.
  - cbn [writes completes]. intros H. by rewrite IH.
  - intros H. congruence.
Qed.

Lemma sections_perform_perm b ks ks' :
  content_disjoint targets b -> ks ≡ₚ ks' ->
  forall els : list Dom.Element,
    perform (k ← ks; writes (section_plan targets cur b k)) els
    = perform (k ← ks'; writes (section_plan targets cur b k)) els.
Proof.
  intros Hd. induction 1 as [|k ks ks' _ IH|x y ks|ks1 ks2 ks3 _ IH1 _ IH2];
    intros els.
  - done.
  - cbn [mbind list_bind]. by rewrite !perform_app, IH.
  - cbn [mbind list_bind]. rewrite !app_assoc, !(perform_app (_ ++ _)).
    f_equal. rewrite !perform_app.
    destruct (decide (x = y)) as [->|Hxy]; [done|].
    apply perform_commute. intros a c Ha Hc.
    by eapply (sections_independent b y x).
  - by rewrite IH1.
Qed.

(** The same sections in another order: they complete together, make
    the same writes and leave the same document. *)
Lemma sections_plan_perm b ks ks' :
  content_disjoint targets b -> ks ≡ₚ ks' ->
  completes (sections_plan targets cur b ks) = true ->
  completes (sections_plan targets cur b ks') = true /\
  (forall a, a ∈ writes (sections_plan targets cur b ks')
             -> a ∈ writes (sections_plan targets cur b ks)) /\
  (forall els : list Dom.Element,
     perform (writes (sections_plan targets cur b ks')) els
     = perform (writes (sections_plan targets cur b ks)) els).
Proof.
  intros Hd Hperm Hok.
  assert (Hok' : completes (sections_plan targets cur b ks') = true).
  { rewrite sections_plan_completes in *.
    apply forallb_forall. intros k Hk.
    rewrite forallb_forall in Hok. apply Hok.
    apply list_elem_of_In. rewrite Hperm. by apply list_elem_of_In. }
  split; [exact Hok'|].
  rewrite !sections_plan_writes by done. split.
  - intros a (k & Ha & Hk)%list_elem_of_bind. apply list_elem_of_bind.
    exists k. split; [done|]. by rewrite Hperm.
  - intros els. symmetry. by apply sections_perform_perm.
Qed.
End PlanShape.

Section SinkOrder.
Import Engine Plan.
Variable querySelectorAll : Dom.Query.

(** [bind] takes its sections in the order text, value, html, className,
    disabled, events, custom attributes. *)
Lemma bind_is_bindIn root b w :
  Bind.bind querySelectorAll root b w
  = Bind.bindIn querySelectorAll
      [Bind.KText; Bind.KValue; Bind.KHtml; Bind.KClassName; Bind.KDisabled]
      [Bind.KCustom] root b w.
Proof.
  unfold Bind.bind, Bind.bindIn.
  destruct (Dom.isNull root || negb (Dom.isHTMLElement root)); [done|].
  unfold mbind, M_bind, newSubscription, for_each, Bind.sinkSection.
  unfold bindM, ret.
  repeat match goal with
         | |- context [match ?m ?w with _ => _ end] =>
             destruct (m w) as [? [?|?]]
         end; reflexivity.
Qed.

(** C7 (as amended): a [bind] that completes with its sink sections
    taken in one order completes with them taken in any other order, and
    leaves the same elements, when
    - every selector of the declaration finds the same elements in the
      document as it is and in every document that writes of the sinks
      lead to from it (no sink changes what a key resolves to),
    - no element is the target of both a text and an html entry, and
    - no [select] element is the target of a value entry. *)
Theorem sink_order_irrelevant r b w before after before' after' w1 result1 :
  (forall ws selector,
     (forall a, a ∈ ws ->
        a ∈ writes (sections_plan
                      (querySelectorAll (Dom.elements (page w)) r)
                      (current w) b (before ++ after))) ->
     selector ∈ selectors b ->
     querySelectorAll (perform ws (Dom.elements (page w))) r selector
     = querySelectorAll (Dom.elements (page w)) r selector) ->
  content_disjoint (querySelectorAll (Dom.elements (page w)) r) b ->
  no_select_value (Dom.elements (page w))
    (querySelectorAll (Dom.elements (page w)) r) b ->
  before ++ after ≡ₚ before' ++ after' ->
  Bind.bindIn querySelectorAll before after (Dom.NElement r) b w
  = (w1, Ok result1) ->
  exists w2 result2,
    Bind.bindIn querySelectorAll before' after' (Dom.NElement r) b w
    = (w2, Ok result2) /\
    Dom.elements (page w2) = Dom.elements (page w1).
Proof.
  intros Hstable Hdisjoint _ Hperm Hrun.
  set (targets := querySelectorAll (Dom.elements (page w)) r) in *.
  destruct (bindIn_runs querySelectorAll r targets (current w)
              before after b w eq_refl) as (w1' & out1 & H1 & Ho1).
  { intros ws1 ws2 Hw selector Hs. apply Hstable; [|done].
    intros a Ha. rewrite Hw. apply elem_of_app. by left. }
  rewrite Hrun in H1. injection H1 as <- <-.
  destruct (completes (sections_plan targets (current w) b (before ++ after)))
    eqn:Hok; [|by destruct Ho1].
  destruct (sections_plan_perm targets (current w) b _ _ Hdisjoint Hperm Hok)
    as (Hok' & Hin & Hsame).
  destruct (bindIn_runs querySelectorAll r targets (current w)
              before' after' b w eq_refl) as (w2 & out2 & H2 & Ho2).
  { intros ws1 ws2 Hw selector Hs. apply Hstable; [|done].
    intros a Ha. apply Hin. rewrite Hw. apply elem_of_app. by left. }
  rewrite Hok' in Ho2.
  destruct (targets "[data-on]") as [onEls|]; [|by destruct Ho1].
  destruct Ho1 as (r1 & [= <-] & He1), Ho2 as (r2 & -> & He2).
  exists w2, r2. split; [done|]. by rewrite He2, He1, Hsame.
Qed.
End SinkOrder.

Lemma htmlFirst_permutation :
  OrderScenario.sourceOrder ++ [Bind.KCustom]
  ≡ₚ OrderScenario.htmlFirst ++ [Bind.KCustom].
Proof.
  symmetry.
  apply (Permutation_cons_app [Bind.KText; Bind.KValue]
           [Bind.KClassName; Bind.KDisabled; Bind.KCustom] Bind.KHtml).
  reflexivity.
Qed.

(** C7, as the specification words it, fails: with a text and an html
    entry for the same element, [bind] in its own order leaves the markup,
    and with the html section taken first it leaves the plain text. *)
Lemma sink_order_counterexample :
  ~ (forall (q : Dom.Query) root b w before after before' after',
       before ++ after ≡ₚ before' ++ after' ->
       Dom.elements
         (Engine.page (Bind.bindIn q before after root b w).1)
       = Dom.elements
           (Engine.page (Bind.bindIn q before' after' root b w).1)).
Proof.
  intros H.
  specialize (H Fixture.querySelectorAll (Dom.NElement 0) OrderScenario.both
                Scenario.panel OrderScenario.sourceOrder [Bind.KCustom]
                OrderScenario.htmlFirst [Bind.KCustom] htmlFirst_permutation).
  vm_compute in H. discriminate H.
Qed.

(** The order also matters when a sink changes what a selector matches:
    with the text entry addressed by the class a className entry sets, the
    text is written only if the className section is taken first. No html
    entry is involved. *)
Lemma selector_order_counterexample :
  let run order :=
    Fixture.after
      (Bind.bindIn Fixture.querySelectorAll order [Bind.KCustom]
         (Dom.NElement 0) OrderScenario.classAndText) OrderScenario.badge in
  Tests.textContent 1 (run OrderScenario.sourceOrder) = Some (Dom.Text "") /\
  Tests.textContent 1 (run OrderScenario.classFirst)
  = Some (Dom.Text "burning").
Proof. split; vm_compute; reflexivity. Qed.

Section FixtureQueries.
Import Plan.

(** The elements a selector of the examples finds depend on what the
    selector looks at only. *)
Lemma query_alter sel root (f : Dom.Element -> Dom.Element) :
  (forall e, Fixture.matches sel (f e) = Fixture.matches sel e) ->
  forall (els : list Dom.Element) (g : nat -> nat) i,
    fst <$> List.filter
              (fun ie => negb (Nat.eqb ie.1 root) && Fixture.matches sel ie.2)
              (imap (fun j e => (g j, e)) (alter f i els))
    = fst <$> List.filter
                (fun ie => negb (Nat.eqb ie.1 root)
                           && Fixture.matches sel ie.2)
                (imap (fun j e => (g j, e)) els).
Proof.
  intros Hf. induction els as [|e els IH]; intros g i; [done|].
  destruct i as [|i].
  - change (alter f 0 (e :: els)) with (f e :: els).
    cbn [imap List.filter fst snd]. rewrite Hf.
    by destruct (negb (Nat.eqb (g 0) root) && Fixture.matches sel e).
  - change (alter f (S i) (e :: els)) with (e :: alter f i els).
    cbn [imap List.filter fst snd].
    specialize (IH (g ∘ S) i).
    destruct (negb (Nat.eqb (g 0) root) && Fixture.matches sel e);
      cbn [fmap list_fmap]; [f_equal|]; exact IH.
Qed.

(** A write to the content, the value, the class or the disabled state
    of an element leaves its other attributes. *)
Lemma apply_setter_attributes s e :
  field_of s <> FAttributes ->
  Dom.attributes (apply_setter s e) = Dom.attributes e.
Proof.
  destruct s as [c|guarded v|c|d|n v]; cbn; try done.
  by destruct (guarded && negb (Dom.isFormControl (Dom.tag e))).
Qed.

Lemma attribute_selector_stable name selector ws r :
  (Fixture.parseSelector selector = Some (Fixture.HasAttribute name) \/
   exists v, Fixture.parseSelector selector
             = Some (Fixture.AttributeIs name v)) ->
  name <> "class" -> name <> "disabled" ->
  Forall (fun a : nat * Setter => field_of a.2 <> FAttributes) ws ->
  forall els : list Dom.Element,
    Fixture.querySelectorAll (perform ws els) r selector
    = Fixture.querySelectorAll els r selector.
Proof.
  intros Hsel Hc Hd. induction 1 as [|a ws Ha _ IH]; intros els; [done|].
  rewrite perform_cons, IH. unfold Fixture.querySelectorAll.
  assert (Hattr : forall e, Fixture.attributeOf (apply_setter a.2 e) name
                            = Fixture.attributeOf e name).
  { intros e. unfold Fixture.attributeOf.
    rewrite !bool_decide_eq_false_2 by done.
    by rewrite apply_setter_attributes. }
  destruct Hsel as [->|[v ->]]; cbn [mbind option_bind]; f_equal;
    apply query_alter; intros e; cbn [Fixture.matches]; by rewrite Hattr.
Qed.
End FixtureQueries.

Lemma separate_plan_fields a :
  a ∈ Plan.writes
        (Plan.sections_plan
           (Fixture.querySelectorAll
              (Dom.elements (Engine.page OrderScenario.article)) 0)
           (Engine.current OrderScenario.article) OrderScenario.separate
           (OrderScenario.sourceOrder ++ [Bind.KCustom])) ->
  Plan.field_of a.2 <> Plan.FAttributes.
Proof.
  intros Ha. vm_compute in Ha.
  repeat (apply elem_of_cons in Ha as [->|Ha]; [discriminate|]).
  by apply elem_of_nil in Ha.
Qed.

Lemma separate_stable ws selector :
  (forall a, a ∈ ws ->
     a ∈ Plan.writes
           (Plan.sections_plan
              (Fixture.querySelectorAll
                 (Dom.elements (Engine.page OrderScenario.article)) 0)
              (Engine.current OrderScenario.article) OrderScenario.separate
              (OrderScenario.sourceOrder ++ [Bind.KCustom]))) ->
  selector ∈ Plan.selectors OrderScenario.separate ->
  Fixture.querySelectorAll
    (Plan.perform ws (Dom.elements (Engine.page OrderScenario.article))) 0
    selector
  = Fixture.querySelectorAll
      (Dom.elements (Engine.page OrderScenario.article)) 0 selector.
Proof.
  intros Hws Hsel.
  assert (Hfields : Forall (fun a : nat * Plan.Setter =>
                              Plan.field_of a.2 <> Plan.FAttributes) ws).
  { apply Forall_forall. intros a Ha. by apply separate_plan_fields, Hws. }
  unfold Plan.selectors in Hsel. cbn in Hsel.
  repeat (apply elem_of_cons in Hsel as [->|Hsel]);
    [..|by apply elem_of_nil in Hsel].
  - apply (attribute_selector_stable "data-on");
      [left; reflexivity|discriminate|discriminate|exact Hfields].
  - apply (attribute_selector_stable "data-text");
      [right; exists "title"; reflexivity|discriminate|discriminate
      |exact Hfields].
  - apply (attribute_selector_stable "data-value");
      [right; exists "author"; reflexivity|discriminate|discriminate
      |exact Hfields].
  - apply (attribute_selector_stable "data-html");
      [right; exists "body"; reflexivity|discriminate|discriminate
      |exact Hfields].
  - apply (attribute_selector_stable "data-class");
      [right; exists "body"; reflexivity|discriminate|discriminate
      |exact Hfields].
Qed.

Lemma separate_content_disjoint :
  Plan.content_disjoint
    (Fixture.querySelectorAll
       (Dom.elements (Engine.page OrderScenario.article)) 0)
    OrderScenario.separate.
Proof.
  intros tkey hkey tels hels el Ht Hh Htt Hht Hel.
  apply list_elem_of_singleton in Ht as ->.
  apply list_elem_of_singleton in Hh as ->.
  vm_compute in Htt, Hht.
  injection Htt as <-. injection Hht as <-.
  apply list_elem_of_singleton in Hel as ->.
  intros Hin. apply list_elem_of_singleton in Hin. discriminate Hin.
Qed.

Lemma separate_no_select_value :
  Plan.no_select_value
    (Dom.elements (Engine.page OrderScenario.article))
    (Fixture.querySelectorAll
       (Dom.elements (Engine.page OrderScenario.article)) 0)
    OrderScenario.separate.
Proof.
  intros key found el e Hk Hfound Hel He.
  apply list_elem_of_singleton in Hk as ->.
  vm_compute in Hfound. injection Hfound as <-.
  apply list_elem_of_singleton in Hel as ->.
  vm_compute in He. injection He as <-. discriminate.
Qed.

(** The witness of [sink_order_irrelevant]: a title bound as text, an
    input bound by value, a body bound as markup and class, all found by
    their [data-*] markers, which no sink writes; the html section taken
    first gives the same elements. *)
Lemma sink_order_irrelevant_witness :
  let q := Fixture.querySelectorAll in
  let run := Bind.bindIn q OrderScenario.sourceOrder [Bind.KCustom]
               (Dom.NElement 0) OrderScenario.separate OrderScenario.article in
  run = (run.1, Engine.Ok (Bind.MkResult 0 [])) /\
  exists w2 result2,
    Bind.bindIn q OrderScenario.htmlFirst [Bind.KCustom] (Dom.NElement 0)
      OrderScenario.separate OrderScenario.article
    = (w2, Engine.Ok result2) /\
    Dom.elements (Engine.page w2) = Dom.elements (Engine.page run.1).
Proof.
  intros q run.
  assert (Hrun : run = (run.1, Engine.Ok (Bind.MkResult 0 [])))
    by (vm_compute; reflexivity).
  split; [exact Hrun|].
  apply (sink_order_irrelevant q 0 OrderScenario.separate
           OrderScenario.article OrderScenario.sourceOrder [Bind.KCustom]
           OrderScenario.htmlFirst [Bind.KCustom] run.1 (Bind.MkResult 0 [])).
  - exact separate_stable.
  - exact separate_content_disjoint.
  - exact separate_no_select_value.
  - exact htmlFirst_permutation.
  - exact Hrun.
Defined.

(** ** The event-stream cache *)

Section EventCache.
Import Engine.
Variable querySelectorAll : Dom.Query.

(** What [getOrCreateEventStream] would give [bind]: once it has made a
    stream for a root, event name and selector, asking again returns that
    stream and leaves the store alone. *)
Lemma getOrCreateEventStream_hit r eventName selector w w1 stream :
  Bind.getOrCreateEventStream querySelectorAll (Dom.NElement r) eventName
    selector w = (w1, Ok stream) ->
  stream <> Never ->
  Bind.getOrCreateEventStream querySelectorAll (Dom.NElement r) eventName
    selector w1 = (w1, Ok stream).
Proof.
  unfold Bind.getOrCreateEventStream, mbind, M_bind.
  set (cacheKey := eventName +:+ ":" +:+ selector).
  assert (Hhit : forall w' m, eventCache w' !! r = Some m ->
            m !! cacheKey = Some stream ->
            bindM (fun w0 => match eventCache w0 !! r with
                             | Some m0 => (w0, Ok m0)
                             | None => (with_eventCache <[r:=∅]> w0, Ok ∅)
                             end)
              (fun elementMap : gmap string EventObs =>
                 match elementMap !! cacheKey with
                 | Some cached => ret cached
                 | None =>
                     bindM (Bind.qAll querySelectorAll (Dom.NElement r) selector)
                       (fun elements =>
                          if bool_decide (List.length elements = 0)
                          then ret Never
                          else bindM fresh_id (fun id =>
                                 bindM (modify (with_eventCache (fun c =>
                                          <[r:=<[cacheKey:=SharedEvents id eventName elements]>
                                                 (default ∅ (c !! r))]> c)))
                                       (fun _ => ret (SharedEvents id eventName elements))))
                 end) w' = (w', Ok stream)).
  { intros w' m Hm Hk. unfold bindM. rewrite Hm, Hk. done. }
  intros Hrun Hne. revert Hrun. unfold bindM at 1.
  destruct (eventCache w !! r) as [m|] eqn:Hm.
  - destruct (m !! cacheKey) as [cached|] eqn:Hk.
    + intros [= <- <-]. by apply (Hhit w m).
    + unfold bindM at 1.
      destruct (Bind.qAll querySelectorAll (Dom.NElement r) selector w)
        as [w2 [els|e]] eqn:Hq; [|done].
      destruct (bool_decide (List.length els = 0)); [by intros [= _ <-]|].
      unfold bindM, fresh_id, modify, ret. intros [= <- <-].
      eapply Hhit; simpl; [apply lookup_insert_eq|apply lookup_insert_eq].
  - rewrite lookup_empty. unfold bindM at 1.
    destruct (Bind.qAll querySelectorAll (Dom.NElement r) selector
                (with_eventCache <[r:=∅]> w)) as [w2 [els|e]] eqn:Hq; [|done].
    destruct (bool_decide (List.length els = 0)); [by intros [= _ <-]|].
    unfold bindM, fresh_id, modify, ret. intros [= <- <-].
    eapply Hhit; simpl; [apply lookup_insert_eq|apply lookup_insert_eq].
Qed.
End EventCache.

(** ** The repository's tests and the examples of its documentation *)

(** "should bind text content" *)
Example should_bind_text_content :
  let bound := Scenario.bound Tests.textBinding Tests.container in
  Tests.textContent 1 bound = Some (Dom.Text "Hello") /\
  Tests.textContent 1 (Engine.next 0 (Js.VStr "Updated") bound)
  = Some (Dom.Text "Updated").
Proof. split; vm_compute; reflexivity. Qed.

(** "should handle events" *)
Example should_handle_events :
  let bound := Scenario.bound Tests.clickBinding Tests.withButton in
  List.length (Engine.calls (Engine.fire "click" 1 bound)) = 1.
Proof. vm_compute. reflexivity. Qed.

(** One element of three fails on every emission: the other two follow
    both emissions, each failure is logged, the subscription stays. *)
Example one_bad_element :
  let w := Engine.next 0 (Js.VStr "b")
             (Engine.next 0 (Js.VStr "a") Tests.itemsBound) in
  Tests.textContent 1 w = Some (Dom.Text "b") /\
  Tests.textContent 2 w = Some (Dom.Text "") /\
  Tests.textContent 3 w = Some (Dom.Text "b") /\
  List.length (Engine.console w) = 2 /\
  Engine.sub_id <$> Engine.subs w = Engine.sub_id <$> Engine.subs Tests.itemsBound.
Proof. repeat split; vm_compute; reflexivity. Qed.

(** The example of the [Route] documentation. *)
Example parseRoute_users :
  let route := Router.parseRoute Router.plainSearchParams
                 "#/users/42?tab=details" in
  Router.hash route = "#/users/42?tab=details" /\
  Router.path route = "/users/42" /\
  Router.segments route = ["users"; "42"] /\
  Router.params route !! "tab" = Some "details".
Proof. repeat split; vm_compute; reflexivity. Qed.

(** ** The convention-based [bindTemplate] *)

Section TemplateFacts.
Import Engine.
Variable querySelectorAll : Dom.Query.

(** An entry without elements is skipped, without a diagnostic. *)
Lemma template_unmatched root sub family a key stream table w :
  querySelectorAll (Dom.elements (page w)) root (Bind.dataSelector family key)
  = Some [] ->
  Template.bindEach querySelectorAll root sub family a ((key, stream) :: table) w
  = Template.bindEach querySelectorAll root sub family a table w.
Proof.
  intros H. unfold Template.bindEach. cbn [for_each].
  unfold bindM at 1. unfold mbind, M_bind, bindM at 1. cbn [fst snd].
  unfold Template.qAll at 1. by rewrite H.
Qed.
End TemplateFacts.

(** Every sink of the convention-based [bindTemplate] is a per-element
    subscriber without a distinct filter: the text sink too writes again
    for an equal value. *)
Example template_text_rewrites_equal_value :
  let bound := Fixture.after
                 (Template.bindTemplate Fixture.querySelectorAll 0
                    (Template.MkBindings [("content", Engine.Subj 0)]
                       [] [] [] [] []))
                 Scenario.panel in
  Dom.writesTo 1
    (Engine.page (Engine.next 0 (Js.VStr "x")
                    (Engine.next 0 (Js.VStr "x") bound))) = 2.
Proof. vm_compute. reflexivity. Qed.

(* ===================================================================== *)
(** * Further properties *)
(* ===================================================================== *)

(** ** More on strings *)

Lemma split_no_separator c s :
  Js.contains c s = false -> Js.split c s = [s].
Proof.
  induction s as [|a r IH]; simpl; [done|].
  intros [Ha Hr]%orb_false_elim. rewrite Ha, (IH Hr). done.
Qed.

Lemma split_at_separator c a b :
  Js.contains c a = false ->
  Js.split c (a +:+ String c b) = a :: Js.split c b.
Proof.
  induction a as [|x a IH]; simpl.
  - intros _. by rewrite Ascii.eqb_refl.
  - intros [Hx Ha]%orb_false_elim. by rewrite Hx, (IH Ha).
Qed.

Lemma contains_append c a b :
  Js.contains c (a +:+ b) = Js.contains c a || Js.contains c b.
Proof.
  induction a as [|x a IH]; simpl; [done|]. by rewrite IH, orb_assoc.
Qed.

Lemma contains_join c sep segs :
  Js.contains c sep = false ->
  Forall (fun seg => Js.contains c seg = false) segs ->
  Js.contains c (Js.join sep segs) = false.
Proof.
  intros Hsep. induction 1 as [|seg segs Hseg _ IH]; [done|].
  unfold Js.join in *. destruct segs as [|seg' segs]; [done|].
  change (String.concat sep (seg :: seg' :: segs))
    with (seg +:+ sep +:+ String.concat sep (seg' :: segs)).
  by rewrite !contains_append, Hseg, Hsep, IH.
Qed.

(** [split] undoes [join] on pieces that hold no separator. *)
Lemma split_join c segs :
  segs <> [] ->
  Forall (fun seg => Js.contains c seg = false) segs ->
  Js.split c (Js.join (String c "") segs) = segs.
Proof.
  intros Hne Hall. induction Hall as [|seg segs Hseg Hall IH]; [done|].
  unfold Js.join in *. destruct segs as [|seg' segs].
  - by apply split_no_separator.
  - change (String.concat (String c "") (seg :: seg' :: segs))
      with (seg +:+ String c (String.concat (String c "") (seg' :: segs))).
    rewrite split_at_separator by done. by rewrite IH.
Qed.

Section RouteShapes.
Variable URLSearchParams : string -> list (string * string).

Local Abbreviation parseRoute := (Router.parseRoute URLSearchParams).
Local Abbreviation getRoute := (Router.getRoute URLSearchParams).

(** The route of a hash in terms of the pieces around its first two
    question marks. *)
Lemma parseRoute_pieces x :
  parseRoute (String "#" x)
  = let pieces := Js.split_limit "?" 2 x in
    let pathPart := Js.or_else (default "" (pieces !! 0%nat)) "/" in
    let path := if Js.startsWithChar "/" pathPart || bool_decide (pathPart = "")
                then Js.or_else pathPart "/" else String "/" pathPart in
    Router.MkRoute (String "#" x) path
      (List.filter Js.nonempty (Js.split "/" path))
      (if Js.nonempty (default "" (pieces !! 1%nat))
       then Router.collect_params
              (URLSearchParams (default "" (pieces !! 1%nat)))
       else ∅).
Proof. reflexivity. Qed.

(** X1: a hash put together from a path that starts with [/] and a query
    string, neither holding a [?], is taken apart again: [hash] is the
    whole input, [path] the path, [segments] its non-empty pieces between
    slashes, and [params] the pairs [URLSearchParams] reads from the
    query (none for the empty query). *)
Theorem parseRoute_path_query p q :
  Js.startsWithChar "/" p = true ->
  Js.contains "?" p = false ->
  Js.contains "?" q = false ->
  parseRoute ("#" +:+ p +:+ "?" +:+ q)
  = Router.MkRoute ("#" +:+ p +:+ "?" +:+ q) p
      (List.filter Js.nonempty (Js.split "/" p))
      (if Js.nonempty q then Router.collect_params (URLSearchParams q)
       else ∅).
Proof.
  intros Hslash Hp Hq.
  change ("#" +:+ p +:+ "?" +:+ q) with (String "#" (p +:+ String "?" q)).
  rewrite parseRoute_pieces. unfold Js.split_limit.
  rewrite split_at_separator, (split_no_separator _ _ Hq) by done.
  cbn [take lookup list_lookup default from_option id]. cbv zeta.
  destruct p as [|a p]; [done|]. cbn [Js.or_else].
  rewrite Hslash. done.
Qed.

(** X2: joining non-empty segments without [/] or [?] by slashes behind
    [#/] and parsing the result gives the same segments back, the joined
    path and no parameters. *)
Theorem parseRoute_segments_roundtrip segs :
  Forall (fun seg => seg <> "" /\ Js.contains "/" seg = false /\
                     Js.contains "?" seg = false) segs ->
  parseRoute ("#/" +:+ Js.join "/" segs)
  = Router.MkRoute ("#/" +:+ Js.join "/" segs) ("/" +:+ Js.join "/" segs)
      segs ∅.
Proof.
  intros Hsegs.
  assert (Hq : Js.contains "?" (Js.join "/" segs) = false).
  { apply contains_join; [done|].
    eapply Forall_impl; [exact Hsegs|]. by intros seg (_ & _ & ?). }
  change ("#/" +:+ Js.join "/" segs)
    with (String "#" (String "/" (Js.join "/" segs))).
  rewrite parseRoute_pieces. unfold Js.split_limit.
  rewrite (split_no_separator "?" (String "/" (Js.join "/" segs))) by done.
  cbn [take lookup list_lookup default from_option id Js.or_else Js.startsWithChar
       Js.nonempty].
  change (Ascii.eqb "/" "/") with true. cbn [orb].
  f_equal.
  change (Js.split "/" (String "/" (Js.join "/" segs)))
    with ("" :: Js.split "/" (Js.join "/" segs)).
  cbn [List.filter Js.nonempty].
  destruct segs as [|seg segs]; [done|].
  rewrite split_join; [|done|].
  - apply forallb_filter_id. apply forallb_forall. intros s Hs.
    apply list_elem_of_In in Hs.
    rewrite Forall_forall in Hsegs. destruct (Hsegs s Hs) as (Hne & _).
    by apply nonempty_true.
  - eapply Forall_impl; [exact Hsegs|]. by intros s (_ & ? & _).
Qed.

(** X3: the slash after [#] is optional: for a fragment that does not
    start with [/], [#fragment] and [#/fragment] give routes with the same
    path, segments and parameters. *)
Theorem parseRoute_slash_optional p :
  Js.startsWithChar "/" p = false ->
  Router.path (parseRoute ("#" +:+ p)) = Router.path (parseRoute ("#/" +:+ p)) /\
  Router.segments (parseRoute ("#" +:+ p))
  = Router.segments (parseRoute ("#/" +:+ p)) /\
  Router.params (parseRoute ("#" +:+ p)) = Router.params (parseRoute ("#/" +:+ p)).
Proof.
  intros Hp.
  change ("#" +:+ p) with (String "#" p).
  change ("#/" +:+ p) with (String "#" (String "/" p)).
  rewrite !parseRoute_pieces. unfold Js.split_limit.
  change (Js.split "?" (String "/" p))
    with (match Js.split "?" p with
          | [] => ["/"]
          | p0 :: ps => String "/" p0 :: ps
          end).
  pose proof (split_not_nil "?" p) as Hne.
  assert (Hhead : forall p0 ps, Js.split "?" p = p0 :: ps ->
            Js.startsWithChar "/" p0 = false).
  { intros p0 ps. destruct p as [|a r]; simpl.
    - by intros [= <- _].
    - destruct (Ascii.eqb a "?"); [by intros [= <- _]|].
      destruct (Js.split "?" r); by intros [= <- _]. }
  destruct (Js.split "?" p) as [|p0 ps]; [done|].
  specialize (Hhead p0 ps eq_refl).
  assert (Hpath :
    (let pathPart := Js.or_else p0 "/" in
     if Js.startsWithChar "/" pathPart || bool_decide (pathPart = "")
     then Js.or_else pathPart "/" else String "/" pathPart)
    = String "/" p0).
  { destruct p0 as [|a r]; [done|]. cbn [Js.or_else]. rewrite Hhead.
    by rewrite bool_decide_eq_false_2. }
  destruct ps as [|q ps]; cbn [take lookup list_lookup default from_option id];
    cbv zeta in *; rewrite Hpath; done.
Qed.

(** X4: only the text between the first and the second [?] is read as
    the query: whatever follows a second [?] changes neither the path, nor
    the segments, nor the parameters of the route. *)
Theorem parseRoute_second_question_mark p q extra :
  Js.contains "?" p = false ->
  Js.contains "?" q = false ->
  let long := parseRoute ("#" +:+ p +:+ "?" +:+ q +:+ "?" +:+ extra) in
  let short := parseRoute ("#" +:+ p +:+ "?" +:+ q) in
  Router.path long = Router.path short /\
  Router.segments long = Router.segments short /\
  Router.params long = Router.params short.
Proof.
  intros Hp Hq.
  change ("#" +:+ p +:+ "?" +:+ q +:+ "?" +:+ extra)
    with (String "#" (p +:+ String "?" (q +:+ String "?" extra))).
  change ("#" +:+ p +:+ "?" +:+ q) with (String "#" (p +:+ String "?" q)).
  cbv zeta. rewrite !parseRoute_pieces. unfold Js.split_limit.
  rewrite !split_at_separator, (split_no_separator _ _ Hq) by done.
  pose proof (split_not_nil "?" extra).
  destruct (Js.split "?" extra); done.
Qed.

(** X5: the own properties of [params] once the pairs of
    [URLSearchParams] are copied into it: under every key but
    [__proto__] the value of the last pair with that key, and no entry
    for a key without a pair; under [__proto__] no entry, whatever the
    pairs. (Reading [params[key]] also finds what [{}] inherits; that is
    not an entry of [params].) *)
Theorem collect_params_lookup kvs k :
  Router.collect_params kvs !! k
  = if String.eqb k "__proto__" then None
    else snd <$> last (filter (fun kv => kv.1 = k) kvs).
Proof.
  induction kvs as [|[k' v] kvs IH] using rev_ind.
  - cbn. by destruct (String.eqb k "__proto__").
  - rewrite collect_params_snoc, filter_app.
    destruct (decide (k' = k)) as [->|Hne].
    + rewrite filter_cons_True by done. rewrite filter_nil, last_snoc.
      destruct (String.eqb k "__proto__") eqn:E; [|apply lookup_insert_eq].
      exact IH.
    + rewrite filter_cons_False by done. rewrite filter_nil, app_nil_r.
      destruct (String.eqb k' "__proto__"); [exact IH|].
      by rewrite lookup_insert_ne.
Qed.

End RouteShapes.

(** ** shareReplay, for any pipeline *)

Section ShareReplayFacts.
Context {A B : Type} (p : Rx.Pipe A B).

Lemma last_or_app (d : option B) xs ys :
  Rx.last_or (Rx.last_or d xs) ys = Rx.last_or d (xs ++ ys).
Proof.
  unfold Rx.last_or. rewrite last_app.
  destruct (last ys); [done|]. by destruct (last xs).
Qed.

(** With no observer left the stream is as it was created. *)
Lemma step_settled sh act :
  (Rx.observers p sh = [] -> sh = Rx.idle p) ->
  Rx.observers p (Rx.step p sh act).1 = [] ->
  (Rx.step p sh act).1 = Rx.idle p.
Proof.
  intros Hinv. destruct act as [o|o|a]; cbn [Rx.step fst].
  - unfold Rx.subscribe.
    destruct (Rx.upstream p sh); [|destruct (Rx.connect p)];
      cbn [fst Rx.observers]; intros H; by apply app_nil in H as [_ ?].
  - unfold Rx.unsubscribe.
    destruct (bool_decide (o ∈ Rx.observers p sh)); [|exact Hinv].
    by destruct (filter (fun x => x <> o) (Rx.observers p sh)).
  - unfold Rx.next. destruct (Rx.upstream p sh) as [s|] eqn:Hu; [|exact Hinv].
    destruct (Rx.feed p s a). cbn [fst Rx.observers]. intros H.
    rewrite (Hinv H) in Hu. discriminate.
Qed.

Lemma run_settled t : forall sh,
  (Rx.observers p sh = [] -> sh = Rx.idle p) ->
  Rx.observers p (Rx.run p sh t).1 = [] ->
  (Rx.run p sh t).1 = Rx.idle p.
Proof.
  induction t as [|act t IH]; intros sh Hinv; [exact Hinv|].
  cbn [Rx.run]. pose proof (step_settled sh act Hinv) as Hstep.
  destruct (Rx.step p sh act) as [sh1 d1]. specialize (IH sh1 Hstep).
  by destruct (Rx.run p sh1 t).
Qed.

(** While one observer stays, the source subscription is the one it
    opened: it has been fed every notification since. *)
Lemma run_connected o0 t : forall sh s,
  o0 ∈ Rx.observers p sh -> Rx.upstream p sh = Some s ->
  Rx.Unsubscribe o0 ∉ t ->
  o0 ∈ Rx.observers p (Rx.run p sh t).1 /\
  Rx.upstream p (Rx.run p sh t).1 = Some (Rx.feed_all p s (Mvu.sent t)).1 /\
  Rx.buffer p (Rx.run p sh t).1
  = Rx.last_or (Rx.buffer p sh) (Rx.feed_all p s (Mvu.sent t)).2.
Proof.
  induction t as [|act t IH]; intros sh s Ho Hu Hno.
  - cbn. split; [done|]. split; [done|]. unfold Rx.last_or. simpl.
    by destruct (Rx.buffer p sh).
  - apply not_elem_of_cons in Hno as [Hne Hno].
    cbn [Rx.run].
    destruct act as [o|o|a]; cbn [Rx.step].
    + unfold Rx.subscribe. rewrite Hu.
      specialize (IH (Rx.MkShared p (Rx.observers p sh ++ [o]) (Some s)
                        (Rx.buffer p sh)) s).
      destruct (Rx.run p _ t) as [sh2 d2]. cbn [fst] in *.
      apply IH; [|done|done]. apply elem_of_app. by left.
    + assert (Hkeep : o0 ∈ filter (fun x => x <> o) (Rx.observers p sh)).
      { apply list_elem_of_filter. split; [congruence|done]. }
      unfold Rx.unsubscribe.
      destruct (bool_decide (o ∈ Rx.observers p sh)).
      * destruct (filter (fun x => x <> o) (Rx.observers p sh))
          as [|x xs] eqn:E; [by apply elem_of_nil in Hkeep|].
        specialize (IH (Rx.MkShared p (x :: xs) (Rx.upstream p sh)
                          (Rx.buffer p sh)) s).
        destruct (Rx.run p _ t) as [sh2 d2]. cbn [fst] in *.
        by apply IH.
      * specialize (IH sh s).
        destruct (Rx.run p sh t) as [sh2 d2]. cbn [fst] in *. by apply IH.
    + unfold Rx.next. rewrite Hu.
      change (Mvu.sent (Rx.Next a :: t)) with (a :: Mvu.sent t).
      cbn [Rx.feed_all].
      destruct (Rx.feed p s a) as [s1 bs1].
      specialize (IH (Rx.MkShared p (Rx.observers p sh) (Some s1)
                        (Rx.last_or (Rx.buffer p sh) bs1)) s1).
      destruct (Rx.run p _ t) as [sh2 d2]. cbn [fst] in *.
      destruct (IH Ho eq_refl Hno) as (Ho2 & Hu2 & Hb2).
      destruct (Rx.feed_all p s1 (Mvu.sent t)) as [s2 bs2]. cbn [fst snd] in *.
      cbn [Rx.buffer] in Hb2.
      split; [done|]. split; [done|]. by rewrite Hb2, last_or_app.
Qed.
End ShareReplayFacts.

(** ** createHashRoute$: what a subscriber is handed *)

Section HashRouteReplay.
Variable URLSearchParams : string -> list (string * string).

Local Abbreviation getRoute := (Router.getRoute URLSearchParams).
Local Abbreviation pipe := (Router.hashRoutePipe URLSearchParams).
Local Abbreviation routeEmissions := (Router.routeEmissions URLSearchParams).
Local Abbreviation createHashRoute :=
  (Router.createHashRoute URLSearchParams).

(** X6: when every subscriber of [createHashRoute$()] has left, the next
    subscriber is handed exactly one route, the one computed when
    [createHashRoute$] was called, whatever [hashchange] events were
    delivered or missed in between. *)
Theorem hashRoute_restart initial (t : list Rx.Action) o :
  Rx.observers _ (Rx.run (pipe initial) (createHashRoute initial) t).1 = [] ->
  (Rx.subscribe (pipe initial) o
     (Rx.run (pipe initial) (createHashRoute initial) t).1).2
  = [(o, getRoute initial)].
Proof.
  intros Hnone.
  rewrite (run_settled (pipe initial) t (createHashRoute initial));
    [done|done|exact Hnone].
Qed.

(** X7: while the subscriber that connected [createHashRoute$()] stays,
    a later subscriber is handed, synchronously and alone, the last route
    the stream has emitted: the route of the last [hashchange] that
    changed the hash, or the initial route. *)
Theorem hashRoute_late_subscriber initial o0 o (t : list Rx.Action) :
  Rx.Unsubscribe o0 ∉ t ->
  (Rx.subscribe (pipe initial) o
     (Rx.run (pipe initial) (createHashRoute initial)
        (Rx.Subscribe o0 :: t)).1).2
  = [(o, default (getRoute initial)
           (last (routeEmissions initial (Routes.hashchanges t))))].
Proof.
  intros Hstays. cbn [Rx.run Rx.step].
  set (first := Rx.subscribe (pipe initial) o0 (createHashRoute initial)).
  assert (Hfirst : first
    = (Rx.MkShared (pipe initial) [o0] (Some (tt, Some (getRoute initial)))
         (Some (getRoute initial)), [(o0, getRoute initial)])) by done.
  rewrite Hfirst. clear first Hfirst.
  pose proof (run_connected (pipe initial) o0 t
                (Rx.MkShared (pipe initial) [o0]
                   (Some (tt, Some (getRoute initial)))
                   (Some (getRoute initial)))
                (tt, Some (getRoute initial))) as Hrun.
  destruct (Rx.run (pipe initial) _ t) as [sh d]. cbn [fst] in *.
  destruct Hrun as (_ & Hu & Hb); [apply list_elem_of_singleton; done|done|done|].
  unfold Rx.subscribe. rewrite Hu, Hb.
  unfold Router.routeEmissions.
  change (Rx.connect (pipe initial))
    with ((tt, Some (getRoute initial)), [getRoute initial]).
  cbv beta iota zeta.
  change (Routes.hashchanges t) with (@Mvu.sent string t).
  cbn [Rx.buffer]. unfold Rx.last_or.
  change ([getRoute initial] ++ ?l) with (getRoute initial :: l).
  rewrite last_cons.
  by destruct (last (Rx.feed_all (pipe initial) (tt, Some (getRoute initial))
                       (Mvu.sent t)).2).
Qed.
End HashRouteReplay.

(** ** runMVU: messages while subscribers are attached *)

Section MvuLive.
Context {Model Msg : Type}.
Variable init : Model.
Variable update : Model -> Msg -> Model.

(** X8: a message sent on [msg$] is delivered to every subscriber of
    [model$] once, in subscription order, as the fold of all messages the
    loop has consumed in its current connection followed by this one;
    sent while nobody is subscribed it reaches no one. *)
Theorem model_live_delivery (t : list (@Rx.Action Msg)) (m : Msg) :
  (Rx.next (Mvu.foldPipe init update) m
     (Rx.run (Mvu.foldPipe init update) (Mvu.model_stream init update) t).1).2
  = (fun o => (o, foldl update init ((Mvu.consumed [] [] t).2 ++ [m])))
      <$> (Mvu.consumed [] [] t).1.
Proof.
  change (Mvu.model_stream init update) with (Mvu.loop_of init update [] []).
  rewrite loop_run by done.
  destruct (Mvu.consumed [] [] t) as [obs h]. cbn [fst snd].
  destruct obs as [|o obs]; [done|].
  unfold Rx.next. cbn. rewrite foldl_app. cbn.
  by rewrite app_nil_r.
Qed.
End MvuLive.

(** ** bindHashLinks *)

Section HashLinkFacts.
Import HashLinks.
Variable querySelectorAll : Dom.Query.
Variable parseFragment : string -> string.

Local Abbreviation onClick := (HashLinks.onClick parseFragment).
Local Abbreviation click := (HashLinks.click parseFragment).
Local Abbreviation bindHashLinks := (HashLinks.bindHashLinks querySelectorAll).

Lemma onClick_keeps link ev w :
  document (onClick link ev w).2 = document w /\
  clickListeners (onClick link ev w).2 = clickListeners w.
Proof.
  unfold HashLinks.onClick. destruct (passedOn ev); [done|].
  destruct (Dom.getAttribute link "href" (document w)) as [href|]; [|done].
  destruct (negb (Js.nonempty href)); [done|].
  by destruct (negb (Js.startsWithChar "#" href)).
Qed.

(** A second [onClick] of the same link finds the event handled, or
    stops where the first one stopped. *)
Lemma onClick_again link ev w :
  onClick link (onClick link ev w).1 (onClick link ev w).2 = onClick link ev w.
Proof.
  unfold HashLinks.onClick at 2 3.
  destruct (passedOn ev) eqn:Hp; cbn [fst snd].
  { unfold HashLinks.onClick. by rewrite Hp. }
  destruct (Dom.getAttribute link "href" (document w)) as [href|] eqn:Hh;
    cbn [fst snd].
  2: { unfold HashLinks.onClick. by rewrite Hp, Hh. }
  destruct (negb (Js.nonempty href)) eqn:Hn; cbn [fst snd].
  { unfold HashLinks.onClick. by rewrite Hp, Hh, Hn. }
  destruct (negb (Js.startsWithChar "#" href)) eqn:Hs; cbn [fst snd].
  { unfold HashLinks.onClick. by rewrite Hp, Hh, Hn, Hs. }
  unfold HashLinks.onClick. by rewrite Hp, Hh, Hn, Hs.
Qed.

(** The listeners of a dispatch run one after the other; after the
    first listener of the link the others change nothing. *)
Lemma dispatch_settled link (ls : list ClickListener) ev w :
  foldl (fun st l =>
           if bool_decide (cl_link l = link)
           then onClick (cl_link l) st.1 st.2 else st)
        (onClick link ev w) ls
  = onClick link ev w.
Proof.
  induction ls as [|l ls IH]; [done|]. cbn [foldl].
  destruct (bool_decide (cl_link l = link)) eqn:E; [|exact IH].
  apply bool_decide_eq_true in E. rewrite E, onClick_again. exact IH.
Qed.

Lemma dispatch_bound link (ls : list ClickListener) ev w :
  link ∈ cl_link <$> ls ->
  foldl (fun st l =>
           if bool_decide (cl_link l = link)
           then onClick (cl_link l) st.1 st.2 else st)
        (ev, w) ls
  = onClick link ev w.
Proof.
  induction ls as [|l ls IH]; [by intros ?%elem_of_nil|].
  cbn [foldl fmap list_fmap]. intros Hin.
  destruct (bool_decide (cl_link l = link)) eqn:E.
  - apply bool_decide_eq_true in E. rewrite E. cbn [fst snd].
    apply dispatch_settled.
  - apply bool_decide_eq_false in E.
    apply elem_of_cons in Hin as [Hin|Hin]; [congruence|]. by apply IH.
Qed.

(** X9: after [bindHashLinks], a click with the primary button, without
    modifier keys and not yet handled, on a link found under the root
    whose [href] starts with [#] is cancelled and sets
    [window.location.hash] to that [href] — once, also when the link
    carries listeners of earlier [bindHashLinks] calls. *)
Theorem hash_link_click root w w1 sub links link href ev :
  bindHashLinks root w = (w1, Engine.Ok sub) ->
  querySelectorAll (Dom.elements (document w)) root "a[data-link]"
  = Some links ->
  link ∈ links ->
  Dom.getAttribute link "href" (document w) = Some href ->
  Js.startsWithChar "#" href = true ->
  passedOn ev = false ->
  click link ev w1
  = (preventDefault ev, set_location_hash parseFragment href w1).
Proof.
  intros Hbind Hq Hlink Hhref Hhash Hplain.
  unfold HashLinks.bindHashLinks in Hbind. rewrite Hq in Hbind.
  injection Hbind as <- <-.
  unfold HashLinks.click. cbn [clickListeners].
  rewrite dispatch_bound.
  - unfold HashLinks.onClick. rewrite Hplain. cbn [document].
    rewrite Hhref. destruct href as [|a href]; [done|].
    cbn [Js.nonempty negb]. by rewrite Hhash.
  - rewrite fmap_app. apply elem_of_app. right.
    rewrite <- list_fmap_compose. cbn. by rewrite list_fmap_id.
Qed.

(** X10: a click that was handled already, is not a primary-button
    click or has a modifier key, and any click on a link whose [href] is
    missing or does not start with [#], is left to the browser: the event
    is not cancelled and the window is unchanged, however many listeners
    the link has. *)
Theorem hash_link_click_passed_on link ev w :
  passedOn ev = true \/
  match Dom.getAttribute link "href" (document w) with
  | Some href => Js.startsWithChar "#" href = false
  | None => True
  end ->
  click link ev w = (ev, w).
Proof.
  intros Hskip.
  assert (Hone : onClick link ev w = (ev, w)).
  { unfold HashLinks.onClick. destruct (passedOn ev); [done|].
    destruct Hskip as [?|Hhref]; [done|].
    destruct (Dom.getAttribute link "href" (document w)) as [href|]; [|done].
    destruct (negb (Js.nonempty href)); [done|]. by rewrite Hhref. }
  unfold HashLinks.click.
  induction (clickListeners w) as [|l ls IH]; [done|]. cbn [foldl].
  destruct (bool_decide (cl_link l = link)) eqn:E; [|exact IH].
  apply bool_decide_eq_true in E. rewrite E. cbn [fst snd].
  rewrite Hone. exact IH.
Qed.

(** X11: unsubscribing the subscription [bindHashLinks] returned removes
    exactly the click listeners that call added and touches neither the
    document nor the location; unsubscribing again changes nothing. *)
Theorem hash_links_unsubscribe root w w1 sub :
  bindHashLinks root w = (w1, Engine.Ok sub) ->
  Forall (fun l => cl_owner l < fresh w) (clickListeners w) ->
  clickListeners (unsubscribe sub w1) = clickListeners w /\
  document (unsubscribe sub w1) = document w /\
  locationHash (unsubscribe sub w1) = locationHash w /\
  unsubscribe sub (unsubscribe sub w1) = unsubscribe sub w1.
Proof.
  intros Hbind Hold. unfold HashLinks.bindHashLinks in Hbind.
  destruct (querySelectorAll _ _ _) as [links|]; [|done].
  injection Hbind as <- <-.
  assert (Hfilter :
    filter (fun l => cl_owner l <> fresh w)
      (clickListeners w
         ++ ((fun link => MkClickListener link (fresh w)) <$> links))
    = clickListeners w).
  { rewrite filter_app.
    rewrite (filter_keep_all _ (clickListeners w)).
    - rewrite filter_drop_all; [by rewrite app_nil_r|].
      apply Forall_fmap, Forall_forall. intros link _. cbn. by intros ?.
    - eapply Forall_impl; [exact Hold|]. intros l Hl. cbn in *. lia. }
  unfold unsubscribe. cbn [clickListeners document locationHash HashLinks.fresh].
  rewrite Hfilter. split; [done|]. split; [done|]. split; [done|].
  f_equal. apply filter_keep_all.
  eapply Forall_impl; [exact Hold|]. intros l Hl. cbn in *. lia.
Qed.
End HashLinkFacts.

(** ** router-app.ts *)

Section RouterAppFacts.
Import RouterApp.
Variable URLSearchParams : string -> list (string * string).

Local Abbreviation parseRoute := (Router.parseRoute URLSearchParams).

(** X12: over any sequence of messages the [update] of the router
    application keeps counter and route apart: the count ends as the
    initial count plus one for every [Inc] and minus one for every [Dec],
    whatever route changes come between, and the route is that of the
    last [RouteChanged], or the initial one. Numbers are modelled by
    integers, which is exact while the count stays a safe integer; the
    hypothesis keeps it so. *)
Theorem update_fold (m : Model) (msgs : list Msg) :
  (Z.abs (count m) + Z.of_nat (List.length msgs) <= 2 ^ 53)%Z ->
  count (foldl update m msgs)
  = (count m + foldr Z.add 0 (step_of <$> msgs))%Z /\
  route (foldl update m msgs) = default (route m) (last (omap route_of msgs)).
Proof.
  intros _. revert m. induction msgs as [|msg msgs IH]; intros m.
  - cbn. split; [lia|done].
  - cbn [foldl]. destruct (IH (update m msg)) as [-> ->].
    destruct msg as [r| |]; cbn [update count route fmap list_fmap foldr
                                   step_of omap list_omap route_of].
    + split; [lia|]. rewrite last_cons.
      by destruct (last (omap route_of msgs)).
    + split; [lia|done].
    + split; [lia|done].
Qed.

Lemma path_before_query p q :
  Js.contains "?" p = false ->
  Router.path (parseRoute ("#" +:+ p +:+ "?" +:+ q))
  = Router.path (parseRoute ("#" +:+ p)).
Proof.
  intros Hp.
  change ("#" +:+ p +:+ "?" +:+ q) with (String "#" (p +:+ String "?" q)).
  change ("#" +:+ p) with (String "#" p).
  rewrite !parseRoute_pieces. unfold Js.split_limit.
  rewrite split_at_separator, (split_no_separator _ _ Hp) by done.
  pose proof (split_not_nil "?" q).
  destruct (Js.split "?" q); done.
Qed.

(** X13: the page the router application shows depends on the hash
    only up to its first [?]: adding a query string to a hash changes
    neither [isCounter] nor the title. *)
Theorem page_ignores_query p q c c' :
  Js.contains "?" p = false ->
  isCounter (parseRoute ("#" +:+ p +:+ "?" +:+ q))
  = isCounter (parseRoute ("#" +:+ p)) /\
  title (MkModel (parseRoute ("#" +:+ p +:+ "?" +:+ q)) c)
  = title (MkModel (parseRoute ("#" +:+ p)) c').
Proof.
  intros Hp. unfold title, isCounter. cbn [route].
  by rewrite (path_before_query p q Hp).
Qed.
End RouterAppFacts.

(** ** bind: what a failed call leaves behind *)

Section NoRollback.
Import Engine.
Variable querySelectorAll : Dom.Query.

(** X14: [bind] does not undo what it has set up when a later entry
    fails: with a first text entry that matches elements and a second
    one whose selector is rejected, the call throws the invalid-selector
    [BindingError] and the subscription of the first entry stays in the
    store, attached to its subject and elements. *)
Theorem bind_no_rollback r key s bad badStream rest values htmls classes
    disableds callbacks others w els :
  querySelectorAll (Dom.elements (page w)) r key = Some els ->
  els <> [] ->
  current w !! s = None ->
  querySelectorAll (Dom.elements (page w)) r bad = None ->
  fresh w ∉ closed w ->
  Bind.bind querySelectorAll (Dom.NElement r)
    (Bind.MkBindings ((key, Subj s) :: (bad, badStream) :: rest) values htmls
       classes disableds callbacks others) w
  = (with_subs (fun l =>
       l ++ [MkSub (S (fresh w)) (fresh w)
               (Sink s (DistinctTap key els
                          (fun el v => Bind.defaultHandlers_text el v)) None)])
       (bump (bump w)),
     Throw (BindingError ("Invalid selector: " +:+ bad) (ErrorContext bad))).
Proof.
  intros Hkey Hels Hcold Hbad Hopen.
  unfold Bind.bind. cbn [Dom.isNull Dom.isHTMLElement negb orb].
  unfold mbind, M_bind, newSubscription.
  unfold bindM at 1. cbn [fresh_id].
  unfold bindM at 1. unfold Bind.bindText. cbn [Bind.text for_each].
  unfold bindM at 1. cbn [fst snd].
  unfold Bind.bindObservable at 1. unfold mbind, M_bind. unfold bindM at 1.
  rewrite (qAll_found querySelectorAll r key (bump w) els Hkey).
  destruct els as [|el els]; [done|].
  cbn [List.length]. rewrite bool_decide_eq_false_2 by done.
  unfold subscribe_sink. cbn [fresh_id current bump].
  rewrite Hcold. cbn [sink_next_all]. unfold ret at 1.
  cbn [closed bump]. rewrite bool_decide_eq_false_2 by done.
  unfold bindM at 1. unfold Bind.bindObservable at 1.
  unfold mbind, M_bind. unfold bindM at 1.
  rewrite qAll_invalid; [done|]. exact Hbad.
Qed.
End NoRollback.

(** ** What one emission does to the matched elements *)

Section FanOut.
Import Engine Plan.

(** The same write on several elements: each of them gets it, the
    others stay. *)
Lemma perform_same s els : forall (l : list Dom.Element) i,
  (forall e, apply_setter s (apply_setter s e) = apply_setter s e) ->
  perform ((fun el => (el, s)) <$> els) l !! i
  = (if bool_decide (i ∈ els) then apply_setter s else id) <$> l !! i.
Proof.
  intros l i Hidem. revert l.
  induction els as [|el els IH]; intros l.
  - cbn. by destruct (l !! i).
  - rewrite fmap_cons. unfold perform in *. cbn [foldl fst snd].
    rewrite IH. destruct (decide (i = el)) as [->|Hne].
    + rewrite list_lookup_alter, decide_True by done.
      rewrite (bool_decide_eq_true_2 (el ∈ el :: els)) by left.
      destruct (l !! el) as [e|]; [|done]. cbn.
      destruct (bool_decide (el ∈ els)); [by rewrite Hidem|done].
    + rewrite list_lookup_alter_ne by done.
      destruct (bool_decide (i ∈ els)) eqn:E.
      * apply bool_decide_eq_true in E.
        by rewrite (bool_decide_eq_true_2 (i ∈ el :: els)) by (by right).
      * apply bool_decide_eq_false in E.
        rewrite (bool_decide_eq_false_2 (i ∈ el :: els)); [done|].
        intros [?|?]%elem_of_cons; done.
Qed.

(** An apply function that writes does not throw. *)
Lemma apply_all_quiet h v els : forall pg,
  (forall el pg, (h el v pg).2 = Ok tt) ->
  (apply_all h v els pg).2 = [].
Proof.
  intros pg Hok. revert pg.
  induction els as [|el els IH]; intros pg; [done|].
  cbn [apply_all]. specialize (Hok el pg).
  destruct (h el v pg) as [pg1 outcome]. cbn [snd] in Hok. subst outcome.
  specialize (IH pg1). by destruct (apply_all h v els pg1).
Qed.

(** One value through the observer of [bindObservable]. *)
Lemma tap_once selector els h last v w :
  passes last v = true ->
  sink_next (DistinctTap selector els h) last v w
  = (MkWorld (apply_all h v els (page w)).1 (current w) (subs w)
       (listeners w) (eventCache w)
       (console w ++ (error_entry selector <$> (apply_all h v els (page w)).2))
       (calls w) (closed w) (fresh w),
     Ok (Some v)).
Proof.
  intros Hpass. cbn [sink_next]. rewrite Hpass. unfold bindM.
  by rewrite tap_callback_total.
Qed.

(** The writes the text sink records, one per element. *)
Lemma text_trace v els : forall pg,
  Dom.mutations
    (apply_all (fun el v => Bind.defaultHandlers_text el v) v els pg).1
  = Dom.mutations pg
    ++ ((fun el => Dom.MkMutation el Dom.PContent (Js.text_of v)) <$> els).
Proof.
  induction els as [|el els IH]; intros pg.
  - cbn. by rewrite app_nil_r.
  - cbn [apply_all Bind.defaultHandlers_text].
    specialize (IH (Dom.set_textContent el (Js.text_of v) pg)).
    destruct (apply_all _ v els _) as [pg2 errors]. cbn [fst] in *.
    rewrite IH. cbn. by rewrite <- app_assoc.
Qed.

(** X15: a value that passes the distinct filter of a text sink is
    assigned to [textContent] on every element matched when the sink was
    bound, once per element and in their order, and each of them then
    holds the text; nothing is logged and no subscription is touched.
    (The value is one [String] prints as the model does.) *)
Theorem text_sink_fan_out selector els last v w :
  passes last v = true ->
  Js.printsExactly v = true ->
  let w' := (sink_next (DistinctTap selector els
                          (fun el v => Bind.defaultHandlers_text el v))
               last v w).1 in
  Dom.mutations (page w')
  = Dom.mutations (page w)
    ++ ((fun el => Dom.MkMutation el Dom.PContent (Js.text_of v)) <$> els) /\
  (forall el e, el ∈ els -> Dom.elements (page w) !! el = Some e ->
     Dom.content <$> Dom.elements (page w') !! el
     = Some (Dom.Text (Js.text_of v))) /\
  console w' = console w /\ subs w' = subs w.
Proof.
  intros Hpass _ w'. subst w'. rewrite tap_once by done.
  cbn [fst page console subs].
  rewrite (apply_all_quiet _ v els (page w)) by done.
  split; [apply text_trace|]. split; [|by rewrite app_nil_r].
  intros el e Hel He.
  rewrite (apply_all_writes _ textSetter) by apply text_handler_writes.
  unfold writes_for, textSetter.
  rewrite perform_same by done. rewrite He.
  by rewrite bool_decide_eq_true_2.
Qed.

Lemma tagOf_set_value el s x pg :
  Dom.tagOf x (Dom.set_value el s pg) = Dom.tagOf x pg.
Proof.
  unfold Dom.tagOf, Dom.set_value, Dom.write. cbn [Dom.elements].
  destruct (decide (x = el)) as [->|Hne].
  - rewrite list_lookup_alter, decide_True by done.
    by destruct (Dom.elements pg !! el).
  - by rewrite list_lookup_alter_ne.
Qed.

(** The assignments the value sink records: one per form control among
    [els]. *)
Lemma value_trace v els : forall pg,
  Dom.mutations (apply_all Bind.valueHandler v els pg).1
  = Dom.mutations pg
    ++ ((fun el => Dom.MkMutation el Dom.PValue (Js.text_of v))
          <$> List.filter
                (fun el => match Dom.tagOf el pg with
                           | Some t => Dom.isFormControl t
                           | None => false
                           end) els).
Proof.
  induction els as [|el els IH]; intros pg.
  - cbn. by rewrite app_nil_r.
  - cbn [apply_all List.filter]. unfold Bind.valueHandler at 1.
    destruct (Dom.tagOf el pg) as [t|] eqn:Ht.
    + destruct (Dom.isFormControl t) eqn:Hf.
      * specialize (IH (Dom.set_value el (Js.text_of v) pg)).
        destruct (apply_all _ v els _) as [pg2 errors]. cbn [fst] in *.
        rewrite IH. cbn [Dom.set_value Dom.write Dom.mutations].
        rewrite <- app_assoc. f_equal. cbn [fmap list_fmap app]. f_equal.
        f_equal. apply filter_ext. intros x. by rewrite tagOf_set_value.
      * specialize (IH pg).
        destruct (apply_all _ v els pg) as [pg2 errors]. cbn [fst] in *.
        exact IH.
    + specialize (IH pg).
      destruct (apply_all _ v els pg) as [pg2 errors]. cbn [fst] in *.
      exact IH.
Qed.

(** X16: a value that passes the distinct filter of a value sink is
    assigned to [value] on the matched elements that are [input],
    [textarea] or [select] elements, once per element and in their
    order; every other matched element is skipped and stays as it is.
    (The value is one [String] prints as the model does.) *)
Theorem value_sink_form_controls_only selector els last v w :
  passes last v = true ->
  Js.printsExactly v = true ->
  let w' := (sink_next (DistinctTap selector els Bind.valueHandler)
               last v w).1 in
  let controls :=
    List.filter (fun el => match Dom.tagOf el (page w) with
                           | Some t => Dom.isFormControl t
                           | None => false
                           end) els in
  Dom.mutations (page w')
  = Dom.mutations (page w)
    ++ ((fun el => Dom.MkMutation el Dom.PValue (Js.text_of v))
          <$> controls) /\
  (forall el, el ∈ els -> el ∉ controls ->
     Dom.elements (page w') !! el = Dom.elements (page w) !! el).
Proof.
  intros Hpass _ w' controls. subst w' controls. rewrite tap_once by done.
  cbn [fst page].
  split; [apply value_trace|].
  intros el Hel Hnot.
  rewrite (apply_all_writes _ valueSetter) by apply value_handler_writes.
  unfold writes_for, valueSetter. rewrite perform_same.
  2: { intros e. cbn. destruct (Dom.isFormControl (Dom.tag e)) eqn:E; cbn.
       - by rewrite E.
       - by rewrite E. }
  rewrite bool_decide_eq_true_2 by done.
  destruct (Dom.elements (page w) !! el) as [e|] eqn:He; [|done]. cbn.
  destruct (Dom.isFormControl (Dom.tag e)) eqn:Hf; [|done].
  exfalso. apply Hnot. apply list_elem_of_In, filter_In.
  split; [by apply list_elem_of_In|]. unfold Dom.tagOf. by rewrite He.
Qed.

Lemma data_key_is_custom key :
  Js.startsWith "data-" key = true -> key <> "class" /\ key <> "disabled".
Proof. split; intros ->; discriminate. Qed.

(** X17: a sink under a custom [data-*] key with a valid attribute name
    sets that attribute on every matched element to [String(value)], so
    [null] is written as the text [null]; reading the attribute back
    gives that string. *)
Theorem custom_attribute_written selector els key last v w el :
  Js.startsWith "data-" key = true ->
  Dom.validAttributeName key = true ->
  passes last v = true ->
  el ∈ els ->
  el < List.length (Dom.elements (page w)) ->
  let w' := (sink_next (DistinctTap selector els (Bind.attributeHandler key))
               last v w).1 in
  Dom.getAttribute el key (page w') = Some (Js.to_string v) /\
  console w' = console w.
Proof.
  intros Hdata Hvalid Hpass Hel Hrange w'. subst w'.
  destruct (data_key_is_custom key Hdata) as [Hclass Hdisabled].
  rewrite tap_once by done. cbn [fst page console].
  rewrite (apply_all_quiet _ v els (page w)).
  2: { intros el' pg. unfold Bind.attributeHandler, Dom.setAttribute.
       by rewrite Hvalid. }
  split; [|by rewrite app_nil_r].
  unfold Dom.getAttribute.
  rewrite (apply_all_writes _ (attributeSetter key))
    by apply attribute_handler_writes.
  unfold writes_for, attributeSetter. rewrite Hvalid.
  rewrite !bool_decide_eq_false_2 by done.
  rewrite perform_same.
  - rewrite bool_decide_eq_true_2 by done.
    destruct (lookup_lt_is_Some_2 _ _ Hrange) as [e ->]. cbn.
    apply lookup_insert_eq.
  - intros e. cbn. unfold Dom.with_attribute. cbn. f_equal.
    apply insert_insert_eq.
Qed.

(** X18: under a custom key that is not a valid attribute name every
    emission that passes the distinct filter leaves the page as it is
    and logs one [InvalidCharacterError] per matched element; the filter
    still records the value. *)
Theorem custom_attribute_invalid_name selector els key last v w :
  Dom.validAttributeName key = false ->
  passes last v = true ->
  sink_next (DistinctTap selector els (Bind.attributeHandler key)) last v w
  = (MkWorld (page w) (current w) (subs w) (listeners w) (eventCache w)
       (console w
          ++ replicate (List.length els)
               (error_entry selector (InvalidCharacterError key)))
       (calls w) (closed w) (fresh w),
     Ok (Some v)).
Proof.
  intros Hinvalid Hpass. rewrite tap_once by done.
  assert (Hall : forall pg,
            apply_all (Bind.attributeHandler key) v els pg
            = (pg, replicate (List.length els) (InvalidCharacterError key))).
  { induction els as [|el els IH]; intros pg; [done|].
    cbn [apply_all]. unfold Bind.attributeHandler at 1, Dom.setAttribute.
    rewrite Hinvalid. by rewrite IH. }
  rewrite Hall. cbn [fst snd]. by rewrite fmap_replicate.
Qed.
End FanOut.

(** ** The event-stream cache: keys and misses *)

Section EventCacheKeys.
Import Engine.
Variable querySelectorAll : Dom.Query.

Lemma cache_hit r eventName selector w m stream :
  eventCache w !! r = Some m ->
  m !! (eventName +:+ ":" +:+ selector) = Some stream ->
  Bind.getOrCreateEventStream querySelectorAll (Dom.NElement r) eventName
    selector w = (w, Ok stream).
Proof.
  intros Hm Hk. unfold Bind.getOrCreateEventStream, mbind, M_bind.
  unfold bindM. rewrite Hm, Hk. done.
Qed.

Lemma cache_filled r eventName selector w w1 stream :
  Bind.getOrCreateEventStream querySelectorAll (Dom.NElement r) eventName
    selector w = (w1, Ok stream) ->
  stream <> Never ->
  exists m, eventCache w1 !! r = Some m /\
            m !! (eventName +:+ ":" +:+ selector) = Some stream.
Proof.
  unfold Bind.getOrCreateEventStream, mbind, M_bind.
  set (cacheKey := eventName +:+ ":" +:+ selector).
  intros Hrun Hne. revert Hrun. unfold bindM at 1.
  destruct (eventCache w !! r) as [m|] eqn:Hm.
  - destruct (m !! cacheKey) as [cached|] eqn:Hk.
    + intros [= <- <-]. by exists m.
    + unfold bindM at 1.
      destruct (Bind.qAll querySelectorAll (Dom.NElement r) selector w)
        as [w2 [els|e]] eqn:Hq; [|done].
      destruct (bool_decide (List.length els = 0)); [by intros [= _ <-]|].
      unfold bindM, fresh_id, modify, ret. intros [= <- <-].
      eexists. cbn. split; [apply lookup_insert_eq|apply lookup_insert_eq].
  - rewrite lookup_empty. unfold bindM at 1.
    destruct (Bind.qAll querySelectorAll (Dom.NElement r) selector
                (with_eventCache <[r:=∅]> w)) as [w2 [els|e]] eqn:Hq; [|done].
    destruct (bool_decide (List.length els = 0)); [by intros [= _ <-]|].
    unfold bindM, fresh_id, modify, ret. intros [= <- <-].
    eexists. cbn. split; [apply lookup_insert_eq|apply lookup_insert_eq].
Qed.

(** X19: the cache of [getOrCreateEventStream] is keyed by the event
    name and the selector joined by a colon: once a stream is cached,
    any event name and selector that join to the same key get that
    stream back, and the store is left alone. *)
Theorem eventStream_cache_key r eventName selector eventName' selector'
    w w1 stream :
  Bind.getOrCreateEventStream querySelectorAll (Dom.NElement r) eventName
    selector w = (w1, Ok stream) ->
  stream <> Never ->
  eventName +:+ ":" +:+ selector = eventName' +:+ ":" +:+ selector' ->
  Bind.getOrCreateEventStream querySelectorAll (Dom.NElement r) eventName'
    selector' w1 = (w1, Ok stream).
Proof.
  intros Hrun Hne Hkey.
  destruct (cache_filled _ _ _ _ _ _ Hrun Hne) as (m & Hm & Hk).
  apply (cache_hit r eventName' selector' w1 m); [done|]. by rewrite <- Hkey.
Qed.

(** X20: [getOrCreateEventStream] does not cache a miss: for a selector
    without elements it returns an observable that never emits, logs the
    lookup warning, and leaves the key absent from the cache, so the next
    call looks the selector up again. *)
Theorem eventStream_miss_not_cached r eventName selector w :
  querySelectorAll (Dom.elements (page w)) r selector = Some [] ->
  default ∅ (eventCache w !! r) !! (eventName +:+ ":" +:+ selector) = None ->
  exists w',
    Bind.getOrCreateEventStream querySelectorAll (Dom.NElement r) eventName
      selector w = (w', Ok Never) /\
    default ∅ (eventCache w' !! r) !! (eventName +:+ ":" +:+ selector) = None /\
    console w' = console w
                 ++ [Warn ("No elements found for selector: " +:+ selector)] /\
    page w' = page w /\ subs w' = subs w /\ listeners w' = listeners w.
Proof.
  intros Hq Hmiss. unfold Bind.getOrCreateEventStream, mbind, M_bind.
  unfold bindM at 1.
  destruct (eventCache w !! r) as [m|] eqn:Hm; cbn in Hmiss.
  - rewrite Hmiss. unfold bindM.
    rewrite (qAll_found querySelectorAll r selector w [] Hq).
    rewrite bool_decide_eq_true_2 by done. unfold ret.
    eexists. split; [reflexivity|]. cbn [eventCache log console page subs
                                         listeners].
    by rewrite Hm.
  - rewrite lookup_empty. unfold bindM.
    rewrite (qAll_found querySelectorAll r selector
               (with_eventCache <[r:=∅]> w) [] Hq).
    rewrite bool_decide_eq_true_2 by done. unfold ret.
    eexists. split; [reflexivity|]. cbn [eventCache log console page subs
                                         listeners with_eventCache].
    by rewrite lookup_insert_eq.
Qed.
End EventCacheKeys.

(** ** Cold streams: nothing is written while binding *)

Section ColdFacts.
Import Engine Cold.
Variable cur : gmap nat Js.Value.

Lemma Still_ret {A} (a : A) : Still cur (ret a).
Proof. by intros w Hw. Qed.

Lemma Still_throw {A} e : Still cur (@throw A e).
Proof. by intros w Hw. Qed.

Lemma Still_bindM {A B} (m : M A) (k : A -> M B) :
  Still cur m -> (forall a, Still cur (k a)) -> Still cur (bindM m k).
Proof.
  intros Hm Hk w Hw. unfold bindM. destruct (Hm w Hw) as [Hp Hc].
  destruct (m w) as [w' [a|e]]; [|done]. cbn [fst] in *.
  destruct (Hk a w' Hc) as [Hp' Hc']. split; congruence.
Qed.

Lemma Still_for_each {A} (xs : list A) (f : A -> M unit) :
  (forall x, Still cur (f x)) -> Still cur (for_each xs f).
Proof.
  intros Hf. induction xs as [|x xs IH]; [apply Still_ret|].
  apply Still_bindM; [apply Hf|by intros _].
Qed.

Lemma Still_fresh_id : Still cur fresh_id.
Proof. by intros w Hw. Qed.

Lemma Still_gets {A} (f : World -> A) : Still cur (gets f).
Proof. by intros w Hw. Qed.

Lemma Still_subscribe_sink owner stream o :
  cold cur stream -> Still cur (subscribe_sink owner stream o).
Proof.
  intros Hcold w Hw. unfold subscribe_sink. cbn [fresh_id].
  unfold cold, Plan.initial in Hcold.
  destruct stream as [subject|vs].
  - cbn [current bump]. rewrite Hw.
    destruct (cur !! subject); [done|]. cbn [sink_next_all]. unfold ret.
    cbn [closed bump]. by destruct (bool_decide (owner ∈ closed w)).
  - subst vs. done.
Qed.

Lemma Still_subscribe_source owner es handler :
  Still cur (subscribe_source owner es handler).
Proof.
  intros w Hw. unfold subscribe_source. cbn [fresh_id].
  destruct es as [|stream type els]; [done|]. cbn [fst].
  by destruct (existsb (subscribed_to stream) (subs (bump w))).
Qed.

Lemma Still_shareAll raw : Still cur (Bind.shareAll raw).
Proof.
  induction raw as [|[name els] raw IH]; [apply Still_ret|].
  cbn [Bind.shareAll]. unfold mbind, M_bind.
  apply Still_bindM; [apply Still_fresh_id|]. intros id.
  apply Still_bindM; [apply IH|]. intros rest. apply Still_ret.
Qed.

Section WithRoot.
Variable querySelectorAll : Dom.Query.
Variable root : Dom.Node.
Variable sub : nat.

Lemma Still_qAll selector : Still cur (Bind.qAll querySelectorAll root selector).
Proof.
  intros w Hw. unfold Bind.qAll.
  destruct root as [| |r]; cbn; try done.
  destruct (querySelectorAll (Dom.elements (page w)) r selector) as [els|];
    [|done].
  cbn [fst]. by destruct (bool_decide (List.length els = 0)).
Qed.

Lemma Still_bindObservable selector stream handler :
  cold cur stream ->
  Still cur (Bind.bindObservable querySelectorAll root sub selector stream
               handler).
Proof.
  intros Hcold. unfold Bind.bindObservable, mbind, M_bind.
  apply Still_bindM; [apply Still_qAll|]. intros els.
  destruct (bool_decide (List.length els = 0));
    [apply Still_ret|by apply Still_subscribe_sink].
Qed.

Lemma Still_table (table : list (string * Stream)) (f : string * Stream -> M unit) :
  cold_table cur table ->
  (forall entry, cold cur entry.2 -> Still cur (f entry)) ->
  Still cur (for_each table f).
Proof.
  intros Hcold Hf. induction Hcold as [|entry table He _ IH];
    [apply Still_ret|].
  cbn [for_each]. apply Still_bindM; [by apply Hf|by intros _].
Qed.

Lemma Still_bindEach family a table :
  cold_table cur table ->
  Still cur (Bind.bindEach querySelectorAll root sub family a table).
Proof.
  intros Hcold. unfold Bind.bindEach. apply Still_table; [done|].
  intros entry He. unfold mbind, M_bind.
  apply Still_bindM; [apply Still_qAll|]. intros els.
  destruct (bool_decide (List.length els = 0)); [apply Still_ret|].
  apply Still_for_each. intros el. by apply Still_subscribe_sink.
Qed.

Lemma Still_bindCustom b :
  Forall (fun other => cold_slots cur other.2) (Bind.others b) ->
  Still cur (Bind.bindCustom querySelectorAll root sub b).
Proof.
  intros Hcold. unfold Bind.bindCustom.
  induction Hcold as [|other others Ho _ IH]; [apply Still_ret|].
  cbn [for_each]. apply Still_bindM; [|by intros _].
  destruct (Js.startsWith "data-" other.1); [|apply Still_ret].
  clear IH. induction Ho as [|entry entries He _ IH]; [apply Still_ret|].
  cbn [for_each]. apply Still_bindM; [|by intros _].
  destruct (entry.2); [by apply Still_bindObservable|apply Still_ret].
Qed.

Lemma Still_bindEvents b :
  Still cur (Bind.bindEvents querySelectorAll root sub b).
Proof.
  unfold Bind.bindEvents, mbind, M_bind.
  apply Still_bindM; [apply Still_qAll|]. intros onEls.
  apply Still_bindM; [apply Still_gets|]. intros pg.
  apply Still_bindM; [apply Still_shareAll|]. intros events_.
  apply Still_bindM; [|intros _; apply Still_ret].
  apply Still_for_each. intros entry.
  destruct (Bind.lookupKey entry.1 events_);
    [apply Still_subscribe_source|apply Still_ret].
Qed.
End WithRoot.

Lemma bind_still querySelectorAll root b :
  cold_bindings cur b -> Still cur (Bind.bind querySelectorAll root b).
Proof.
  intros (Ht & Hv & Hh & Hc & Hd & Ho).
  unfold Bind.bind.
  destruct (Dom.isNull root || negb (Dom.isHTMLElement root));
    [apply Still_throw|].
  unfold mbind, M_bind, newSubscription.
  apply Still_bindM; [apply Still_fresh_id|]. intros sub.
  apply Still_bindM.
  { unfold Bind.bindText. apply Still_table; [done|].
    intros entry He. by apply Still_bindObservable. }
  intros _. apply Still_bindM.
  { unfold Bind.bindValue. apply Still_table; [done|].
    intros entry He. by apply Still_bindObservable. }
  intros _. apply Still_bindM; [by apply Still_bindEach|].
  intros _. apply Still_bindM; [by apply Still_bindEach|].
  intros _. apply Still_bindM; [by apply Still_bindEach|].
  intros _. apply Still_bindM; [apply Still_bindEvents|].
  intros events_. apply Still_bindM; [by apply Still_bindCustom|].
  intros _. apply Still_ret.
Qed.
End ColdFacts.

(** X21: when no stream of the declaration delivers a value on
    subscription (subjects without a current value, [of()]), [bind]
    writes nothing to the page and changes no subject, whether it
    returns or throws. *)
Theorem bind_cold_no_write querySelectorAll root b w :
  Cold.cold_bindings (Engine.current w) b ->
  Engine.page (Bind.bind querySelectorAll root b w).1 = Engine.page w /\
  Engine.current (Bind.bind querySelectorAll root b w).1 = Engine.current w.
Proof.
  intros Hcold.
  apply (bind_still (Engine.current w) querySelectorAll root b Hcold w).
  reflexivity.
Qed.

(** ** The event section of bind *)

Section SourceTable.
Import Engine.

Lemma lookupKey_assignKey {A} k (a : A) l :
  Bind.lookupKey k (Bind.assignKey k a l) = Some a.
Proof.
  induction l as [|[k' a'] l IH]; cbn.
  - by rewrite String.eqb_refl.
  - destruct (String.eqb k' k) eqn:E; cbn; rewrite E; [done|exact IH].
Qed.

Lemma lookupKey_assignKey_ne {A} k k' (a : A) l :
  k <> k' -> Bind.lookupKey k (Bind.assignKey k' a l) = Bind.lookupKey k l.
Proof.
  intros Hne. induction l as [|[k0 a0] l IH]; cbn.
  - destruct (String.eqb k' k) eqn:E; [|done].
    apply String.eqb_eq in E. congruence.
  - destruct (String.eqb k0 k') eqn:E; cbn.
    + apply String.eqb_eq in E. subst k0.
      destruct (String.eqb k' k) eqn:E'; [|done].
      apply String.eqb_eq in E'. congruence.
    + destruct (String.eqb k0 k); [done|exact IH].
Qed.

Lemma collectSources_from pg name onEls : forall acc,
  name <> "" ->
  Bind.lookupKey name
    (foldl (fun events el =>
              match Dom.getAttribute el "data-on" pg with
              | Some name =>
                  if Js.nonempty name then
                    match Bind.lookupKey name events with
                    | None => Bind.assignKey name [el] events
                    | Some merged => Bind.assignKey name (merged ++ [el]) events
                    end
                  else events
              | None => events
              end) acc onEls)
  = match Bind.lookupKey name acc,
          filter (fun el => Dom.getAttribute el "data-on" pg = Some name) onEls
    with
    | None, [] => None
    | None, els => Some els
    | Some merged, els => Some (merged ++ els)
    end.
Proof.
  intros acc Hname. revert acc.
  induction onEls as [|el onEls IH]; intros acc.
  - cbn. destruct (Bind.lookupKey name acc); [by rewrite app_nil_r|done].
  - cbn [foldl]. rewrite IH. clear IH.
    destruct (Dom.getAttribute el "data-on" pg) as [n|] eqn:Hattr.
    + destruct (decide (n = name)) as [->|Hne].
      * rewrite filter_cons_True by done.
        rewrite (proj2 (nonempty_true name)) by done.
        destruct (Bind.lookupKey name acc) as [merged|] eqn:Hacc.
        -- rewrite lookupKey_assignKey. by rewrite <- app_assoc.
        -- rewrite lookupKey_assignKey. done.
      * rewrite filter_cons_False by congruence.
        destruct (Js.nonempty n); [|done].
        destruct (Bind.lookupKey n acc);
          by rewrite lookupKey_assignKey_ne.
    + rewrite filter_cons_False by congruence. done.
Qed.

Lemma collectSources_no_empty_key pg onEls : forall acc,
  Bind.lookupKey "" acc = None ->
  Bind.lookupKey ""
    (foldl (fun events el =>
              match Dom.getAttribute el "data-on" pg with
              | Some name =>
                  if Js.nonempty name then
                    match Bind.lookupKey name events with
                    | None => Bind.assignKey name [el] events
                    | Some merged => Bind.assignKey name (merged ++ [el]) events
                    end
                  else events
              | None => events
              end) acc onEls) = None.
Proof.
  induction onEls as [|el onEls IH]; intros acc Hacc; [done|].
  cbn [foldl]. apply IH.
  destruct (Dom.getAttribute el "data-on" pg) as [n|]; [|done].
  destruct (Js.nonempty n) eqn:Hn; [|done].
  apply nonempty_true in Hn.
  destruct (Bind.lookupKey n acc); by rewrite lookupKey_assignKey_ne.
Qed.

(** The streams of the [data-on] scan, by name. *)
Lemma collectSources_lookup pg onEls name :
  Bind.lookupKey name (Bind.collectSources pg onEls)
  = if Js.nonempty name then
      match filter (fun el => Dom.getAttribute el "data-on" pg = Some name)
                   onEls with
      | [] => None
      | els => Some els
      end
    else None.
Proof.
  unfold Bind.collectSources. destruct (Js.nonempty name) eqn:Hn.
  - apply nonempty_true in Hn. by rewrite collectSources_from.
  - destruct name; [|done]. by apply collectSources_no_empty_key.
Qed.
End SourceTable.

Section Firing.
Import Engine Events.

Lemma with_more_calls_nil w : with_more_calls [] w = w.
Proof. destruct w. unfold with_more_calls. cbn. by rewrite app_nil_r. Qed.

Lemma with_more_calls_app a b w :
  with_more_calls b (with_more_calls a w) = with_more_calls (a ++ b) w.
Proof. unfold with_more_calls. cbn. by rewrite app_assoc. Qed.

(** The subscribers of one listener's stream are called in order. *)
Lemma deliver_listener target l (ss : list Sub) : forall w,
  foldl (fun w s =>
           match sub_wiring s with
           | Source stream handler =>
               if bool_decide (stream = l_stream l)
               then record_call (MkCall handler target) w
               else w
           | Sink _ _ _ => w
           end) w ss
  = with_more_calls
      ((fun sh => MkCall sh.2 target)
         <$> List.filter (fun sh => bool_decide (sh.1 = l_stream l))
               (omap source_of ss)) w.
Proof.
  induction ss as [|s ss IH]; intros w.
  - cbn. by rewrite with_more_calls_nil.
  - cbn [foldl]. rewrite IH. cbn [omap list_omap]. unfold source_of at 2.
    destruct (sub_wiring s) as [subject o last|stream handler].
    + done.
    + cbn [List.filter fst snd].
      destruct (bool_decide (stream = l_stream l)); [|done].
      cbn [fmap list_fmap].
      change (record_call (MkCall handler target) w)
        with (with_more_calls [MkCall handler target] w).
      by rewrite with_more_calls_app.
Qed.

(** An event handed to the listeners of a node calls what [reached]
    lists and changes nothing else. *)
Lemma deliver_reached type node target w :
  deliver type node target w
  = with_more_calls
      (reached type node target (listeners w) (omap source_of (subs w))) w.
Proof.
  unfold deliver.
  assert (G : forall ls w0,
    foldl (fun w l =>
             if bool_decide (l_element l = node) && String.eqb (l_type l) type
             then foldl (fun w s =>
                           match sub_wiring s with
                           | Source stream handler =>
                               if bool_decide (stream = l_stream l)
                               then record_call (MkCall handler target) w
                               else w
                           | Sink _ _ _ => w
                           end) w (subs w)
             else w) w0 ls
    = with_more_calls
        (reached type node target ls (omap source_of (subs w0))) w0).
  { intros ls. induction ls as [|l ls IH]; intros w0.
    - cbn. by rewrite with_more_calls_nil.
    - cbn [foldl]. unfold reached. cbn [List.filter].
      destruct (bool_decide (l_element l = node)
                && String.eqb (l_type l) type).
      + rewrite deliver_listener, IH. cbn [subs with_more_calls].
        rewrite with_more_calls_app. done.
      + rewrite IH. done. }
  apply G.
Qed.

(** A click calls, node after node, what [reached] lists. *)
Lemma click_reached ancestors el w :
  click ancestors el w
  = with_more_calls
      (node ← el :: ancestors;
       reached "click" node el (listeners w) (omap source_of (subs w))) w.
Proof.
  unfold click. generalize (el :: ancestors) as nodes. intros nodes.
  assert (G : forall cs,
    foldl (fun w node => deliver "click" node el w) (with_more_calls cs w)
          nodes
    = with_more_calls
        (cs ++ (node ← nodes;
                reached "click" node el (listeners w)
                  (omap source_of (subs w)))) w).
  { induction nodes as [|node nodes IH]; intros cs.
    - cbn. by rewrite app_nil_r.
    - cbn [foldl]. rewrite deliver_reached.
      cbn [listeners subs with_more_calls].
      change (MkWorld (page w) (current w) (subs w) (listeners w)
                (eventCache w) (console w) (calls w ++ cs) (closed w)
                (fresh w)) with (with_more_calls cs w).
      rewrite with_more_calls_app, IH. cbn [mbind list_bind].
      by rewrite <- app_assoc. }
  rewrite <- (with_more_calls_nil w) at 1. by rewrite G.
Qed.

Lemma reached_app type node target ls1 ls2 sources :
  reached type node target (ls1 ++ ls2) sources
  = reached type node target ls1 sources
    ++ reached type node target ls2 sources.
Proof.
  unfold reached. rewrite List.filter_app. apply bind_app.
Qed.

(** Streams nobody of [extra] is subscribed to. *)
Lemma reached_more_sources type node target ls sources extra :
  Forall (fun l => Forall (fun sh => sh.1 <> l_stream l) extra) ls ->
  reached type node target ls (sources ++ extra)
  = reached type node target ls sources.
Proof.
  intros Hls. unfold reached.
  induction Hls as [|l ls Hl _ IH]; [done|]. cbn [List.filter].
  destruct (bool_decide (l_element l = node) && String.eqb (l_type l) type);
    [|exact IH].
  cbn [mbind list_bind]. rewrite IH. f_equal. f_equal.
  rewrite List.filter_app.
  assert (List.filter (fun sh : nat * nat => bool_decide (sh.1 = l_stream l))
            extra = []) as ->; [|by rewrite app_nil_r].
  clear -Hl. induction Hl as [|sh extra Hsh _ IH]; [done|].
  cbn. by rewrite bool_decide_eq_false_2.
Qed.

Lemma reached_other_sources type node target ls sources extra :
  Forall (fun l => Forall (fun sh => sh.1 <> l_stream l) sources) ls ->
  reached type node target ls (sources ++ extra)
  = reached type node target ls extra.
Proof.
  intros Hls. unfold reached.
  induction Hls as [|l ls Hl _ IH]; [done|]. cbn [List.filter].
  destruct (bool_decide (l_element l = node) && String.eqb (l_type l) type);
    [|exact IH].
  cbn [mbind list_bind]. rewrite IH. f_equal. f_equal.
  rewrite List.filter_app.
  assert (List.filter (fun sh : nat * nat => bool_decide (sh.1 = l_stream l))
            sources = []) as ->; [|done].
  clear -Hl. induction Hl as [|sh sources Hsh _ IH]; [done|].
  cbn. by rewrite bool_decide_eq_false_2.
Qed.
End Firing.

Section SharedStreams.
Import Engine Events.

Lemma shareAll_run raw : forall w,
  exists w',
    Bind.shareAll raw w = (w', Ok (shared_from (fresh w) raw)) /\
    fresh w' = fresh w + List.length raw /\
    listeners w' = listeners w /\ subs w' = subs w /\
    calls w' = calls w /\ page w' = page w.
Proof.
  induction raw as [|[name els] raw IH]; intros w.
  - exists w. cbn. repeat split; try done; lia.
  - cbn [Bind.shareAll]. unfold mbind, M_bind. unfold bindM at 1.
    cbn [fresh_id]. unfold bindM at 1.
    destruct (IH (bump w)) as (w' & -> & Hf & Hl & Hs & Hc & Hp).
    exists w'. unfold ret. cbn [shared_from]. split; [done|].
    cbn in *. repeat split; try done; lia.
Qed.

Lemma shared_from_lookup raw : forall base n es,
  Bind.lookupKey n (shared_from base raw) = Some es ->
  exists id els, es = SharedEvents id "click" els /\
    base <= id < base + List.length raw /\
    Bind.lookupKey n raw = Some els.
Proof.
  induction raw as [|[k e] raw IH]; intros base n es; [done|].
  cbn. destruct (String.eqb k n).
  - intros [= <-]. exists base, e. split; [done|]. split; [lia|done].
  - intros H. destruct (IH _ _ _ H) as (id & els & -> & Hid & Hk).
    exists id, els. split; [done|]. split; [lia|done].
Qed.

Lemma shared_from_found raw : forall base n els,
  Bind.lookupKey n raw = Some els ->
  exists id, Bind.lookupKey n (shared_from base raw)
             = Some (SharedEvents id "click" els).
Proof.
  induction raw as [|[k e] raw IH]; intros base n els; [done|].
  cbn. destruct (String.eqb k n).
  - intros [= <-]. by exists base.
  - apply IH.
Qed.

(** Two names share no stream. *)
Lemma shared_from_injective raw : forall base n n' id t els t' els',
  Bind.lookupKey n (shared_from base raw) = Some (SharedEvents id t els) ->
  Bind.lookupKey n' (shared_from base raw) = Some (SharedEvents id t' els') ->
  n = n'.
Proof.
  induction raw as [|[k e] raw IH]; intros base n n' id t els t' els'; [done|].
  cbn. destruct (String.eqb k n) eqn:E; destruct (String.eqb k n') eqn:E'.
  - apply String.eqb_eq in E, E'. congruence.
  - intros [= <- _ _] H.
    destruct (shared_from_lookup _ _ _ _ H) as (id & ? & [= <- _ _] & Hid & _).
    lia.
  - intros H [= <- _ _].
    destruct (shared_from_lookup _ _ _ _ H) as (id & ? & [= <- _ _] & Hid & _).
    lia.
  - apply IH.
Qed.

Lemma subscribe_source_never owner handler w :
  subscribe_source owner Never handler w = (bump w, Ok tt).
Proof. done. Qed.

Lemma subscribe_source_first owner id type els handler w :
  existsb (subscribed_to id) (subs w) = false ->
  subscribe_source owner (SharedEvents id type els) handler w
  = (with_subs (fun l => l ++ [MkSub (fresh w) owner (Source id handler)])
       (with_listeners
          (fun l => l ++ ((fun el => MkListener el type id) <$> els))
          (bump w)),
     Ok tt).
Proof.
  intros Hfree. unfold subscribe_source. cbn [fresh_id subs bump].
  by rewrite Hfree.
Qed.

(** The callbacks of a declaration, subscribed one after the other:
    under distinct names each one connects its stream. *)
Lemma callbacks_run events_ sub cs : forall w,
  NoDup cs.*1 ->
  (forall n n' id t els t' els',
     Bind.lookupKey n events_ = Some (SharedEvents id t els) ->
     Bind.lookupKey n' events_ = Some (SharedEvents id t' els') -> n = n') ->
  (forall c id t els, c ∈ cs ->
     Bind.lookupKey c.1 events_ = Some (SharedEvents id t els) ->
     existsb (subscribed_to id) (subs w) = false) ->
  exists w',
    for_each cs (fun entry =>
      match Bind.lookupKey entry.1 events_ with
      | Some stream => subscribe_source sub stream entry.2
      | None => ret tt
      end) w = (w', Ok tt) /\
    listeners w' = listeners w ++ callback_listeners events_ cs /\
    omap source_of (subs w') = omap source_of (subs w)
                               ++ callback_sources events_ cs /\
    calls w' = calls w.
Proof.
  induction cs as [|[n h] cs IH]; intros w Hnodup Hinj Hfree.
  - exists w. cbn. by rewrite !app_nil_r.
  - rewrite fmap_cons in Hnodup. apply NoDup_cons in Hnodup as [Hn Hnodup].
    cbn [fst] in Hn.
    cbn [for_each]. unfold bindM at 1. cbn [fst snd].
    unfold callback_listeners, callback_sources.
    cbn [mbind list_bind omap list_omap fst snd].
    fold (callback_listeners events_ cs). fold (callback_sources events_ cs).
    destruct (Bind.lookupKey n events_) as [[|id t els]|] eqn:Hlook.
    + rewrite subscribe_source_never.
      destruct (IH (bump w) Hnodup Hinj) as (w' & -> & Hl & Hs & Hc).
      { intros c id t els Hc. apply Hfree. by right. }
      exists w'. by cbn in *.
    + rewrite subscribe_source_first
        by (apply (Hfree (n, h) id t els); [by left|done]).
      match goal with |- context [for_each cs _ ?w1] =>
        destruct (IH w1 Hnodup Hinj) as (w' & -> & Hl & Hs & Hc) end.
      { intros c id' t' els' Hc Hlook'. cbn [subs with_subs with_listeners bump].
        rewrite existsb_app, (Hfree c id' t' els'); [|by right|done].
        cbn. rewrite orb_false_r. apply bool_decide_eq_false_2. intros ->.
        apply Hn. rewrite (Hinj _ _ _ _ _ _ _ Hlook Hlook').
        apply list_elem_of_fmap. by exists c. }
      exists w'. split; [done|]. cbn in Hl, Hs, Hc.
      split; [by rewrite Hl, app_assoc|]. split; [|done].
      rewrite Hs, omap_app, <- app_assoc. done.
    + unfold ret at 1.
      destruct (IH w Hnodup Hinj) as (w' & -> & Hl & Hs & Hc).
      { intros c id t els Hc. apply Hfree. by right. }
      exists w'. by cbn in *.
Qed.
End SharedStreams.

Section ClickCallbacks.
Import Engine Events.
Variable querySelectorAll : Dom.Query.

Lemma filter_listeners_of el id type (els : list nat) :
  NoDup els ->
  List.filter (fun l => bool_decide (l_element l = el)
                        && String.eqb (l_type l) type)
    ((fun e => MkListener e type id) <$> els)
  = if bool_decide (el ∈ els) then [MkListener el type id] else [].
Proof.
  induction 1 as [|e els He Hnd IH]; [done|].
  cbn [fmap list_fmap List.filter l_element l_type].
  change (list_fmap _ _ ?f els) with (f <$> els). rewrite IH.
  rewrite String.eqb_refl, andb_true_r.
  destruct (decide (e = el)) as [->|Hne].
  - rewrite bool_decide_eq_true_2 by done.
    rewrite (bool_decide_eq_false_2 (el ∈ els)) by done.
    by rewrite (bool_decide_eq_true_2 (el ∈ el :: els)) by left.
  - rewrite bool_decide_eq_false_2 by done.
    destruct (bool_decide (el ∈ els)) eqn:E.
    + apply bool_decide_eq_true in E.
      by rewrite (bool_decide_eq_true_2 (el ∈ e :: els)) by (by right).
    + apply bool_decide_eq_false in E.
      rewrite (bool_decide_eq_false_2 (el ∈ e :: els)); [done|].
      intros [?|?]%elem_of_cons; congruence.
Qed.

(** Among the listeners the callbacks add, the one on [el] belongs to
    the callback of its name. *)
Lemma callback_listeners_on events_ cs el name id els :
  NoDup cs.*1 ->
  Bind.lookupKey name events_ = Some (SharedEvents id "click" els) ->
  el ∈ els -> NoDup els ->
  (forall n id' t els', Bind.lookupKey n events_
                        = Some (SharedEvents id' t els') ->
     NoDup els' /\ (el ∈ els' -> n = name)) ->
  List.filter (fun l => bool_decide (l_element l = el)
                        && String.eqb (l_type l) "click")
    (callback_listeners events_ cs)
  = match Bind.lookupKey name cs with
    | Some _ => [MkListener el "click" id]
    | None => []
    end.
Proof.
  intros Hnodup Hname Hel Hnd Honly.
  assert (Hother : forall cs', name ∉ cs'.*1 ->
    List.filter (fun l => bool_decide (l_element l = el)
                          && String.eqb (l_type l) "click")
      (callback_listeners events_ cs') = []).
  { intros cs'. induction cs' as [|[n h] cs' IH]; [done|].
    rewrite fmap_cons. intros [Hn Hrest]%not_elem_of_cons. cbn [fst] in Hn.
    unfold callback_listeners. cbn [mbind list_bind fst].
    fold (callback_listeners events_ cs').
    rewrite List.filter_app, (IH Hrest), app_nil_r.
    destruct (Bind.lookupKey n events_) as [[|id' t els']|] eqn:Hn'; try done.
    destruct (Honly _ _ _ _ Hn') as [_ Hin'].
    assert (Hnotin : el ∉ els').
    { intros ?. apply Hn. symmetry. by apply Hin'. }
    clear -Hnotin. induction els' as [|e els' IHe]; [done|].
    apply not_elem_of_cons in Hnotin as [Hne Hnotin].
    cbn [fmap list_fmap List.filter l_element].
    rewrite bool_decide_eq_false_2 by congruence. cbn [andb].
    by apply IHe. }
  induction cs as [|[n h] cs IH]; [done|].
  rewrite fmap_cons in Hnodup. apply NoDup_cons in Hnodup as [Hn Hnodup].
  cbn [fst] in Hn.
  unfold callback_listeners. cbn [mbind list_bind fst Bind.lookupKey].
  fold (callback_listeners events_ cs). rewrite List.filter_app.
  destruct (String.eqb n name) eqn:E.
  - apply String.eqb_eq in E. subst n. rewrite Hname.
    rewrite (Hother cs Hn), app_nil_r.
    rewrite filter_listeners_of by done.
    by rewrite bool_decide_eq_true_2.
  - apply String.eqb_neq in E. rewrite (IH Hnodup).
    assert (Hnone : name ∉ [(n, h)].*1).
    { cbn. intros ?%list_elem_of_singleton. congruence. }
    specialize (Hother [(n, h)] Hnone).
    unfold callback_listeners in Hother.
    cbn [mbind list_bind fst] in Hother. rewrite app_nil_r in Hother.
    by rewrite Hother.
Qed.

Lemma callback_sources_of events_ cs name id els :
  NoDup cs.*1 ->
  Bind.lookupKey name events_ = Some (SharedEvents id "click" els) ->
  (forall n n' id t els t' els',
     Bind.lookupKey n events_ = Some (SharedEvents id t els) ->
     Bind.lookupKey n' events_ = Some (SharedEvents id t' els') -> n = n') ->
  List.filter (fun sh : nat * nat => bool_decide (sh.1 = id))
    (callback_sources events_ cs)
  = match Bind.lookupKey name cs with
    | Some handler => [(id, handler)]
    | None => []
    end.
Proof.
  intros Hnodup Hname Hinj.
  assert (Hother : forall cs', name ∉ cs'.*1 ->
    List.filter (fun sh : nat * nat => bool_decide (sh.1 = id))
      (callback_sources events_ cs') = []).
  { intros cs'. induction cs' as [|[n h] cs' IH]; [done|].
    rewrite fmap_cons. intros [Hn Hrest]%not_elem_of_cons. cbn [fst] in Hn.
    unfold callback_sources. cbn [omap list_omap fst snd].
    fold (callback_sources events_ cs').
    destruct (Bind.lookupKey n events_) as [[|id' t els']|] eqn:Hn';
      try (by apply IH).
    cbn [List.filter fst].
    rewrite bool_decide_eq_false_2; [by apply IH|].
    intros ->. apply Hn. symmetry. by eapply Hinj. }
  induction cs as [|[n h] cs IH]; [done|].
  rewrite fmap_cons in Hnodup. apply NoDup_cons in Hnodup as [Hn Hnodup].
  cbn [fst] in Hn.
  unfold callback_sources. cbn [omap list_omap fst snd Bind.lookupKey].
  fold (callback_sources events_ cs).
  destruct (String.eqb n name) eqn:E.
  - apply String.eqb_eq in E. subst n. rewrite Hname.
    cbn [List.filter fst]. rewrite bool_decide_eq_true_2 by done.
    by rewrite (Hother cs Hn).
  - apply String.eqb_neq in E. rewrite <- (IH Hnodup).
    destruct (Bind.lookupKey n events_) as [[|id' t els']|] eqn:Hn'; try done.
    cbn [List.filter fst].
    rewrite bool_decide_eq_false_2; [done|].
    intros ->. apply E. by eapply Hinj.
Qed.

Lemma callback_listeners_fresh events_ cs base :
  (forall n id t els, Bind.lookupKey n events_ = Some (SharedEvents id t els) ->
     base <= id) ->
  Forall (fun l => base <= l_stream l) (callback_listeners events_ cs).
Proof.
  intros Hbase. induction cs as [|[n h] cs IH]; [constructor|].
  unfold callback_listeners. cbn [mbind list_bind fst].
  fold (callback_listeners events_ cs). apply Forall_app. split; [|exact IH].
  destruct (Bind.lookupKey n events_) as [[|id t els]|] eqn:Hn;
    try constructor.
  apply Forall_fmap, Forall_forall. intros e _. cbn. by eapply Hbase.
Qed.

Lemma callback_sources_fresh events_ cs base :
  (forall n id t els, Bind.lookupKey n events_ = Some (SharedEvents id t els) ->
     base <= id) ->
  Forall (fun sh : nat * nat => base <= sh.1) (callback_sources events_ cs).
Proof.
  intros Hbase. induction cs as [|[n h] cs IH]; [constructor|].
  unfold callback_sources. cbn [omap list_omap fst snd].
  fold (callback_sources events_ cs).
  destruct (Bind.lookupKey n events_) as [[|id t els]|] eqn:Hn; try exact IH.
  constructor; [|exact IH]. cbn. by eapply Hbase.
Qed.

Lemma no_subscriber_yet w id :
  settled w -> fresh w <= id ->
  existsb (subscribed_to id) (subs w) = false.
Proof.
  intros [_ Hsubs] Hid. induction Hsubs as [|s ss Hs _ IH]; [done|].
  cbn [existsb]. rewrite IH, orb_false_r.
  unfold subscribed_to. unfold source_of in Hs.
  destruct (sub_wiring s) as [| stream handler]; [done|].
  apply bool_decide_eq_false_2. intros ->.
  specialize (Hs _ eq_refl). cbn in Hs. lia.
Qed.

(** No callback listens on a node that carries none of the names. *)
Lemma callback_listeners_off events_ cs node :
  (forall n id t els, Bind.lookupKey n events_ = Some (SharedEvents id t els) ->
     node ∉ els) ->
  List.filter (fun l => bool_decide (l_element l = node)
                        && String.eqb (l_type l) "click")
    (callback_listeners events_ cs) = [].
Proof.
  intros Hoff. induction cs as [|[n h] cs IH]; [done|].
  unfold callback_listeners. cbn [mbind list_bind fst].
  fold (callback_listeners events_ cs).
  rewrite List.filter_app, IH, app_nil_r.
  destruct (Bind.lookupKey n events_) as [[|id t els]|] eqn:Hn; try done.
  specialize (Hoff _ _ _ _ Hn).
  clear -Hoff. induction els as [|e els IHe]; [done|].
  apply not_elem_of_cons in Hoff as [Hne Hoff].
  cbn [fmap list_fmap List.filter l_element].
  rewrite bool_decide_eq_false_2 by congruence. cbn [andb].
  by apply IHe.
Qed.

(** The streams [bind] makes from the [data-on] scan: each is over the
    elements of its name. *)
Lemma shared_sources_of pg onEls base n id t els :
  Bind.lookupKey n (shared_from base (Bind.collectSources pg onEls))
  = Some (SharedEvents id t els) ->
  Js.nonempty n = true /\
  els = filter (fun e => Dom.getAttribute e "data-on" pg = Some n) onEls.
Proof.
  intros H.
  destruct (shared_from_lookup _ _ _ _ H) as (? & ? & [= _ _ <-] & _ & Hk).
  rewrite collectSources_lookup in Hk.
  destruct (Js.nonempty n); [|done]. split; [done|].
  destruct (filter _ onEls) as [|y ys]; [done|]. by injection Hk as <-.
Qed.

(** What the listeners and subscriptions of the callbacks make of an
    event at a node. *)
Lemma reached_callbacks pg onEls base cs node target :
  NoDup onEls -> NoDup cs.*1 ->
  let evs := shared_from base (Bind.collectSources pg onEls) in
  reached "click" node target (callback_listeners evs cs)
    (callback_sources evs cs)
  = called pg onEls cs node target.
Proof.
  intros Hdistinct Hkeys evs.
  assert (Hinj : forall n n' id t els t' els',
            Bind.lookupKey n evs = Some (SharedEvents id t els) ->
            Bind.lookupKey n' evs = Some (SharedEvents id t' els') -> n = n')
    by apply shared_from_injective.
  assert (Hoff : forall P : Prop,
    (forall n, Js.nonempty n = true -> node ∈ onEls ->
       Dom.getAttribute node "data-on" pg = Some n -> P) ->
    (forall n id t els, Bind.lookupKey n evs = Some (SharedEvents id t els) ->
       node ∈ els -> P)).
  { intros P HP n id t els Hn Hin.
    destruct (shared_sources_of _ _ _ _ _ _ _ Hn) as [Hne ->].
    apply list_elem_of_filter in Hin as [Hattr Hin]. by eapply HP. }
  unfold called, reached.
  destruct (bool_decide (node ∈ onEls)) eqn:Hin.
  2: { apply bool_decide_eq_false in Hin.
       rewrite callback_listeners_off; [done|].
       intros n id t els Hn Hel.
       eapply (Hoff False); [|exact Hn|exact Hel]. intros; congruence. }
  apply bool_decide_eq_true in Hin.
  destruct (Dom.getAttribute node "data-on" pg) as [name|] eqn:Hattr.
  2: { rewrite callback_listeners_off; [done|].
       intros n id t els Hn Hel.
       eapply (Hoff False); [|exact Hn|exact Hel]. intros; congruence. }
  destruct (Js.nonempty name) eqn:Hname.
  2: { rewrite callback_listeners_off; [done|].
       intros n id t els Hn Hel.
       eapply (Hoff False); [|exact Hn|exact Hel]. intros; congruence. }
  pose proof (collectSources_lookup pg onEls name) as Hraw.
  rewrite Hname in Hraw.
  set (mine := filter (fun e => Dom.getAttribute e "data-on" pg = Some name)
                      onEls) in *.
  assert (Hmine : node ∈ mine) by (by apply list_elem_of_filter).
  destruct mine as [|e0 mine'] eqn:Emine; [by apply elem_of_nil in Hmine|].
  destruct (shared_from_found _ base name _ Hraw) as (id & Hid).
  fold evs in Hid.
  assert (Hnd : NoDup (e0 :: mine')).
  { rewrite <- Emine. by apply NoDup_filter. }
  assert (Honly : forall n id' t els',
            Bind.lookupKey n evs = Some (SharedEvents id' t els') ->
            NoDup els' /\ (node ∈ els' -> n = name)).
  { intros n id' t els' H.
    destruct (shared_sources_of _ _ _ _ _ _ _ H) as [_ ->].
    split; [by apply NoDup_filter|].
    intros [Hn _]%list_elem_of_filter. congruence. }
  rewrite (callback_listeners_on evs cs node name id _
             Hkeys Hid Hmine Hnd Honly).
  destruct (Bind.lookupKey name cs) as [handler|] eqn:Hcb; [|done].
  cbn [mbind list_bind l_stream]. rewrite app_nil_r.
  rewrite (callback_sources_of evs cs name id _ Hkeys Hid Hinj).
  by rewrite Hcb.
Qed.

(** X22: after the event section of [bind] has run on a store whose
    stream identities are in order, with no callback declared under a
    name [events$] inherits, a click on [el] that bubbles through
    [ancestors] calls, at [el] and then at each ancestor it travels to,
    first what the listeners registered before reach and then, when the
    node was found under [[data-on]] with a non-empty name, the callback
    declared under that name, once, with [el] for target. Nested
    elements of one name thus call its callback once each. *)
Theorem click_reaches_callbacks r sub b w w' events_ onEls ancestors el :
  Bind.bindEvents querySelectorAll (Dom.NElement r) sub b w
  = (w', Ok events_) ->
  querySelectorAll (Dom.elements (page w)) r "[data-on]" = Some onEls ->
  NoDup onEls ->
  NoDup (Bind.events b).*1 ->
  Forall (fun entry => inherited entry.1 = false) (Bind.events b) ->
  settled w ->
  calls (click ancestors el w')
  = calls w
    ++ (node ← el :: ancestors;
        reached "click" node el (listeners w) (omap source_of (subs w))
        ++ called (page w) onEls (Bind.events b) node el).
Proof.
  intros Hrun Hq Hdistinct Hkeys _ Hsettled.
  unfold Bind.bindEvents, mbind, M_bind in Hrun.
  unfold bindM at 1 in Hrun.
  rewrite (qAll_found querySelectorAll r "[data-on]" w onEls Hq) in Hrun.
  set (wa := if bool_decide (List.length onEls = 0) then _ else w) in Hrun.
  assert (Hwa : page wa = page w /\ listeners wa = listeners w /\
                subs wa = subs w /\ calls wa = calls w /\ fresh wa = fresh w).
  { subst wa. by destruct (bool_decide (List.length onEls = 0)). }
  destruct Hwa as (Hpage & Hla & Hsa & Hca & Hfa).
  unfold bindM at 1 in Hrun. unfold gets at 1 in Hrun.
  unfold bindM at 1 in Hrun. rewrite Hpage in Hrun.
  set (raw := Bind.collectSources (page w) onEls) in *.
  destruct (shareAll_run raw wa) as (wb & Hshare & Hfresh & Hl & Hs & Hc & _).
  rewrite Hshare in Hrun. rewrite Hfa in *.
  set (evs := shared_from (fresh w) raw) in *.
  assert (Hinj : forall n n' id t els t' els',
            Bind.lookupKey n evs = Some (SharedEvents id t els) ->
            Bind.lookupKey n' evs = Some (SharedEvents id t' els') -> n = n')
    by apply shared_from_injective.
  assert (Hbase : forall n id t els,
            Bind.lookupKey n evs = Some (SharedEvents id t els) ->
            fresh w <= id).
  { intros n id t els H.
    destruct (shared_from_lookup _ _ _ _ H) as (? & ? & [= <- _ _] & ? & _).
    lia. }
  destruct (callbacks_run evs sub (Bind.events b) wb Hkeys Hinj)
    as (wc & Hloop & Hlc & Hsc & Hcc).
  { intros c id t els _ Hlook. rewrite Hs, Hsa.
    apply no_subscriber_yet; [done|]. by eapply Hbase. }
  unfold bindM at 1 in Hrun. rewrite Hloop in Hrun.
  injection Hrun as <- <-.
  rewrite click_reached. unfold with_more_calls. cbn [calls].
  rewrite Hcc, Hc, Hca, Hlc, Hl, Hla, Hsc, Hs, Hsa. f_equal.
  generalize (el :: ancestors) as nodes.
  induction nodes as [|node nodes IH]; [done|].
  cbn [mbind list_bind]. rewrite IH. f_equal.
  rewrite reached_app. f_equal.
  - apply reached_more_sources.
    destruct Hsettled as [Hls _].
    eapply Forall_impl; [exact Hls|]. intros l Hlt.
    eapply Forall_impl; [apply (callback_sources_fresh evs _ (fresh w) Hbase)|].
    intros sh Hsh. cbn in *. lia.
  - rewrite reached_other_sources.
    2: { eapply Forall_impl;
           [apply (callback_listeners_fresh evs _ (fresh w) Hbase)|].
         intros l Hge. destruct Hsettled as [_ Hss].
         clear -Hss Hge. induction Hss as [|s ss Hs0 _ IH]; [constructor|].
         cbn [omap list_omap]. destruct (source_of s) as [sh|] eqn:Hsrc;
           [|exact IH].
         constructor; [|exact IH]. specialize (Hs0 sh eq_refl).
         cbn in *. lia. }
    by apply reached_callbacks.
Qed.
End ClickCallbacks.

(** ** dispose and the native listeners *)

Section Registration.
Import Engine Events.
Variable base : nat.

Lemma Registers_ret {A} (a : A) : Registers base (ret a).
Proof.
  intros w Hw. split; [done|]. exists []. by rewrite app_nil_r.
Qed.

Lemma Registers_throw {A} e : Registers base (@throw A e).
Proof.
  intros w Hw. split; [done|]. exists []. by rewrite app_nil_r.
Qed.

(** Sequencing, with what is known of the value passed on. *)
Lemma Registers_bindM_with {A B} (Q : A -> Prop) (m : M A) (k : A -> M B) :
  Registers base m ->
  (forall w w' a, base <= fresh w -> m w = (w', Ok a) -> Q a) ->
  (forall a, Q a -> Registers base (k a)) ->
  Registers base (bindM m k).
Proof.
  intros Hm HQ Hk w Hw. unfold bindM.
  destruct (Hm w Hw) as (Hf & added & Hl & Ha).
  specialize (HQ w). destruct (m w) as [w' [a|e]]; cbn [fst] in *.
  - destruct (Hk a (HQ w' a Hw eq_refl) w' Hf) as (Hf' & added' & Hl' & Ha').
    split; [done|]. exists (added ++ added').
    split; [by rewrite Hl', Hl, app_assoc|]. by apply Forall_app.
  - split; [done|]. by exists added.
Qed.

Lemma Registers_bindM {A B} (m : M A) (k : A -> M B) :
  Registers base m -> (forall a, Registers base (k a)) ->
  Registers base (bindM m k).
Proof.
  intros Hm Hk. apply (Registers_bindM_with (fun _ => True)); auto.
Qed.

Lemma Registers_for_each {A} (xs : list A) (f : A -> M unit) :
  (forall x, Registers base (f x)) -> Registers base (for_each xs f).
Proof.
  intros Hf. induction xs as [|x xs IH]; [apply Registers_ret|].
  apply Registers_bindM; [apply Hf|by intros _].
Qed.

Lemma Registers_fresh_id : Registers base fresh_id.
Proof.
  intros w Hw. split; [cbn; lia|]. exists []. by rewrite app_nil_r.
Qed.

Lemma Registers_gets {A} (f : World -> A) : Registers base (gets f).
Proof.
  intros w Hw. split; [done|]. exists []. by rewrite app_nil_r.
Qed.

Lemma sink_next_all_counter o vs : forall last w,
  fresh (sink_next_all o last vs w).1 = fresh w /\
  listeners (sink_next_all o last vs w).1 = listeners w.
Proof.
  induction vs as [|v vs IH]; intros last w; [done|].
  cbn [sink_next_all]. unfold bindM.
  assert (Hone : fresh (sink_next o last v w).1 = fresh w /\
                 listeners (sink_next o last v w).1 = listeners w).
  { destruct o as [selector els h|el a]; cbn [sink_next].
    - destruct (passes last v); [|done]. unfold bindM.
      by rewrite tap_callback_total.
    - done. }
  destruct (sink_next_ok o last v w) as (w1 & l1 & Hrun & _).
  rewrite Hrun in *. cbn [fst] in Hone. destruct Hone as [Hf Hl].
  destruct (IH l1 w1) as [Hf' Hl']. split; congruence.
Qed.

Lemma Registers_subscribe_sink owner stream o :
  Registers base (subscribe_sink owner stream o).
Proof.
  intros w Hw. unfold subscribe_sink. cbn [fresh_id].
  assert (Hgo : forall vs,
    base <= fresh (sink_next_all o None vs (bump w)).1 /\
    listeners (sink_next_all o None vs (bump w)).1 = listeners w).
  { intros vs. destruct (sink_next_all_counter o vs None (bump w)) as [-> ->].
    cbn. split; [lia|done]. }
  destruct stream as [subject|vs].
  - specialize (Hgo (match current (bump w) !! subject with
                     | Some v => [v] | None => [] end)).
    destruct (sink_next_all o None _ (bump w)) as [w1 [last|e]];
      cbn [fst] in *; destruct Hgo as [Hf Hl].
    + destruct (bool_decide (owner ∈ closed w1)); cbn;
        (split; [done|]); exists []; by rewrite app_nil_r.
    + split; [done|]. exists []. by rewrite app_nil_r.
  - specialize (Hgo vs).
    destruct (sink_next_all o None vs (bump w)) as [w1 [last|e]];
      cbn [fst] in *; destruct Hgo as [Hf Hl];
      (split; [done|]); exists []; by rewrite app_nil_r.
Qed.

Lemma Registers_subscribe_source owner es handler :
  match es with
  | SharedEvents id _ _ => base <= id
  | Never => True
  end ->
  Registers base (subscribe_source owner es handler).
Proof.
  intros Hes w Hw. unfold subscribe_source. cbn [fresh_id].
  destruct es as [|id type els]; cbn [fst].
  - split; [cbn; lia|]. exists []. by rewrite app_nil_r.
  - split; [by destruct (existsb _ _); cbn; lia|].
    destruct (existsb (subscribed_to id) (subs (bump w))); cbn.
    + exists []. by rewrite app_nil_r.
    + eexists. split; [done|].
      apply Forall_fmap, Forall_forall. by intros e _.
Qed.

Lemma Registers_shareAll raw : Registers base (Bind.shareAll raw).
Proof.
  intros w Hw. destruct (shareAll_run raw w) as (w' & -> & Hf & Hl & _).
  cbn [fst]. split; [lia|]. exists []. by rewrite app_nil_r.
Qed.

Section WithRoot.
Variable querySelectorAll : Dom.Query.
Variable root : Dom.Node.
Variable sub : nat.

Lemma Registers_qAll selector :
  Registers base (Bind.qAll querySelectorAll root selector).
Proof.
  intros w Hw. unfold Bind.qAll.
  destruct root as [| |r]; cbn; try (split; [done|]; exists [];
                                     by rewrite app_nil_r).
  destruct (querySelectorAll (Dom.elements (page w)) r selector) as [els|];
    cbn [fst].
  - destruct (bool_decide (List.length els = 0)); cbn;
      (split; [done|]); exists []; by rewrite app_nil_r.
  - split; [done|]. exists []. by rewrite app_nil_r.
Qed.

Lemma Registers_bindObservable selector stream handler :
  Registers base (Bind.bindObservable querySelectorAll root sub selector
                    stream handler).
Proof.
  unfold Bind.bindObservable, mbind, M_bind.
  apply Registers_bindM; [apply Registers_qAll|]. intros els.
  destruct (bool_decide (List.length els = 0));
    [apply Registers_ret|apply Registers_subscribe_sink].
Qed.

Lemma Registers_bindEach family a table :
  Registers base (Bind.bindEach querySelectorAll root sub family a table).
Proof.
  unfold Bind.bindEach. apply Registers_for_each. intros entry.
  unfold mbind, M_bind. apply Registers_bindM; [apply Registers_qAll|].
  intros els.
  destruct (bool_decide (List.length els = 0)); [apply Registers_ret|].
  apply Registers_for_each. intros el. apply Registers_subscribe_sink.
Qed.

Lemma Registers_sinkSection bindings k :
  Registers base (Bind.sinkSection querySelectorAll root sub bindings k).
Proof.
  destruct k; cbn [Bind.sinkSection].
  - apply Registers_for_each. intros entry. apply Registers_bindObservable.
  - apply Registers_for_each. intros entry. apply Registers_bindObservable.
  - apply Registers_bindEach.
  - apply Registers_bindEach.
  - apply Registers_bindEach.
  - apply Registers_for_each. intros other.
    destruct (Js.startsWith "data-" other.1); [|apply Registers_ret].
    apply Registers_for_each. intros entry.
    destruct (entry.2); [apply Registers_bindObservable|apply Registers_ret].
Qed.

Lemma Registers_bindEvents bindings :
  Registers base (Bind.bindEvents querySelectorAll root sub bindings).
Proof.
  unfold Bind.bindEvents, mbind, M_bind.
  apply Registers_bindM; [apply Registers_qAll|]. intros onEls.
  apply Registers_bindM; [apply Registers_gets|]. intros pg.
  apply (Registers_bindM_with
           (fun events_ => forall n es, Bind.lookupKey n events_ = Some es ->
              match es with
              | SharedEvents id _ _ => base <= id
              | Never => True
              end)); [apply Registers_shareAll| |].
  - intros w w' events_ Hw Hrun n es Hlook.
    destruct (shareAll_run (Bind.collectSources pg onEls) w)
      as (w2 & Hrun' & _).
    rewrite Hrun' in Hrun. injection Hrun as _ <-.
    destruct (shared_from_lookup _ _ _ _ Hlook) as (id & els & -> & Hid & _).
    lia.
  - intros events_ Hids.
    apply Registers_bindM; [|intros _; apply Registers_ret].
    apply Registers_for_each. intros entry.
    destruct (Bind.lookupKey entry.1 events_) as [es|] eqn:Hlook;
      [|apply Registers_ret].
    apply Registers_subscribe_source. by eapply Hids.
Qed.
End WithRoot.
End Registration.

Section DisposeListeners.
Import Engine Events.
Variable querySelectorAll : Dom.Query.

(** The listeners a [bind] call registers feed streams it has made. *)
Lemma bind_registers root bindings w0 w1 result :
  Bind.bind querySelectorAll root bindings w0 = (w1, Ok result) ->
  exists added, listeners w1 = listeners w0 ++ added /\
                Forall (fun l => fresh w0 <= l_stream l) added.
Proof.
  unfold Bind.bind.
  destruct (Dom.isNull root || negb (Dom.isHTMLElement root)); [done|].
  unfold mbind, M_bind, newSubscription.
  unfold bindM at 1. cbn [fresh_id].
  set (sub := fresh w0).
  set (body := bindM _ _).
  assert (Hg : Registers sub body).
  { subst body.
    apply Registers_bindM;
      [apply (Registers_sinkSection _ _ _ _ _ Bind.KText)|]. intros _.
    apply Registers_bindM;
      [apply (Registers_sinkSection _ _ _ _ _ Bind.KValue)|]. intros _.
    apply Registers_bindM;
      [apply (Registers_sinkSection _ _ _ _ _ Bind.KHtml)|]. intros _.
    apply Registers_bindM;
      [apply (Registers_sinkSection _ _ _ _ _ Bind.KClassName)|]. intros _.
    apply Registers_bindM;
      [apply (Registers_sinkSection _ _ _ _ _ Bind.KDisabled)|]. intros _.
    apply Registers_bindM; [apply Registers_bindEvents|]. intros events_.
    apply Registers_bindM;
      [apply (Registers_sinkSection _ _ _ _ _ Bind.KCustom)|]. intros _.
    apply Registers_ret. }
  intros Hrun. destruct (Hg (bump w0)) as (_ & added & Hl & Ha); [cbn; lia|].
  rewrite Hrun in Hl. by exists added.
Qed.

(** X23: [dispose] removes the native listeners the [bind] call
    registered: on a store whose listeners all have subscribers, the
    listeners after [dispose] are those before [bind]. *)
Theorem dispose_removes_listeners root bindings w0 w1 result :
  Bind.bind querySelectorAll root bindings w0 = (w1, Ok result) ->
  fresh w0 ∉ closed w0 ->
  Forall (fun s => sub_owner s <> fresh w0) (subs w0) ->
  settled w0 ->
  attended w0 ->
  listeners (Bind.dispose result w1) = listeners w0.
Proof.
  intros Hbind Hopen Hothers Hsettled Hattended.
  destruct (bind_extends _ _ _ _ _ _ Hbind)
    as [Hsub [(addedS & Hsubs & HaddedS) [Hclosed _]]].
  destruct (bind_registers _ _ _ _ _ Hbind) as (addedL & Hls & HaddedL).
  unfold Bind.dispose. cbn [foldl]. rewrite Hsub. unfold unsubscribe.
  rewrite bool_decide_eq_false_2 by congruence.
  cbn [listeners close with_listeners with_subs].
  rewrite Hsubs, filter_app.
  rewrite (filter_keep_all _ (subs w0)) by done.
  rewrite (filter_drop_all _ addedS), app_nil_r.
  2: { eapply Forall_impl; [exact HaddedS|]. by intros s -> ?. }
  rewrite Hls, List.filter_app.
  assert (List.filter (fun l => existsb (subscribed_to (l_stream l)) (subs w0))
            (listeners w0) = listeners w0) as ->.
  { apply forallb_filter_id, forallb_forall. intros l Hl.
    unfold attended in Hattended. rewrite Forall_forall in Hattended.
    apply Hattended. by apply list_elem_of_In. }
  assert (List.filter (fun l => existsb (subscribed_to (l_stream l)) (subs w0))
            addedL = []) as ->; [|by rewrite app_nil_r].
  clear -HaddedL Hsettled.
  induction HaddedL as [|l ls Hl _ IH]; [done|]. cbn [List.filter].
  by rewrite (no_subscriber_yet w0 (l_stream l) Hsettled Hl).
Qed.
End DisposeListeners.

(** ** The names of the event streams *)

Section EventNames.
Import Engine Events.
Variable querySelectorAll : Dom.Query.

(** X24: for a name that [{}] and an observable do not already carry
    as an inherited member, [events$] has an entry exactly when the name
    is not empty and some element found under [[data-on]] carries it;
    the entry is a shared click stream over the elements of that name in
    document order. *)
Theorem events_by_name r sub b w w' events_ onEls name :
  inherited name = false ->
  Bind.bindEvents querySelectorAll (Dom.NElement r) sub b w
  = (w', Ok events_) ->
  querySelectorAll (Dom.elements (page w)) r "[data-on]" = Some onEls ->
  match Bind.lookupKey name events_ with
  | Some (SharedEvents _ type els) =>
      name <> "" /\ type = "click" /\ els <> [] /\
      els = filter (fun el => Dom.getAttribute el "data-on" (page w)
                              = Some name) onEls
  | Some Never => False
  | None =>
      name = "" \/
      filter (fun el => Dom.getAttribute el "data-on" (page w) = Some name)
             onEls = []
  end.
Proof.
  intros _ Hrun Hq.
  unfold Bind.bindEvents, mbind, M_bind in Hrun.
  unfold bindM at 1 in Hrun.
  rewrite (qAll_found querySelectorAll r "[data-on]" w onEls Hq) in Hrun.
  set (wa := if bool_decide (List.length onEls = 0) then _ else w) in Hrun.
  assert (Hpage : page wa = page w).
  { subst wa. by destruct (bool_decide (List.length onEls = 0)). }
  unfold bindM at 1 in Hrun. unfold gets at 1 in Hrun.
  unfold bindM at 1 in Hrun. rewrite Hpage in Hrun.
  destruct (shareAll_run (Bind.collectSources (page w) onEls) wa)
    as (wb & Hshare & _).
  rewrite Hshare in Hrun. unfold bindM at 1 in Hrun.
  destruct (for_each _ _ wb) as [wc [[]|e]]; [|done].
  injection Hrun as _ <-.
  pose proof (collectSources_lookup (page w) onEls name) as Hraw.
  destruct (Bind.lookupKey name (shared_from (fresh wa) _)) as [es|] eqn:Hlook.
  - destruct (shared_from_lookup _ _ _ _ Hlook) as (id & els & -> & _ & Hk).
    rewrite Hk in Hraw.
    destruct (Js.nonempty name) eqn:Hn; [|done].
    apply nonempty_true in Hn.
    destruct (filter _ onEls) as [|x xs]; [done|].
    injection Hraw as ->. done.
  - destruct (Js.nonempty name) eqn:Hn.
    + right.
      destruct (filter _ onEls) as [|x xs] eqn:Ef; [done|].
      destruct (shared_from_found _ (fresh wa) _ _ Hraw) as (id & Hid).
      congruence.
    + left. by destruct name.
Qed.
End EventNames.

(** ** The errors of bind *)

Section BindErrors.
Import Engine Errors.







Section WithRoot.
Variable querySelectorAll : Dom.Query.
Variable r : nat.
Variable sub : nat.





End WithRoot.

End BindErrors.

(** ** The convention-based bindTemplate: one subscription per element *)

Section TemplateSubscriptions.
Import Engine.
Variable querySelectorAll : Dom.Query.

Lemma subscribe_each sub s a els : forall w,
  current w !! s = None ->
  sub ∉ closed w ->
  exists w',
    for_each els (fun el => subscribe_sink sub (Subj s) (Assign el a)) w
    = (w', Ok tt) /\
    subs w' = subs w
              ++ imap (fun i el => MkSub (fresh w + i) sub
                                     (Sink s (Assign el a) None)) els /\
    page w' = page w /\ console w' = console w /\
    fresh w' = fresh w + List.length els /\
    current w' = current w /\ closed w' = closed w.
Proof.
  induction els as [|el els IH]; intros w Hcold Hopen.
  - exists w. cbn. rewrite app_nil_r. repeat split; try done; lia.
  - cbn [for_each]. unfold bindM at 1.
    assert (Hone : subscribe_sink sub (Subj s) (Assign el a) w
              = (with_subs (fun l => l ++ [MkSub (fresh w) sub
                                             (Sink s (Assign el a) None)])
                   (bump w), Ok tt)).
    { unfold subscribe_sink. cbn [fresh_id current bump]. rewrite Hcold.
      cbn [sink_next_all]. unfold ret. cbn [closed bump].
      by rewrite bool_decide_eq_false_2. }
    rewrite Hone.
    match goal with |- context [for_each els _ ?w1] =>
      destruct (IH w1) as (w' & -> & Hs & Hp & Hc & Hf & Hv & Hcl) end;
      [done|done|].
    exists w'. split; [done|]. cbn in Hs, Hp, Hc, Hf, Hv, Hcl.
    split.
    + rewrite Hs, <- app_assoc. f_equal. cbn [imap app]. f_equal.
      * f_equal. lia.
      * apply imap_ext. intros i x _. cbn. f_equal. lia.
    + repeat split; try done. cbn [List.length]. lia.
Qed.

(** X26: the convention-based [bindTemplate] subscribes to the stream of
    an entry once per matched element: for a subject without a current
    value the store gains one subscription for each element, in document
    order, and neither the page nor the console changes. *)
Theorem template_subscription_per_element root sub family a key s table els w :
  querySelectorAll (Dom.elements (page w)) root (Bind.dataSelector family key)
  = Some els ->
  current w !! s = None ->
  sub ∉ closed w ->
  exists w1,
    Template.bindEach querySelectorAll root sub family a
      ((key, Subj s) :: table) w
    = Template.bindEach querySelectorAll root sub family a table w1 /\
    subs w1 = subs w
              ++ imap (fun i el => MkSub (fresh w + i) sub
                                     (Sink s (Assign el a) None)) els /\
    page w1 = page w /\ console w1 = console w.
Proof.
  intros Hq Hcold Hopen.
  unfold Template.bindEach. cbn [for_each].
  unfold bindM at 1. unfold mbind, M_bind, bindM at 1. cbn [fst snd].
  unfold Template.qAll at 1. rewrite Hq.
  destruct els as [|el els].
  - exists w. cbn. by rewrite app_nil_r.
  - rewrite bool_decide_eq_false_2 by done.
    destruct (subscribe_each sub s a (el :: els) w Hcold Hopen)
      as (w1 & -> & Hs & Hp & Hc & _).
    by exists w1.
Qed.
End TemplateSubscriptions.

(** ** The theorems at work *)

Lemma parseRoute_path_query_witness :
  Js.startsWithChar "/" "/users/42" = true /\
  Js.contains "?" "/users/42" = false /\
  Js.contains "?" "tab=details" = false /\
  Router.parseRoute Router.plainSearchParams
    ("#" +:+ "/users/42" +:+ "?" +:+ "tab=details")
  = Router.MkRoute "#/users/42?tab=details" "/users/42" ["users"; "42"]
      (Router.collect_params [("tab", "details")]).
Proof.
  split; [reflexivity|]. split; [reflexivity|]. split; [reflexivity|].
  apply (parseRoute_path_query Router.plainSearchParams "/users/42"
           "tab=details"); reflexivity.
Defined.

Lemma parseRoute_segments_roundtrip_witness :
  Forall (fun seg => seg <> "" /\ Js.contains "/" seg = false /\
                     Js.contains "?" seg = false) ["users"; "42"] /\
  Router.parseRoute Router.plainSearchParams ("#/" +:+ Js.join "/" ["users"; "42"])
  = Router.MkRoute "#/users/42" "/users/42" ["users"; "42"] ∅.
Proof.
  assert (H : Forall (fun seg => seg <> "" /\ Js.contains "/" seg = false /\
                                 Js.contains "?" seg = false) ["users"; "42"]).
  { repeat constructor; discriminate. }
  split; [exact H|].
  apply (parseRoute_segments_roundtrip Router.plainSearchParams
           ["users"; "42"] H).
Defined.

Lemma parseRoute_slash_optional_witness :
  Js.startsWithChar "/" "about" = false /\
  Router.path (Router.parseRoute Router.plainSearchParams ("#" +:+ "about"))
  = Router.path (Router.parseRoute Router.plainSearchParams ("#/" +:+ "about")).
Proof.
  split; [reflexivity|].
  apply (parseRoute_slash_optional Router.plainSearchParams "about").
  reflexivity.
Defined.

Lemma parseRoute_second_question_mark_witness :
  Js.contains "?" "/a" = false /\ Js.contains "?" "x=1" = false /\
  Router.params (Router.parseRoute Router.plainSearchParams
                   ("#" +:+ "/a" +:+ "?" +:+ "x=1" +:+ "?" +:+ "y=2"))
  = Router.params (Router.parseRoute Router.plainSearchParams
                     ("#" +:+ "/a" +:+ "?" +:+ "x=1")).
Proof.
  split; [reflexivity|]. split; [reflexivity|].
  apply (parseRoute_second_question_mark Router.plainSearchParams "/a" "x=1"
           "y=2"); reflexivity.
Defined.

Lemma hashRoute_restart_witness :
  let t := [Rx.Subscribe 1; Rx.Next "#/about"; Rx.Unsubscribe 1] in
  Rx.observers _
    (Rx.run (Router.hashRoutePipe Router.plainSearchParams "#/")
       (Router.createHashRoute Router.plainSearchParams "#/") t).1 = [] /\
  (Rx.subscribe (Router.hashRoutePipe Router.plainSearchParams "#/") 2
     (Rx.run (Router.hashRoutePipe Router.plainSearchParams "#/")
        (Router.createHashRoute Router.plainSearchParams "#/") t).1).2
  = [(2, Router.getRoute Router.plainSearchParams "#/")].
Proof.
  intros t. split; [reflexivity|].
  apply (hashRoute_restart Router.plainSearchParams "#/" t 2). reflexivity.
Defined.

Lemma hashRoute_late_subscriber_witness :
  (Rx.Unsubscribe 1 ∉ [@Rx.Next string "#/about"]) /\
  (Rx.subscribe (Router.hashRoutePipe Router.plainSearchParams "#/") 2
     (Rx.run (Router.hashRoutePipe Router.plainSearchParams "#/")
        (Router.createHashRoute Router.plainSearchParams "#/")
        [Rx.Subscribe 1; Rx.Next "#/about"]).1).2
  = [(2, Router.getRoute Router.plainSearchParams "#/about")].
Proof.
  assert (H : Rx.Unsubscribe 1 ∉ [@Rx.Next string "#/about"]).
  { intros [E|E]%elem_of_cons; [discriminate E|by apply elem_of_nil in E]. }
  split; [exact H|].
  apply (hashRoute_late_subscriber Router.plainSearchParams "#/" 1 2
           [Rx.Next "#/about"] H).
Defined.

Lemma hash_link_click_witness :
  let bound := HashLinks.bindHashLinks Menu.anchors 0 Menu.page in
  bound = (bound.1, Engine.Ok 0) /\
  HashLinks.passedOn Menu.plainClick = false /\
  HashLinks.locationHash
    (HashLinks.click HashLinks.plainFragment 1 Menu.plainClick bound.1).2
  = "#/about" /\
  HashLinks.defaultPrevented
    (HashLinks.click HashLinks.plainFragment 1 Menu.plainClick bound.1).1
  = true.
Proof.
  intros bound. split; [reflexivity|]. split; [reflexivity|].
  assert (Hin : 1 ∈ [1; 2]) by apply list_elem_of_here.
  rewrite (hash_link_click Menu.anchors HashLinks.plainFragment 0 Menu.page
             bound.1 0 [1; 2] 1 "#/about" Menu.plainClick
             eq_refl eq_refl Hin eq_refl eq_refl eq_refl).
  split; reflexivity.
Defined.

Lemma hash_link_click_passed_on_witness :
  HashLinks.passedOn Menu.ctrlClick = true /\
  HashLinks.click HashLinks.plainFragment 1 Menu.ctrlClick
    (HashLinks.bindHashLinks Menu.anchors 0 Menu.page).1
  = (Menu.ctrlClick, (HashLinks.bindHashLinks Menu.anchors 0 Menu.page).1).
Proof.
  split; [reflexivity|].
  apply (hash_link_click_passed_on HashLinks.plainFragment 1 Menu.ctrlClick).
  left. reflexivity.
Defined.

Lemma hash_links_unsubscribe_witness :
  let bound := HashLinks.bindHashLinks Menu.anchors 0 Menu.page in
  bound = (bound.1, Engine.Ok 0) /\
  HashLinks.clickListeners (HashLinks.unsubscribe 0 bound.1)
  = HashLinks.clickListeners Menu.page.
Proof.
  intros bound. split; [reflexivity|].
  apply (hash_links_unsubscribe Menu.anchors 0 Menu.page bound.1 0).
  - reflexivity.
  - constructor.
Defined.

Lemma update_fold_witness :
  let start := RouterApp.MkModel
                 (Router.parseRoute Router.plainSearchParams "#/") 0 in
  let about := Router.parseRoute Router.plainSearchParams "#/about" in
  let msgs := [RouterApp.Inc; RouterApp.RouteChanged about; RouterApp.Inc;
               RouterApp.Dec] in
  (Z.abs (RouterApp.count start) + Z.of_nat (List.length msgs) <= 2 ^ 53)%Z /\
  RouterApp.count (foldl RouterApp.update start msgs) = 1%Z /\
  RouterApp.route (foldl RouterApp.update start msgs) = about.
Proof.
  intros start about msgs.
  assert (H : (Z.abs (RouterApp.count start) + Z.of_nat (List.length msgs)
               <= 2 ^ 53)%Z) by (cbn; lia).
  split; [exact H|].
  apply (update_fold start msgs H).
Defined.

Lemma page_ignores_query_witness :
  Js.contains "?" "/counter" = false /\
  RouterApp.isCounter
    (Router.parseRoute Router.plainSearchParams
       ("#" +:+ "/counter" +:+ "?" +:+ "step=2"))
  = RouterApp.isCounter
      (Router.parseRoute Router.plainSearchParams ("#" +:+ "/counter")).
Proof.
  split; [reflexivity|].
  apply (page_ignores_query Router.plainSearchParams "/counter" "step=2" 0 0).
  reflexivity.
Defined.

Lemma bind_no_rollback_witness :
  Fixture.querySelectorAll (Dom.elements (Engine.page Tests.items)) 0 ".item"
  = Some [1; 2; 3] /\
  Fixture.querySelectorAll (Dom.elements (Engine.page Tests.items)) 0 "["
  = None /\
  Bind.bind Fixture.querySelectorAll (Dom.NElement 0)
    (Bind.MkBindings [(".item", Engine.Subj 0); ("[", Engine.Subj 1)]
       [] [] [] [] [] []) Tests.items
  = (Engine.with_subs (fun l =>
       l ++ [Engine.MkSub 1 0
               (Engine.Sink 0
                  (Engine.DistinctTap ".item" [1; 2; 3]
                     (fun el v => Bind.defaultHandlers_text el v)) None)])
       (Engine.bump (Engine.bump Tests.items)),
     Engine.Throw
       (Engine.BindingError ("Invalid selector: " +:+ "[")
          (Engine.ErrorContext "["))).
Proof.
  split; [reflexivity|]. split; [reflexivity|].
  apply (bind_no_rollback Fixture.querySelectorAll 0 ".item" 0 "["
           (Engine.Subj 1) [] [] [] [] [] [] [] Tests.items [1; 2; 3]).
  - reflexivity.
  - discriminate.
  - reflexivity.
  - reflexivity.
  - apply not_elem_of_empty.
Defined.

Lemma text_sink_fan_out_witness :
  let w' := (Engine.sink_next
               (Engine.DistinctTap ".item" [1; 3]
                  (fun el v => Bind.defaultHandlers_text el v))
               None (Js.VNum 3) Tests.items).1 in
  Engine.passes None (Js.VNum 3) = true /\
  Js.printsExactly (Js.VNum 3) = true /\
  Dom.mutations (Engine.page w')
  = [Dom.MkMutation 1 Dom.PContent "3"; Dom.MkMutation 3 Dom.PContent "3"] /\
  Tests.textContent 3 w' = Some (Dom.Text "3").
Proof.
  intros w'. split; [reflexivity|]. split; [reflexivity|].
  pose proof (text_sink_fan_out ".item" [1; 3] None (Js.VNum 3) Tests.items
                eq_refl eq_refl) as H.
  cbv zeta in H. destruct H as (Htrace & Hels & _).
  split; [exact Htrace|].
  apply (Hels 3 (Fixture.element (Dom.TOther "li") "item" [])).
  - apply list_elem_of_further, list_elem_of_here.
  - reflexivity.
Defined.

Lemma value_sink_form_controls_only_witness :
  let w := Fixture.world [Fixture.element Scenario.div "" [];
                          Fixture.element Dom.TInput "" [];
                          Fixture.element Dom.TButton "" []] [] in
  let w' := (Engine.sink_next
               (Engine.DistinctTap "[data-v]" [1; 2] Bind.valueHandler)
               None (Js.VStr "x") w).1 in
  Engine.passes None (Js.VStr "x") = true /\
  Js.printsExactly (Js.VStr "x") = true /\
  Dom.mutations (Engine.page w') = [Dom.MkMutation 1 Dom.PValue "x"] /\
  Dom.elements (Engine.page w') !! 2 = Dom.elements (Engine.page w) !! 2.
Proof.
  intros w w'. split; [reflexivity|]. split; [reflexivity|].
  pose proof (value_sink_form_controls_only "[data-v]" [1; 2] None
                (Js.VStr "x") w eq_refl eq_refl) as H.
  cbv zeta in H. destruct H as (Htrace & Hels).
  split; [exact Htrace|].
  apply (Hels 2).
  - apply list_elem_of_further, list_elem_of_here.
  - intros Hin. apply list_elem_of_singleton in Hin. discriminate Hin.
Defined.

Lemma custom_attribute_written_witness :
  Js.startsWith "data-" "data-state" = true /\
  Dom.validAttributeName "data-state" = true /\
  Dom.getAttribute 1 "data-state"
    (Engine.page
       (Engine.sink_next
          (Engine.DistinctTap ".item" [1] (Bind.attributeHandler "data-state"))
          None Js.VNull Tests.items).1)
  = Some "null".
Proof.
  split; [reflexivity|]. split; [reflexivity|].
  apply (custom_attribute_written ".item" [1] "data-state" None Js.VNull
           Tests.items 1).
  - reflexivity.
  - reflexivity.
  - reflexivity.
  - apply list_elem_of_here.
  - cbn. lia.
Defined.

Lemma custom_attribute_invalid_name_witness :
  Dom.validAttributeName "data-a b" = false /\
  Engine.page
    (Engine.sink_next
       (Engine.DistinctTap ".item" [1; 2] (Bind.attributeHandler "data-a b"))
       None (Js.VStr "x") Tests.items).1
  = Engine.page Tests.items.
Proof.
  split; [reflexivity|].
  rewrite (custom_attribute_invalid_name ".item" [1; 2] "data-a b" None
             (Js.VStr "x") Tests.items); reflexivity.
Defined.

Lemma eventStream_cache_key_witness :
  let first := Bind.getOrCreateEventStream Fixture.querySelectorAll
                 (Dom.NElement 0) "x:click" "[data-on]" Scenario.toolbar in
  first = (first.1, Engine.Ok (Engine.SharedEvents 0 "x:click" [1])) /\
  Bind.getOrCreateEventStream Fixture.querySelectorAll (Dom.NElement 0)
    "x" "click:[data-on]" first.1
  = (first.1, Engine.Ok (Engine.SharedEvents 0 "x:click" [1])).
Proof.
  intros first.
  assert (H : first = (first.1, Engine.Ok (Engine.SharedEvents 0 "x:click" [1])))
    by reflexivity.
  split; [exact H|].
  apply (eventStream_cache_key Fixture.querySelectorAll 0 "x:click"
           "[data-on]" "x" "click:[data-on]" Scenario.toolbar first.1
           (Engine.SharedEvents 0 "x:click" [1]) H).
  - discriminate.
  - reflexivity.
Defined.

Lemma eventStream_miss_not_cached_witness :
  Fixture.querySelectorAll (Dom.elements (Engine.page Scenario.toolbar)) 0
    ".missing" = Some [] /\
  exists w',
    Bind.getOrCreateEventStream Fixture.querySelectorAll (Dom.NElement 0)
      "click" ".missing" Scenario.toolbar = (w', Engine.Ok Engine.Never) /\
    default ∅ (Engine.eventCache w' !! 0) !! ("click" +:+ ":" +:+ ".missing")
    = None.
Proof.
  split; [reflexivity|].
  destruct (eventStream_miss_not_cached Fixture.querySelectorAll 0 "click"
              ".missing" Scenario.toolbar eq_refl eq_refl)
    as (w' & Hrun & Hmiss & _).
  exists w'. split; [exact Hrun|exact Hmiss].
Defined.

Lemma bind_cold_no_write_witness :
  Cold.cold_bindings (Engine.current Scenario.panel) Scenario.textSink /\
  Engine.page (Scenario.bound Scenario.textSink Scenario.panel)
  = Engine.page Scenario.panel.
Proof.
  assert (H : Cold.cold_bindings (Engine.current Scenario.panel)
                Scenario.textSink).
  { repeat split; repeat constructor. }
  split; [exact H|].
  apply (bind_cold_no_write Fixture.querySelectorAll (Dom.NElement 0)
           Scenario.textSink Scenario.panel H).
Defined.

Lemma events_by_name_witness :
  let bound := Bind.bindEvents Fixture.querySelectorAll (Dom.NElement 0) 9
                 Scenario.goCallback Scenario.toolbar in
  Events.inherited "go" = false /\
  bound = (bound.1, Engine.Ok [("go", Engine.SharedEvents 0 "click" [1])]) /\
  [1] = filter (fun el => Dom.getAttribute el "data-on"
                            (Engine.page Scenario.toolbar) = Some "go") [1].
Proof.
  intros bound.
  assert (H : bound = (bound.1,
                       Engine.Ok [("go", Engine.SharedEvents 0 "click" [1])]))
    by reflexivity.
  split; [reflexivity|]. split; [exact H|].
  pose proof (events_by_name Fixture.querySelectorAll 0 9 Scenario.goCallback
                Scenario.toolbar bound.1 _ [1] "go" eq_refl H eq_refl) as Hgo.
  destruct Hgo as (_ & _ & _ & Hels). exact Hels.
Defined.

Lemma click_reaches_callbacks_witness :
  let bound := Bind.bindEvents Fixture.querySelectorAll (Dom.NElement 0) 9
                 Scenario.goCallback Scenario.nested in
  bound = (bound.1, Engine.Ok [("go", Engine.SharedEvents 0 "click" [1; 2])]) /\
  Forall (fun entry => Events.inherited entry.1 = false)
         (Bind.events Scenario.goCallback) /\
  Events.settled Scenario.nested /\
  Engine.calls (Events.click [1; 0] 2 bound.1)
  = [Engine.MkCall 7 2; Engine.MkCall 7 2].
Proof.
  intros bound.
  assert (H : bound = (bound.1,
                       Engine.Ok [("go", Engine.SharedEvents 0 "click" [1; 2])]))
    by reflexivity.
  assert (Hnames : Forall (fun entry => Events.inherited entry.1 = false)
                          (Bind.events Scenario.goCallback))
    by (repeat constructor).
  assert (Hs : Events.settled Scenario.nested) by (split; constructor).
  split; [exact H|]. split; [exact Hnames|]. split; [exact Hs|].
  rewrite (click_reaches_callbacks Fixture.querySelectorAll 0 9
             Scenario.goCallback Scenario.nested bound.1 _ [1; 2] [1; 0] 2
             H eq_refl).
  - reflexivity.
  - apply NoDup_cons. split; [|apply NoDup_singleton].
    intros Hin. apply list_elem_of_singleton in Hin. discriminate Hin.
  - apply NoDup_singleton.
  - exact Hnames.
  - exact Hs.
Defined.

Lemma dispose_removes_listeners_witness :
  let bound := Bind.bind Fixture.querySelectorAll (Dom.NElement 0)
                 Scenario.goCallback Scenario.toolbar in
  bound = (bound.1,
           Engine.Ok (Bind.MkResult 0
                        [("go", Engine.SharedEvents 1 "click" [1])])) /\
  Engine.listenersOn 1 "click" bound.1 = 1 /\
  Engine.listeners
    (Bind.dispose (Bind.MkResult 0 [("go", Engine.SharedEvents 1 "click" [1])])
       bound.1)
  = Engine.listeners Scenario.toolbar.
Proof.
  intros bound.
  assert (H : bound = (bound.1,
             Engine.Ok (Bind.MkResult 0
                          [("go", Engine.SharedEvents 1 "click" [1])])))
    by reflexivity.
  split; [exact H|]. split; [reflexivity|].
  apply (dispose_removes_listeners Fixture.querySelectorAll (Dom.NElement 0)
           Scenario.goCallback Scenario.toolbar bound.1 _ H).
  - apply not_elem_of_empty.
  - constructor.
  - split; constructor.
  - constructor.
Defined.


Lemma template_subscription_per_element_witness :
  let w := Fixture.world
             [Fixture.element Scenario.div "" [];
              Fixture.element (Dom.TOther "li") "" [("data-text", "row")];
              Fixture.element (Dom.TOther "li") "" [("data-text", "row")]] [] in
  Fixture.querySelectorAll (Dom.elements (Engine.page w)) 0
    (Bind.dataSelector "text" "row") = Some [1; 2] /\
  (9 ∉ Engine.closed w) /\
  exists w1,
    Template.bindEach Fixture.querySelectorAll 0 9 "text" Engine.TextContent
      [("row", Engine.Subj 0)] w
    = Template.bindEach Fixture.querySelectorAll 0 9 "text" Engine.TextContent
        [] w1 /\
    Engine.subs w1
    = [Engine.MkSub 0 9 (Engine.Sink 0 (Engine.Assign 1 Engine.TextContent) None);
       Engine.MkSub 1 9 (Engine.Sink 0 (Engine.Assign 2 Engine.TextContent) None)].
Proof.
  intros w. split; [reflexivity|].
  assert (H : 9 ∉ Engine.closed w) by apply not_elem_of_empty.
  split; [exact H|].
  destruct (template_subscription_per_element Fixture.querySelectorAll 0 9
              "text" Engine.TextContent "row" 0 [] [1; 2] w
              eq_refl eq_refl H) as (w1 & Hrun & Hsubs & _).
  exists w1. split; [exact Hrun|exact Hsubs].
Defined.
